(** * Proof-lifecycle engine of minibits_ippon: a shallow embedding

    The Prisma store is a list of [Proof] rows with a row-id counter; each
    [prisma.proof.*] call is one step of a state-and-exception monad.  The
    Cashu mint (the cashu-ts [Wallet]) is a record of functions whose answers
    are left free, so every theorem holds for every mint behaviour. *)

From Stdlib Require Import String Ascii List ZArith QArith Bool Lia.
Import ListNotations.
Open Scope string_scope.

(** ** Data model (prisma schema, cashu-ts types, utils/AppError.ts) *)

Inductive ProofStatus := UNSPENT | PENDING | SPENT.

Definition ProofStatus_eqb (a b : ProofStatus) : bool :=
  match a, b with
  | UNSPENT, UNSPENT | PENDING, PENDING | SPENT, SPENT => true
  | _, _ => false
  end.

(** cashu-ts [Proof]; [dleq] and [witness] are kept as their JSON text. *)
Record Proof := mkProof {
  id : string;
  amount : Z;
  secret : string;
  C : string;
  dleq : option string;
  witness : option string
}.

(** A row of the [Proof] table. *)
Record ProofRow := mkRow {
  row_id : nat;
  walletId : Z;
  proofId : string;
  row_amount : Z;
  row_secret : string;
  row_C : string;
  row_dleq : option string;
  row_witness : option string;
  status : ProofStatus
}.

Record Store := mkStore {
  proof_rows : list ProofRow;
  next_row_id : nat
}.

Inductive Err :=
  | CONNECTION_ERROR | DATABASE_ERROR | VALIDATION_ERROR | UNKNOWN_ERROR
  | TIMEOUT_ERROR | NOTFOUND_ERROR | ALREADY_EXISTS_ERROR
  | UNAUTHORIZED_ERROR | SERVER_ERROR | LIMIT_ERROR.

Record AppError := mkAppError {
  statusCode : Z;
  name : Err;
  message : string
}.

(** What a [throw] can carry: an [AppError], a cashu-ts
    [MintOperationError] with its code, or any other [Error]. *)
Inductive Exn :=
  | ExnApp (a : AppError)
  | ExnMintOp (code : Z) (msg : string)
  | ExnOther (msg : string).

Definition exn_message (e : Exn) : string :=
  match e with
  | ExnApp a => message a
  | ExnMintOp _ m => m
  | ExnOther m => m
  end.

Inductive Res (A : Type) := Ok (a : A) | Throw (e : Exn).
Arguments Ok {A} a.
Arguments Throw {A} e.

(** ** The monad of an async function: store in, store out, result or throw.
    A throw keeps the writes made before it (no transaction). *)

Definition M (A : Type) := Store -> Store * Res A.

Definition ret {A} (a : A) : M A := fun s => (s, Ok a).
Definition throw {A} (e : Exn) : M A := fun s => (s, Throw e).
Definition lift {A} (r : Res A) : M A := fun s => (s, r).
Definition bind {A B} (m : M A) (k : A -> M B) : M B :=
  fun s => match m s with
           | (s', Ok a) => k a s'
           | (s', Throw e) => (s', Throw e)
           end.
Definition try_catch {A} (m : M A) (h : Exn -> M A) : M A :=
  fun s => match m s with
           | (s', Ok a) => (s', Ok a)
           | (s', Throw e) => h e s'
           end.

Notation "x <- m ;; k" := (bind m (fun x => k))
  (at level 61, m at next level, right associativity).
Notation "' p <- m ;; k" := (bind m (fun x => match x with p => k end))
  (at level 61, p pattern, m at next level, right associativity).
Notation "m ;;; k" := (bind m (fun _ => k)) (at level 61, right associativity).

Definition app_error (code : Z) (k : Err) (msg : string) : Exn :=
  ExnApp (mkAppError code k msg).

(** [new Set(xs).has(s)] *)
Definition mem (s : string) (xs : list string) : bool :=
  existsb (String.eqb s) xs.

(** Decimal rendering of a number inside a template string. *)
Fixpoint digits_aux (fuel : nat) (n : Z) (acc : string) : string :=
  match fuel with
  | O => acc
  | S f =>
      let acc' := String (ascii_of_nat (48 + Z.to_nat (n mod 10))) acc in
      if (n <? 10)%Z then acc' else digits_aux f (n / 10)%Z acc'
  end.

Definition string_of_Z (z : Z) : string :=
  if (z <? 0)%Z then "-" ++ digits_aux 64 (- z)%Z "" else digits_aux 64 z "".

(** ** Prisma calls on the [Proof] table *)

Definition unique_secret_violation : Exn :=
  ExnOther "Unique constraint failed on the fields: (`secret`)".

(** The row [prisma.proof.create] writes for a proof. *)
Definition proof_row (n : nat) (w : Z) (p : Proof) (st : ProofStatus) : ProofRow :=
  mkRow n w (id p) (amount p) (secret p) (C p) (dleq p) (witness p) st.

(** [prisma.proof.create]: [secret] is UNIQUE in the schema. *)
Definition prisma_proof_create (w : Z) (p : Proof) (st : ProofStatus) : M unit :=
  fun s =>
    if existsb (fun r => String.eqb (row_secret r) (secret p)) (proof_rows s)
    then (s, Throw unique_secret_violation)
    else (mkStore (proof_rows s ++
                     [proof_row (next_row_id s) w p st])%list
                  (S (next_row_id s)),
          Ok tt).

Definition set_status (r : ProofRow) (st : ProofStatus) : ProofRow :=
  {| row_id := row_id r; walletId := walletId r; proofId := proofId r;
     row_amount := row_amount r; row_secret := row_secret r; row_C := row_C r;
     row_dleq := row_dleq r; row_witness := row_witness r; status := st |}.

(** [prisma.proof.updateMany({where:{walletId, secret:{in}}, data:{status}})] *)
Definition update_row (w : Z) (secrets : list string) (st : ProofStatus)
    (r : ProofRow) : ProofRow :=
  if (walletId r =? w)%Z && mem (row_secret r) secrets then set_status r st else r.

Definition prisma_proof_updateMany (w : Z) (secrets : list string)
    (st : ProofStatus) : M unit :=
  fun s => (mkStore (map (update_row w secrets st) (proof_rows s)) (next_row_id s),
            Ok tt).

(** [prisma.proof.findMany({where:{walletId, status}})] *)
Definition rows_with (w : Z) (st : ProofStatus) (rows : list ProofRow) :=
  filter (fun r => (walletId r =? w)%Z && ProofStatus_eqb (status r) st) rows.

Definition row_to_proof (r : ProofRow) : Proof :=
  mkProof (proofId r) (row_amount r) (row_secret r) (row_C r)
          (row_dleq r) (row_witness r).

(** ** walletService.ts: store helpers *)

Definition getProofsAmount (proofs : list Proof) : Z :=
  fold_left (fun total p => (total + amount p)%Z) proofs 0%Z.

(** [saveProofs]: one [create] per proof, awaited in a loop. *)
Fixpoint saveProofs (w : Z) (proofs : list Proof) (st : ProofStatus) : M unit :=
  match proofs with
  | [] => ret tt
  | p :: ps => prisma_proof_create w p st ;;; saveProofs w ps st
  end.

Definition loadProofs (w : Z) (st : option ProofStatus) : M (list Proof) :=
  fun s =>
    let status := match st with Some x => x | None => UNSPENT end in
    (s, Ok (map row_to_proof (rows_with w status (proof_rows s)))).

Definition updateProofsStatus (w : Z) (secrets : list string)
    (st : ProofStatus) : M unit :=
  prisma_proof_updateMany w secrets st.

(** [if (xs.length > 0) await ...] *)
Definition when_nonempty {A} (xs : list A) (m : M unit) : M unit :=
  if Nat.ltb 0 (length xs) then m else ret tt.

(** ** The cashu-ts [Wallet] (the shared, already loaded mint client) *)

Inductive MeltQuoteState := MQ_UNPAID | MQ_PENDING | MQ_PAID.

Record MeltQuote := mkMeltQuote {
  quote : string;
  mq_amount : Z;
  fee_reserve : Z;
  mq_state : MeltQuoteState
}.

Record MeltResponse := mkMeltResponse {
  mr_quote : MeltQuote;
  mr_change : list Proof
}.

Inductive CheckStateEnum := CS_UNSPENT | CS_PENDING | CS_SPENT.

Definition CheckStateEnum_eqb (a b : CheckStateEnum) : bool :=
  match a, b with
  | CS_UNSPENT, CS_UNSPENT | CS_PENDING, CS_PENDING | CS_SPENT, CS_SPENT => true
  | _, _ => false
  end.

Record ProofState := mkProofState {
  Y : string;
  state : CheckStateEnum;
  ps_witness : option string
}.

Inductive OutputConfig := P2PKSend (pubkey : string).

Inductive MintQuoteState := MINT_UNPAID | MINT_PAID | MINT_ISSUED.

Record MintQuote := mkMintQuote {
  mint_quote : string;
  request : string;
  mint_state : MintQuoteState;
  expiry : Z;
  mint_amount : Z
}.

(** The mint calls the engine makes; their answers are arbitrary. *)
Record MintWallet := mkMintWallet {
  wallet_send : Z -> list Proof -> bool -> option OutputConfig ->
                Res (list Proof * list Proof);
  meltProofsBolt11 : MeltQuote -> list Proof -> Res MeltResponse;
  checkMeltQuoteBolt11 : string -> Res MeltQuote;
  checkProofsStates : list Proof -> Res (list ProofState);
  checkMintQuoteBolt11 : string -> Res MintQuote;
  mintProofsBolt11 : Z -> string -> Res (list Proof)
}.

(** [createMintQuote], [checkMintQuote], [mintProofs], ... wrap any failure
    of the mint call into a connection-kind [AppError]. *)
Definition mint_call {A} (r : Res A) : M A :=
  match r with
  | Ok a => ret a
  | Throw e => throw (app_error 500 CONNECTION_ERROR (exn_message e))
  end.

Definition checkMintQuote (wallet : MintWallet) (quoteId : string) : M MintQuote :=
  mint_call (checkMintQuoteBolt11 wallet quoteId).

Definition mintProofs (wallet : MintWallet) (amount : Z) (quoteId : string)
    : M (list Proof) :=
  mint_call (mintProofsBolt11 wallet amount quoteId).

(** ** walletService.ts: sendProofs *)

Definition sendProofs (wallet : MintWallet) (walletId : Z) (amount : Z)
    (p2pkPubkey : option string) : M (list Proof * list Proof) :=
  proofs <- loadProofs walletId None ;;
  let totalBalance := getProofsAmount proofs in
  if (totalBalance <? amount)%Z then
    throw (app_error 400 VALIDATION_ERROR
             ("Insufficient balance: " ++ string_of_Z totalBalance ++ " < "
              ++ string_of_Z amount))
  else
  (* [p2pkPubkey ? {...} : undefined]: the empty string is falsy *)
  let outputConfig :=
    match p2pkPubkey with
    | Some pk => if String.eqb pk "" then None else Some (P2PKSend pk)
    | None => None
    end in
  '(keep, send) <- lift (wallet_send wallet amount proofs true outputConfig) ;;
  let returnedSecrets := (map secret keep ++ map secret send)%list in
  let swappedSecrets :=
    filter (fun s => negb (mem s returnedSecrets)) (map secret proofs) in
  when_nonempty swappedSecrets
    (updateProofsStatus walletId swappedSecrets SPENT) ;;;
  let inputSecrets := map secret proofs in
  let newKeep := filter (fun p => negb (mem (secret p) inputSecrets)) keep in
  let newSend := filter (fun p => negb (mem (secret p) inputSecrets)) send in
  when_nonempty newKeep (saveProofs walletId newKeep UNSPENT) ;;;
  when_nonempty newSend (saveProofs walletId newSend PENDING) ;;;
  let inputSendSecrets := filter (fun s => mem s inputSecrets) (map secret send) in
  when_nonempty inputSendSecrets
    (updateProofsStatus walletId inputSendSecrets PENDING) ;;;
  ret (keep, send).

(** ** walletService.ts: syncProofsStateWithMint *)

Record SyncCounts := mkSyncCounts {
  spent : nat;
  pending : nat;
  unspent : nat
}.

(** The loop over [i < pendingProofs.length] reading [mintStates[i]?.state]:
    it returns [(spentSecrets, unspentSecrets)] in push order. *)
Fixpoint classify_states (pendingProofs : list Proof)
    (mintStates : list ProofState) : list string * list string :=
  match pendingProofs with
  | [] => ([], [])
  | p :: ps =>
      let mintState := match mintStates with
                       | m :: _ => Some (state m)
                       | [] => None
                       end in
      let '(sp, un) := classify_states ps (tl mintStates) in
      match mintState with
      | Some CS_SPENT => (secret p :: sp, un)
      | Some CS_UNSPENT => (sp, secret p :: un)
      | _ => (sp, un)
      end
  end.

Definition syncProofsStateWithMint (wallet : MintWallet) (walletId : Z)
    : M SyncCounts :=
  pendingProofs <- loadProofs walletId (Some PENDING) ;;
  if Nat.eqb (length pendingProofs) 0 then ret (mkSyncCounts 0 0 0) else
  mintStates <- lift (checkProofsStates wallet pendingProofs) ;;
  let '(spentSecrets, unspentSecrets) := classify_states pendingProofs mintStates in
  when_nonempty spentSecrets (updateProofsStatus walletId spentSecrets SPENT) ;;;
  when_nonempty unspentSecrets
    (updateProofsStatus walletId unspentSecrets UNSPENT) ;;;
  ret (mkSyncCounts (length spentSecrets)
         (length pendingProofs - length spentSecrets - length unspentSecrets)
         (length unspentSecrets)).

(** ** walletService.ts: meltProofs *)

(** [errorCode === n] for [errorCode : number | undefined] *)
Definition option_eq_Z (o : option Z) (n : Z) : bool :=
  match o with Some c => (c =? n)%Z | None => false end.

(** Phase B failure: the [catch (e)] block around the melt. *)
Definition melt_recheck (wallet : MintWallet) (walletId : Z)
    (meltQuote : MeltQuote) (sendSecrets : list string) (e : Exn)
    : M (MeltQuote * list Proof) :=
  try_catch
    (quoteCheck <- lift (checkMeltQuoteBolt11 wallet (quote meltQuote)) ;;
     match mq_state quoteCheck with
     | MQ_PAID =>
         updateProofsStatus walletId sendSecrets SPENT ;;;
         ret (quoteCheck, [])
     | MQ_PENDING =>
         throw (app_error 202 TIMEOUT_ERROR
                  ("Lightning payment is pending, proofs remain reserved. Check quote "
                   ++ quote meltQuote ++ " later."))
     | MQ_UNPAID =>
         let errorCode := match e with ExnMintOp c _ => Some c | _ => None end in
         if option_eq_Z errorCode 11002 then
           syncProofsStateWithMint wallet walletId ;;;
           throw (app_error 202 TIMEOUT_ERROR
                    ("Melt failed: proofs are pending at the mint. Check quote "
                     ++ quote meltQuote ++ " later."))
         else if option_eq_Z errorCode 11001 then
           syncProofsStateWithMint wallet walletId ;;;
           throw (app_error 500 CONNECTION_ERROR
                    "Melt failed: proofs already spent. Wallet state synced with mint.")
         else
           updateProofsStatus walletId sendSecrets UNSPENT ;;;
           throw (app_error 500 CONNECTION_ERROR ("Melt failed: " ++ exn_message e))
     end)
    (fun checkErr =>
       match checkErr with
       | ExnApp _ => throw checkErr
       | _ => throw (app_error 500 CONNECTION_ERROR
                       ("Melt failed and could not verify quote state: "
                        ++ exn_message e))
       end).

(** Phase B: [try { melt ... } catch (e) { re-check ... }]. *)
Definition melt_attempt (wallet : MintWallet) (walletId : Z) (meltQuote : MeltQuote)
    (proofsToSend : list Proof) (sendSecrets : list string)
    : M (MeltQuote * list Proof) :=
  try_catch
    (meltResponse <- lift (meltProofsBolt11 wallet meltQuote proofsToSend) ;;
     updateProofsStatus walletId sendSecrets SPENT ;;;
     when_nonempty (mr_change meltResponse)
       (saveProofs walletId (mr_change meltResponse) UNSPENT) ;;;
     ret (mr_quote meltResponse, mr_change meltResponse))
    (melt_recheck wallet walletId meltQuote sendSecrets).

(** [meltProofs]: phase A (reserve), then phase B. *)
Definition meltProofs (wallet : MintWallet) (walletId : Z) (meltQuote : MeltQuote)
    : M (MeltQuote * list Proof) :=
  let amountNeeded := (mq_amount meltQuote + fee_reserve meltQuote)%Z in
  proofs <- loadProofs walletId None ;;
  let totalBalance := getProofsAmount proofs in
  if (totalBalance <? amountNeeded)%Z then
    throw (app_error 400 VALIDATION_ERROR
             ("Insufficient balance for melt: " ++ string_of_Z totalBalance
              ++ " < " ++ string_of_Z amountNeeded))
  else
  '(proofsToKeep, proofsToSend) <-
     lift (wallet_send wallet amountNeeded proofs false None) ;;
  let returnedSecrets := (map secret proofsToKeep ++ map secret proofsToSend)%list in
  let inputSecrets := map secret proofs in
  let swappedSecrets :=
    filter (fun s => negb (mem s returnedSecrets)) (map secret proofs) in
  when_nonempty swappedSecrets
    (updateProofsStatus walletId swappedSecrets SPENT) ;;;
  let newKeep := filter (fun p => negb (mem (secret p) inputSecrets)) proofsToKeep in
  when_nonempty newKeep (saveProofs walletId newKeep UNSPENT) ;;;
  let sendSecrets := map secret proofsToSend in
  let existingSendSecrets := filter (fun s => mem s inputSecrets) sendSecrets in
  let newSendProofs :=
    filter (fun p => negb (mem (secret p) inputSecrets)) proofsToSend in
  when_nonempty existingSendSecrets
    (updateProofsStatus walletId existingSendSecrets PENDING) ;;;
  when_nonempty newSendProofs (saveProofs walletId newSendProofs PENDING) ;;;
  melt_attempt wallet walletId meltQuote proofsToSend sendSecrets.

(** ** protectedRoutes.ts: GET /wallet/deposit/:quote *)

Record DepositResponse := mkDepositResponse {
  dr_quote : string;
  dr_request : string;
  dr_state : MintQuoteState;
  dr_expiry : Z
}.

Definition deposit_check_handler (wallet : MintWallet) (walletId : Z)
    (quoteId : string) : M DepositResponse :=
  quote <- checkMintQuote wallet quoteId ;;
  (match mint_state quote with
   | MINT_PAID =>
       try_catch
         (proofs <- mintProofs wallet (mint_amount quote) (mint_quote quote) ;;
          saveProofs walletId proofs UNSPENT)
         (fun _ => ret tt) (* log.warn *)
   | _ => ret tt
   end) ;;;
  ret (mkDepositResponse (mint_quote quote) (request quote) (mint_state quote)
                         (expiry quote)).

(** The other [catch] blocks of the route handlers. *)

(** POST /wallet/pay: resolving a lightning address. *)
Definition pay_lnaddress_catch (e : Exn) : M string :=
  throw (app_error 400 CONNECTION_ERROR
           ("Failed to resolve lightning address: " ++ exn_message e)).

(** POST /wallet (publicRoutes.ts): receiving the initial token; the wallet
    row delete is a store call that may itself throw. *)
Definition create_wallet_catch (walletDelete : M unit) (e : Exn) : M Z :=
  match e with
  | ExnApp _ => throw e
  | _ => walletDelete ;;;
         throw (app_error 400 VALIDATION_ERROR
                  ("Failed to receive initial token: " ++ exn_message e))
  end.

(** ** protectedRoutes.ts: POST /wallet/check, the overall state label *)

Definition overall_state (proofStates : list ProofState) : string :=
  let states := map state proofStates in
  let overallState := "UNKNOWN" in
  if forallb (fun s => CheckStateEnum_eqb s CS_UNSPENT) states then "UNSPENT"
  else if forallb (fun s => CheckStateEnum_eqb s CS_SPENT) states then "SPENT"
  else if forallb (fun s => CheckStateEnum_eqb s CS_PENDING) states then "PENDING"
  else "MIXED".

(** ** nostrService.ts: normalizePubkey *)

(** The result of nostr-tools' [nip19.decode]: its [type] and, for an npub,
    the hex of the key; or the error it throws. *)
Inductive DecodeResult :=
  | Decoded (type : string) (data : string)
  | DecodeFailed (msg : string).

Definition normalizePubkey (decode : string -> DecodeResult) (pubkey : string)
    : Res string :=
  if String.prefix "npub" pubkey then
    match decode pubkey with
    | Decoded ty d =>
        if String.eqb ty "npub" then Ok ("02" ++ d)
        else Throw (app_error 400 VALIDATION_ERROR "Invalid npub key")
    | DecodeFailed m =>
        Throw (app_error 400 VALIDATION_ERROR ("Failed to decode npub key: " ++ m))
    end
  else if Nat.eqb (String.length pubkey) 64 then Ok ("02" ++ pubkey)
  else if Nat.eqb (String.length pubkey) 66 then Ok pubkey
  else Throw (app_error 400 VALIDATION_ERROR
                "Invalid pubkey: provide a compressed hex (66 chars), x-only hex (64 chars), or npub1... encoded key").

(** ** exchangeRateService.ts *)

Definition SATOSHIS_PER_BTC : Q := 100000000.
Definition RATE_FETCH_TIMEOUT_MS : Z := 5000.
Definition RATE_CACHE_TTL_MS : Z := 120000.
Definition SUPPORTED_CURRENCIES : list string := ["usd"; "eur"; "cad"; "gbp"].

Record RateResponse := mkRateResponse {
  rr_currency : string;
  rate : Q;
  timestamp : Z
}.

(** A JS object keyed by string, as an association list. *)
Fixpoint assoc_lookup {A} (k : string) (l : list (string * A)) : option A :=
  match l with
  | [] => None
  | (k', v) :: l' => if String.eqb k k' then Some v else assoc_lookup k l'
  end.

Definition assoc_set {A} (k : string) (v : A) (l : list (string * A))
    : list (string * A) :=
  (k, v) :: filter (fun kv => negb (String.eqb (fst kv) k)) l.

Definition RateCache := list (string * RateResponse).

Definition ascii_lower (c : ascii) : ascii :=
  let n := nat_of_ascii c in
  if (65 <=? n)%nat && (n <=? 90)%nat then ascii_of_nat (n + 32) else c.

Definition ascii_upper (c : ascii) : ascii :=
  let n := nat_of_ascii c in
  if (97 <=? n)%nat && (n <=? 122)%nat then ascii_of_nat (n - 32) else c.

Fixpoint string_map (f : ascii -> ascii) (s : string) : string :=
  match s with
  | EmptyString => EmptyString
  | String c s' => String (f c) (string_map f s')
  end.

Definition toLowerCase := string_map ascii_lower.
Definition toUpperCase := string_map ascii_upper.

(** How the upstream request ends: the 5-second timer wins the race,
    [fetch] rejects, or a response arrives with its status and, when the
    body parses, its [bitcoin] field. *)
Inductive HttpOutcome :=
  | TimerFired
  | FetchRejected (msg : string)
  | HttpResponse (httpStatus : Z) (bitcoin : option (list (string * Q))).

Definition fetchRatesFromCoinGecko (o : HttpOutcome) : Res (list (string * Q)) :=
  match o with
  | TimerFired => Throw (ExnOther "Timeout")
  | FetchRejected m => Throw (ExnOther m)
  | HttpResponse st b =>
      if (200 <=? st)%Z && (st <? 300)%Z then
        match b with
        | Some rates => Ok rates
        | None => Throw (ExnOther "Invalid response from CoinGecko")
        end
      else Throw (ExnOther ("CoinGecko API returned " ++ string_of_Z st))
  end.

(** [rate && !isNaN(rate)] for a rational rate *)
Definition rate_ok (r : Q) : bool := negb (Qeq_bool r 0).

Definition cache_rates (rates : list (string * Q)) (now : Z) (rateCache : RateCache)
    : RateCache :=
  fold_left (fun c '(cur, r) =>
               if rate_ok r
               then assoc_set cur (mkRateResponse (toUpperCase cur)
                                     (SATOSHIS_PER_BTC / r) now) c
               else c)
            rates rateCache.

(** [getExchangeRate]: [upstream] is how the awaited request (this caller's
    own, or the one already in flight) ends. *)
Definition getExchangeRate (currency : string) (now : Z) (upstream : HttpOutcome)
    (rateCache : RateCache) : RateCache * Res RateResponse :=
  let currencyLower := toLowerCase currency in
  let currencyUpper := toUpperCase currency in
  let cache := assoc_lookup currencyLower rateCache in
  let on_error (e : Exn) :=
    let errorType :=
      if String.eqb (exn_message e) "Timeout" then "Timeout" else "API error" in
    match cache with
    | Some c => (rateCache, Ok c)
    | None => (rateCache, Throw (ExnOther ("Failed to fetch exchange rate ("
                                           ++ errorType ++ "): " ++ exn_message e)))
    end in
  let fetch_part :=
    if negb (existsb (String.eqb currencyLower) SUPPORTED_CURRENCIES) then
      (rateCache, Throw (ExnOther ("Unsupported currency: " ++ currency
                                   ++ ". Supported: usd, eur, cad, gbp")))
    else
      match fetchRatesFromCoinGecko upstream with
      | Throw e => on_error e
      | Ok rates =>
          match assoc_lookup currencyLower rates with
          | Some rateInFiat =>
              if rate_ok rateInFiat then
                (cache_rates rates now rateCache,
                 Ok (mkRateResponse currencyUpper (SATOSHIS_PER_BTC / rateInFiat) now))
              else on_error (ExnOther ("No rate available for currency: " ++ currency))
          | None => on_error (ExnOther ("No rate available for currency: " ++ currency))
          end
      end in
  match cache with
  | Some c => if (now - timestamp c <? RATE_CACHE_TTL_MS)%Z then (rateCache, Ok c)
              else fetch_part
  | None => fetch_part
  end.

Definition isSupportedCurrency (currency : string) : bool :=
  existsb (String.eqb (toLowerCase currency)) SUPPORTED_CURRENCIES.

(** protectedRoutes.ts: GET /rate/:currency *)
Definition rate_handler (currency : string) (now : Z) (upstream : HttpOutcome)
    (rateCache : RateCache) : RateCache * Res RateResponse :=
  if negb (isSupportedCurrency currency) then
    (rateCache, Throw (app_error 400 VALIDATION_ERROR ("Unsupported currency: " ++ currency)))
  else
    match getExchangeRate currency now upstream rateCache with
    | (c', Ok r) => (c', Ok r)
    | (c', Throw e) => (c', Throw (app_error 404 NOTFOUND_ERROR (exn_message e)))
    end.

(** ** walletService.ts: getWallet, getWalletBalance, receiveToken,
    checkTokenState *)

(** [getWallet]: the module-level [_wallet] cache.  [loadMint] is
    [new Wallet(MINT_URL, {unit})] followed by [await cashuWallet.loadMint()];
    [mintUrlEnv] is [process.env.MINT_URL]. *)
Definition getWallet {W} (mintUrlEnv : option string) (loadMint : string -> Res W)
    (_wallet : option W) : option W * Res W :=
  match _wallet with
  | Some w => (_wallet, Ok w)
  | None =>
      let mintUrl := match mintUrlEnv with Some u => u | None => "" end in
      if String.eqb mintUrl "" then
        (None, Throw (app_error 500 VALIDATION_ERROR "Missing MINT_URL environment variable"))
      else
        match loadMint mintUrl with
        | Ok cashuWallet => (Some cashuWallet, Ok cashuWallet)
        | Throw e => (None, Throw e)
        end
  end.

Record WalletBalance := mkWalletBalance {
  wb_balance : Z;
  pendingBalance : Z
}.

(** [(await prisma.proof.aggregate({where:{walletId, status},
    _sum:{amount:true}}))._sum.amount || 0] *)
Definition aggregate_amount (w : Z) (st : ProofStatus) (rows : list ProofRow) : Z :=
  fold_right (fun r acc => (row_amount r + acc)%Z) 0%Z (rows_with w st rows).

Definition getWalletBalance (walletId : Z) : M WalletBalance :=
  fun s => (s, Ok (mkWalletBalance (aggregate_amount walletId UNSPENT (proof_rows s))
                                   (aggregate_amount walletId PENDING (proof_rows s)))).

(** [receiveToken]: [receive] is the cashu-ts [wallet.receive(tokenStr)]
    swap; its failure is not wrapped. *)
Definition receiveToken (receive : string -> Res (list Proof)) (walletId : Z)
    (tokenStr : string) : M (list Proof) :=
  newProofs <- lift (receive tokenStr) ;;
  saveProofs walletId newProofs UNSPENT ;;;
  ret newProofs.

(** A decoded cashu token, as [getDecodedToken] returns it. *)
Record Token := mkToken {
  token_mint : string;
  token_proofs : list Proof;
  token_unit : option string;
  token_memo : option string
}.

(** [checkTokenState]: [getDecodedToken] is cashu-ts' decoder, which throws
    on a malformed token. *)
Definition checkTokenState (getDecodedToken : string -> Res Token)
    (wallet : MintWallet) (tokenStr : string) : Res (list ProofState * Token) :=
  match getDecodedToken tokenStr with
  | Throw e => Throw e
  | Ok token =>
      match checkProofsStates wallet (token_proofs token) with
      | Throw e => Throw e
      | Ok proofStates => Ok (proofStates, token)
      end
  end.

(** ** The [Wallet] table and handlers/bearerAuth.ts *)

Record PrismaWallet := mkPrismaWallet {
  wallet_id : Z;
  accessKey : string;
  wallet_name : option string;
  mint : string;
  wallet_unit : string;
  maxBalance : option Z;
  maxSend : option Z;
  maxPay : option Z
}.

(** [prisma.wallet.findUnique({where:{accessKey}})] *)
Definition wallet_findUnique (wallets : list PrismaWallet) (key : string)
    : option PrismaWallet :=
  find (fun wl => String.eqb (accessKey wl) key) wallets.

(** [bearerAuthHandler]: the wallet it attaches to the request, or the
    error it throws.  [authorization] is [req.headers.authorization]. *)
Definition bearerAuthHandler (wallets : list PrismaWallet)
    (authorization : option string) : Res PrismaWallet :=
  let authHeader := match authorization with Some h => h | None => "" end in
  if String.eqb authHeader "" then
    Throw (app_error 401 UNAUTHORIZED_ERROR "Missing Authorization header")
  else if negb (String.prefix "Bearer " authHeader) then
    Throw (app_error 401 UNAUTHORIZED_ERROR "Invalid Authorization header format")
  else
    let accessKey := String.substring 7 (String.length authHeader - 7) authHeader in
    if String.eqb accessKey "" then
      Throw (app_error 401 UNAUTHORIZED_ERROR "Empty access key")
    else
      match wallet_findUnique wallets accessKey with
      | None => Throw (app_error 401 UNAUTHORIZED_ERROR "Invalid access key")
      | Some wallet => Ok wallet
      end.

(** ** protectedRoutes.ts: limits, unit check and the wallet routes *)

(** [parseInt(process.env[globalEnvKey] || String(fallback))] for a variable
    that is unset or holds a number: [env] is that number. *)
Definition envLimit (env : option Z) (fallback : Z) : Z :=
  match env with Some v => v | None => fallback end.

Definition effectiveLimit (walletLimit : option Z) (env : option Z) (fallback : Z) : Z :=
  let global := envLimit env fallback in
  match walletLimit with
  | Some l => Z.min l global
  | None => global
  end.

(** JS truthiness of an optional string of the request body. *)
Definition truthy (o : option string) : bool :=
  match o with Some x => negb (String.eqb x "") | None => false end.

Definition validateUnit (wallet : PrismaWallet) (bodyUnit : option string) : Res unit :=
  if negb (truthy bodyUnit) then
    Throw (app_error 400 VALIDATION_ERROR "Unit is required")
  else
    let u := match bodyUnit with Some u => u | None => "" end in
    if String.eqb u (wallet_unit wallet) then Ok tt
    else Throw (app_error 400 VALIDATION_ERROR
                  ("Unit '" ++ u ++ "' does not match wallet unit '"
                   ++ wallet_unit wallet ++ "'")).

(** POST /wallet/deposit; [createMintQuoteBolt11] is the mint call of
    [WalletService.createMintQuote]. *)
Definition deposit_create_handler (createMintQuoteBolt11 : Z -> Res MintQuote)
    (envMaxBalance : option Z) (wallet : PrismaWallet) (amount : Z)
    (bodyUnit : option string) : M DepositResponse :=
  lift (validateUnit wallet bodyUnit) ;;;
  if (amount <=? 0)%Z then
    throw (app_error 400 VALIDATION_ERROR "Amount must be a positive integer")
  else
  let maxBalance := effectiveLimit (maxBalance wallet) envMaxBalance 100000 in
  b <- getWalletBalance (wallet_id wallet) ;;
  if (wb_balance b + amount >? maxBalance)%Z then
    throw (app_error 400 LIMIT_ERROR
             ("Deposit would exceed max balance of " ++ string_of_Z maxBalance))
  else
  quote <- mint_call (createMintQuoteBolt11 amount) ;;
  ret (mkDepositResponse (mint_quote quote) (request quote) (mint_state quote)
                         (expiry quote)).

Record SendResponse := mkSendResponse {
  sr_token : string;
  sr_amount : Z;
  sr_unit : string;
  sr_memo : option string
}.

(** POST /wallet/send; [getEncodedTokenV4 mint proofs memo unit] is the
    cashu-ts encoder, [decode] the npub decoder of [normalizePubkey]. *)
Definition send_handler (wm : MintWallet) (decode : string -> DecodeResult)
    (getEncodedTokenV4 : string -> list Proof -> option string -> string -> string)
    (mintUrlEnv : option string) (envMaxSend : option Z) (wallet : PrismaWallet)
    (amount : Z) (bodyUnit memo lock_to_pubkey cashu_request : option string)
    : M SendResponse :=
  lift (validateUnit wallet bodyUnit) ;;;
  if truthy cashu_request then
    throw (app_error 400 VALIDATION_ERROR
             "Paying of cashu payment requests is not yet supported.")
  else
  if (amount <=? 0)%Z then
    throw (app_error 400 VALIDATION_ERROR "Amount must be a positive integer")
  else
  let maxSend := effectiveLimit (maxSend wallet) envMaxSend 50000 in
  if (amount >? maxSend)%Z then
    throw (app_error 400 LIMIT_ERROR
             ("Amount " ++ string_of_Z amount ++ " exceeds max send limit of "
              ++ string_of_Z maxSend))
  else
  p2pkPubkey <- (match lock_to_pubkey with
                 | Some pk => if truthy lock_to_pubkey
                              then pk' <- lift (normalizePubkey decode pk) ;; ret (Some pk')
                              else ret None
                 | None => ret None
                 end) ;;
  '(_, send) <- sendProofs wm (wallet_id wallet) amount p2pkPubkey ;;
  let mintUrl := match mintUrlEnv with Some u => u | None => "" end in
  let token := getEncodedTokenV4 mintUrl send memo (wallet_unit wallet) in
  ret (mkSendResponse token (getProofsAmount send) (wallet_unit wallet) memo).

Record CheckResponse := mkCheckResponse {
  cr_amount : Z;
  cr_unit : string;
  cr_memo : option string;
  cr_state : string;
  mint_proof_states : list ProofState
}.

(** [token.proofs.filter((_, i) => proofStates[i]?.state === c)] *)
Definition proofs_in_state (proofs : list Proof) (proofStates : list ProofState)
    (c : CheckStateEnum) : list Proof :=
  map snd
      (filter (fun ip => match nth_error proofStates (fst ip) with
                         | Some m => CheckStateEnum_eqb (state m) c
                         | None => false
                         end)
              (combine (seq 0 (length proofs)) proofs)).

(** [... .map(p => p.secret)] *)
Definition secrets_in_state (proofs : list Proof) (proofStates : list ProofState)
    (c : CheckStateEnum) : list string :=
  map secret (proofs_in_state proofs proofStates c).

(** POST /wallet/check *)
Definition check_handler (getDecodedToken : string -> Res Token) (wm : MintWallet)
    (wallet : PrismaWallet) (tokenStr : string) : M CheckResponse :=
  if String.eqb tokenStr "" then
    throw (app_error 400 VALIDATION_ERROR "Token is required")
  else
  '(proofStates, token) <- lift (checkTokenState getDecodedToken wm tokenStr) ;;
  let overallState := overall_state proofStates in
  let spentSecrets := secrets_in_state (token_proofs token) proofStates CS_SPENT in
  when_nonempty spentSecrets
    (updateProofsStatus (wallet_id wallet) spentSecrets SPENT) ;;;
  let pendingSecrets := secrets_in_state (token_proofs token) proofStates CS_PENDING in
  when_nonempty pendingSecrets
    (updateProofsStatus (wallet_id wallet) pendingSecrets PENDING) ;;;
  let unit := if truthy (token_unit token)
              then match token_unit token with Some u => u | None => "" end
              else wallet_unit wallet in
  ret (mkCheckResponse (getProofsAmount (token_proofs token)) unit (token_memo token)
                       overallState proofStates).

(** POST /wallet/pay; [createMeltQuoteBolt11] is the mint call of
    [WalletService.createMeltQuote], [resolveLightningAddress address amount]
    the two LNURL requests of the [try] block, giving [invoiceData.pr]. The
    response copies the fields of the returned quote. *)
Definition pay_handler (wm : MintWallet) (createMeltQuoteBolt11 : string -> Res MeltQuote)
    (resolveLightningAddress : string -> Z -> Res (option string))
    (envMaxPay : option Z) (wallet : PrismaWallet)
    (bolt11_request lightning_address : option string) (amount : Z)
    (bodyUnit : option string) : M MeltQuote :=
  lift (validateUnit wallet bodyUnit) ;;;
  if negb (truthy bolt11_request) && negb (truthy lightning_address) then
    throw (app_error 400 VALIDATION_ERROR
             "Either bolt11_request or lightning_address is required")
  else
  let maxPay := effectiveLimit (maxPay wallet) envMaxPay 50000 in
  if negb (Z.eqb amount 0) && (amount >? maxPay)%Z then
    throw (app_error 400 LIMIT_ERROR
             ("Amount " ++ string_of_Z amount ++ " exceeds max pay limit of "
              ++ string_of_Z maxPay))
  else
  invoice <- (match lightning_address with
              | Some la =>
                  if truthy lightning_address && negb (truthy bolt11_request) then
                    try_catch (lift (resolveLightningAddress la amount))
                      (fun e => inv <- pay_lnaddress_catch e ;; ret (Some inv))
                  else ret bolt11_request
              | None => ret bolt11_request
              end) ;;
  if negb (truthy invoice) then
    throw (app_error 400 VALIDATION_ERROR "Could not resolve a bolt11 invoice")
  else
  let inv := match invoice with Some i => i | None => "" end in
  meltQuote <- mint_call (createMeltQuoteBolt11 inv) ;;
  meltResponse <- meltProofs wm (wallet_id wallet) meltQuote ;;
  ret (fst meltResponse).

Record ReceiveResponse := mkReceiveResponse {
  rc_amount : Z;
  rc_unit : string;
  rc_balance : Z;
  rc_pending_balance : Z
}.

(** POST /wallet/receive *)
Definition receive_handler (getDecodedToken : string -> Res Token)
    (receive : string -> Res (list Proof)) (envMaxBalance : option Z)
    (wallet : PrismaWallet) (tokenStr : string) : M ReceiveResponse :=
  if String.eqb tokenStr "" then
    throw (app_error 400 VALIDATION_ERROR "Token is required")
  else
  let maxBalance := effectiveLimit (maxBalance wallet) envMaxBalance 100000 in
  current <- getWalletBalance (wallet_id wallet) ;;
  decoded <- lift (getDecodedToken tokenStr) ;;
  let tokenAmount := getProofsAmount (token_proofs decoded) in
  if (wb_balance current + tokenAmount >? maxBalance)%Z then
    throw (app_error 400 LIMIT_ERROR
             ("Receiving " ++ string_of_Z tokenAmount ++ " would exceed max balance of "
              ++ string_of_Z maxBalance))
  else
  newProofs <- receiveToken receive (wallet_id wallet) tokenStr ;;
  let amount := getProofsAmount newProofs in
  after <- getWalletBalance (wallet_id wallet) ;;
  ret (mkReceiveResponse amount (wallet_unit wallet) (wb_balance after)
                         (pendingBalance after)).

(** GET /wallet *)
Record WalletLimits := mkWalletLimits {
  max_balance : option Z;
  max_send : option Z;
  max_pay : option Z
}.

Record WalletResponse := mkWalletResponse {
  wr_name : string;
  access_key : string;
  wr_mint : string;
  wr_unit : string;
  wr_balance : Z;
  pending_balance_field : Z;
  limits : option WalletLimits
}.

(** [x != null] *)
Definition not_null {A} (o : option A) : bool :=
  match o with Some _ => true | None => false end.

Definition wallet_get_handler (wallet : PrismaWallet) : M WalletResponse :=
  b <- getWalletBalance (wallet_id wallet) ;;
  ret (mkWalletResponse
         (match wallet_name wallet with Some n => n | None => "" end)
         (accessKey wallet) (mint wallet) (wallet_unit wallet)
         (wb_balance b) (pendingBalance b)
         (if not_null (maxBalance wallet) || not_null (maxSend wallet) || not_null (maxPay wallet)
          then Some (mkWalletLimits (maxBalance wallet) (maxSend wallet) (maxPay wallet))
          else None)).

(** ** publicRoutes.ts: POST /wallet

    Creating a wallet writes the [Wallet] table as well, so this route runs
    over both tables: the wallets with their [SERIAL] counter, and the
    proof store of the monad [M]. *)

Record DB := mkDB {
  db_wallets : list PrismaWallet;
  next_wallet_id : Z;
  db_store : Store
}.

Definition MW (A : Type) := DB -> DB * Res A.

Definition retW {A} (a : A) : MW A := fun d => (d, Ok a).
Definition throwW {A} (e : Exn) : MW A := fun d => (d, Throw e).
Definition bindW {A B} (m : MW A) (k : A -> MW B) : MW B :=
  fun d => match m d with
           | (d', Ok a) => k a d'
           | (d', Throw e) => (d', Throw e)
           end.
Definition try_catchW {A} (m : MW A) (h : Exn -> MW A) : MW A :=
  fun d => match m d with
           | (d', Ok a) => (d', Ok a)
           | (d', Throw e) => h e d'
           end.

(** A walletService call: it runs on the proof table only. *)
Definition on_proofs {A} (m : M A) : MW A :=
  fun d => let (s', r) := m (db_store d) in
           (mkDB (db_wallets d) (next_wallet_id d) s', r).

Definition unique_accessKey_violation : Exn :=
  ExnOther "Unique constraint failed on the fields: (`accessKey`)".

Definition foreign_key_violation : Exn :=
  ExnOther "Foreign key constraint violated on the constraint: `Proof_walletId_fkey`".

Definition record_not_found : Exn :=
  ExnOther "Record to delete does not exist.".

(** [prisma.wallet.create]: [accessKey] is UNIQUE, [id] is SERIAL and the
    limits default to NULL. *)
Definition prisma_wallet_create (key : string) (nm : option string)
    (mintUrl walletUnit : string) : MW PrismaWallet :=
  fun d =>
    if existsb (fun wl => String.eqb (accessKey wl) key) (db_wallets d)
    then (d, Throw unique_accessKey_violation)
    else
      let wallet := mkPrismaWallet (next_wallet_id d) key nm mintUrl walletUnit
                                   None None None in
      (mkDB (db_wallets d ++ [wallet]) (next_wallet_id d + 1) (db_store d), Ok wallet).

(** [prisma.proof.deleteMany({where:{walletId}})] *)
Definition prisma_proof_deleteMany (w : Z) : MW unit :=
  fun d =>
    (mkDB (db_wallets d) (next_wallet_id d)
          (mkStore (filter (fun r => negb (walletId r =? w)%Z) (proof_rows (db_store d)))
                   (next_row_id (db_store d))),
     Ok tt).

(** [prisma.wallet.delete({where:{id}})]: the foreign key of [Proof] is
    ON DELETE RESTRICT. *)
Definition prisma_wallet_delete (w : Z) : MW unit :=
  fun d =>
    if existsb (fun r => walletId r =? w)%Z (proof_rows (db_store d))
    then (d, Throw foreign_key_violation)
    else if negb (existsb (fun wl => wallet_id wl =? w)%Z (db_wallets d))
    then (d, Throw record_not_found)
    else (mkDB (filter (fun wl => negb (wallet_id wl =? w)%Z) (db_wallets d))
               (next_wallet_id d) (db_store d),
          Ok tt).

(** [process.env.X || d] *)
Definition or_default (o : option string) (d : string) : string :=
  match o with Some v => if String.eqb v "" then d else v | None => d end.

Record CreateWalletResponse := mkCreateWalletResponse {
  cw_name : string;
  cw_access_key : string;
  cw_mint : string;
  cw_unit : string;
  cw_balance : Z;
  cw_pending_balance : Z
}.

(** POST /wallet; [newAccessKey] is the [accessKey] the handler draws,
    [crypto.randomBytes(32).toString('hex')]. *)
Definition create_wallet_handler (receive : string -> Res (list Proof))
    (mintUrlEnv unitEnv : option string) (envMaxBalance : option Z)
    (newAccessKey : string) (name token : option string) : MW CreateWalletResponse :=
  let mintUrl := or_default mintUrlEnv "" in
  let walletUnit := or_default unitEnv "sat" in
  bindW (prisma_wallet_create newAccessKey (if truthy name then name else None)
                              mintUrl walletUnit) (fun wallet =>
  bindW (if truthy token then
           try_catchW
             (bindW (on_proofs (receiveToken receive (wallet_id wallet)
                                              (or_default token ""))) (fun newProofs =>
              let amount := getProofsAmount newProofs in
              let maxBalance := envLimit envMaxBalance 100000 in
              if (amount >? maxBalance)%Z then
                bindW (prisma_proof_deleteMany (wallet_id wallet)) (fun _ =>
                bindW (prisma_wallet_delete (wallet_id wallet)) (fun _ =>
                throwW (app_error 400 LIMIT_ERROR
                          ("Token amount " ++ string_of_Z amount
                           ++ " exceeds max balance " ++ string_of_Z maxBalance))))
              else retW amount))
             (fun e =>
                match e with
                | ExnApp _ => throwW e
                | _ =>
                    bindW (prisma_wallet_delete (wallet_id wallet)) (fun _ =>
                    throwW (app_error 400 VALIDATION_ERROR
                              ("Failed to receive initial token: " ++ exn_message e)))
                end)
         else retW 0%Z) (fun balance =>
  retW (mkCreateWalletResponse (or_default (wallet_name wallet) "")
                               (accessKey wallet) (mint wallet) (wallet_unit wallet)
                               balance 0))).

(** ** Notions used by the statements *)

(** The rows that [saveProofs] appends, numbered from [n]. *)
Fixpoint new_rows (n : nat) (w : Z) (ps : list Proof) (st : ProofStatus)
    : list ProofRow :=
  match ps with
  | [] => []
  | p :: ps' => proof_row n w p st :: new_rows (S n) w ps' st
  end.

(** The wallet's UNSPENT proofs, as [loadProofs] returns them. *)
Definition inputs_of (s : Store) (w : Z) : list Proof :=
  map row_to_proof (rows_with w UNSPENT (proof_rows s)).

Definition pending_of (s : Store) (w : Z) : list Proof :=
  map row_to_proof (rows_with w PENDING (proof_rows s)).

Definition count_secret (x : string) (rows : list ProofRow) : nat :=
  length (filter (fun r => String.eqb (row_secret r) x) rows).

(** [SUM(amount) WHERE walletId = w AND status = UNSPENT] *)
Definition balance (s : Store) (w : Z) : Z :=
  fold_right (fun r acc => (row_amount r + acc)%Z) 0%Z
             (rows_with w UNSPENT (proof_rows s)).

Definition sum_amounts (ps : list Proof) : Z :=
  fold_right (fun p acc => (amount p + acc)%Z) 0%Z ps.

Definition secrets_unique (s : Store) : Prop :=
  NoDup (map row_secret (proof_rows s)).

Definition count_state (c : CheckStateEnum) (sts : list ProofState) : nat :=
  length (filter (fun m => CheckStateEnum_eqb (state m) c) sts).

(** The pieces of the reservation (phase A) for a swap result. *)
Section Reservation.
Variables (s : Store) (w : Z) (keep send : list Proof).

Definition res_inputs := map secret (inputs_of s w).
Definition res_returned := (map secret keep ++ map secret send)%list.
Definition res_swapped := filter (fun x => negb (mem x res_returned)) res_inputs.
Definition res_newKeep := filter (fun p => negb (mem (secret p) res_inputs)) keep.
Definition res_newSend := filter (fun p => negb (mem (secret p) res_inputs)) send.
Definition res_existingSend := filter (fun x => mem x res_inputs) (map secret send).

(** The store once phase A has written everything. *)
Definition melt_reserved_store : Store :=
  mkStore ((map (update_row w res_existingSend PENDING)
              (map (update_row w res_swapped SPENT) (proof_rows s)
               ++ new_rows (next_row_id s) w res_newKeep UNSPENT))
           ++ new_rows (next_row_id s + length res_newKeep) w res_newSend PENDING)%list
          (next_row_id s + length res_newKeep + length res_newSend).

(** What the swap consumed: the input proofs it did not return. *)
Definition res_swapped_amount :=
  sum_amounts (filter (fun p => negb (mem (secret p) res_returned)) (inputs_of s w)).

(** Phase A's inserts succeed: the new proofs have distinct secrets that
    the store does not hold yet. *)
Definition reservation_fresh : Prop :=
  NoDup (map secret (res_newKeep ++ res_newSend)%list) /\
  (forall x, In x (map secret (res_newKeep ++ res_newSend)%list) ->
             ~ In x (map row_secret (proof_rows s))).

End Reservation.

(** [SUM(amount) WHERE walletId = w AND status = PENDING] *)
Definition pending_balance (s : Store) (w : Z) : Z :=
  fold_right (fun r acc => (row_amount r + acc)%Z) 0%Z
             (rows_with w PENDING (proof_rows s)).

(** A row's share of the [st] sum of wallet [w]. *)
Definition status_amount (st : ProofStatus) (w : Z) (r : ProofRow) : Z :=
  if (walletId r =? w)%Z && ProofStatus_eqb (status r) st then row_amount r else 0%Z.

(** The keys of a wallet table are pairwise distinct ([accessKey] is UNIQUE). *)
Definition access_keys_unique (wallets : list PrismaWallet) : Prop :=
  NoDup (map accessKey wallets).

(** The store invariants a new wallet relies on: the [SERIAL] counter is
    past every wallet id, hence past every proof's [walletId]. *)
Definition fresh_wallet_id (d : DB) : Prop :=
  (forall wl, In wl (db_wallets d) -> wallet_id wl <> next_wallet_id d) /\
  (forall r, In r (proof_rows (db_store d)) -> walletId r <> next_wallet_id d).

(** Every secret of [xs] has a row of wallet [w]. *)
Definition covers (rows : list ProofRow) (w : Z) (xs : list string) : Prop :=
  forall x, In x xs -> exists r, In r rows /\ walletId r = w /\ row_secret r = x.

(** Every secret of [xs] has a row of wallet [w], and every row of [w]
    with a secret in [xs] has status [st]. *)
Definition all_marked (s : Store) (w : Z) (xs : list string) (st : ProofStatus) : Prop :=
  covers (proof_rows s) w xs /\
  (forall r, In r (proof_rows s) -> walletId r = w -> In (row_secret r) xs -> status r = st).

(** Proofs whose secrets are distinct and not yet in the store. *)
Definition fresh_proofs (s : Store) (ps : list Proof) : Prop :=
  NoDup (map secret ps) /\
  (forall x, In x (map secret ps) -> ~ In x (map row_secret (proof_rows s))).

Definition row_sum (f : ProofRow -> Z) (rows : list ProofRow) : Z :=
  fold_right (fun r acc => (f r + acc)%Z) 0%Z rows.

(** A row's share of [balance]. *)
Definition unspent_amount (w : Z) (r : ProofRow) : Z :=
  if (walletId r =? w)%Z && ProofStatus_eqb (status r) UNSPENT then row_amount r else 0%Z.

(** The local status a mint state asks reconciliation to leave. *)
Definition local_status_for (c : CheckStateEnum) : ProofStatus :=
  match c with
  | CS_SPENT => SPENT
  | CS_UNSPENT => UNSPENT
  | CS_PENDING => PENDING
  end.

(** * Proofs *)

Lemma ProofStatus_eqb_eq a b : ProofStatus_eqb a b = true <-> a = b.
Proof. destruct a, b; simpl; split; congruence. Qed.

Lemma mem_In s xs : mem s xs = true <-> In s xs.
Proof.
  unfold mem; rewrite existsb_exists; split.
  - intros [x [Hx Heq]]; apply String.eqb_eq in Heq; subst; exact Hx.
  - intros H; exists s; split; [exact H | apply String.eqb_refl].
Qed.

Lemma mem_false s xs : mem s xs = false <-> ~ In s xs.
Proof.
  rewrite <- mem_In; destruct (mem s xs); split; congruence || (intros; discriminate || tauto).
Qed.

Lemma update_row_nil w st r : update_row w [] st r = r.
Proof. unfold update_row, mem; simpl; rewrite andb_false_r; reflexivity. Qed.

Lemma update_row_out w xs st r :
  ~ In (row_secret r) xs -> update_row w xs st r = r.
Proof.
  intros H; unfold update_row; apply mem_false in H; rewrite H, andb_false_r; reflexivity.
Qed.

Lemma update_row_in w xs st r :
  walletId r = w -> In (row_secret r) xs -> update_row w xs st r = set_status r st.
Proof.
  intros Hw H; unfold update_row; apply mem_In in H; rewrite H, Hw, Z.eqb_refl; reflexivity.
Qed.

Lemma update_row_secret w xs st r : row_secret (update_row w xs st r) = row_secret r.
Proof. unfold update_row; destruct (_ && _); reflexivity. Qed.

Lemma map_update_nil w st rows : map (update_row w [] st) rows = rows.
Proof.
  induction rows as [|r rows IH]; simpl; [reflexivity|].
  rewrite update_row_nil, IH; reflexivity.
Qed.

Lemma store_eta (s : Store) : s = mkStore (proof_rows s) (next_row_id s).
Proof. destruct s; reflexivity. Qed.

Lemma when_update_run w xs st s :
  when_nonempty xs (updateProofsStatus w xs st) s = updateProofsStatus w xs st s.
Proof.
  destruct xs; [|reflexivity].
  unfold when_nonempty, updateProofsStatus, prisma_proof_updateMany, ret; simpl.
  rewrite map_update_nil, <- store_eta; reflexivity.
Qed.

Lemma when_save_run w ps st s :
  when_nonempty ps (saveProofs w ps st) s = saveProofs w ps st s.
Proof. destruct ps; reflexivity. Qed.

(** [saveProofs] appends the rows of a prefix of its list: all of them when
    it succeeds; when a create fails, the ones before it stay written. *)
Lemma saveProofs_run w ps st s :
  match saveProofs w ps st s with
  | (s', Ok _) =>
      proof_rows s' = (proof_rows s ++ new_rows (next_row_id s) w ps st)%list /\
      next_row_id s' = (next_row_id s + length ps)%nat
  | (s', Throw e) =>
      exists k p, nth_error ps k = Some p /\ e = unique_secret_violation /\
        proof_rows s' = (proof_rows s ++ new_rows (next_row_id s) w (firstn k ps) st)%list /\
        In (secret p) (map row_secret (proof_rows s'))
  end.
Proof.
  revert s; induction ps as [|p ps IH]; intros s.
  - simpl; rewrite app_nil_r, Nat.add_0_r; split; reflexivity.
  - simpl; unfold bind, prisma_proof_create.
    destruct (existsb _ (proof_rows s)) eqn:Hex.
    + exists 0%nat, p; simpl; rewrite app_nil_r; repeat split; try reflexivity.
      apply existsb_exists in Hex; destruct Hex as [r [Hr Heq]].
      apply String.eqb_eq in Heq; rewrite <- Heq; apply in_map; exact Hr.
    + specialize (IH (mkStore (proof_rows s ++ [proof_row (next_row_id s) w p st])
                              (S (next_row_id s)))).
      destruct (saveProofs w ps st _) as [s' [u|e]]; simpl in IH.
      * destruct IH as [H1 H2]; rewrite H1, H2, <- app_assoc; simpl.
        split; [reflexivity | lia].
      * destruct IH as [k [q [Hk [He [Hrows Hin]]]]].
        exists (S k), q; simpl; repeat split; try assumption.
        rewrite Hrows, <- app_assoc; reflexivity.
Qed.

Lemma new_rows_secrets n w ps st : map row_secret (new_rows n w ps st) = map secret ps.
Proof. revert n; induction ps; intros n; simpl; [|rewrite IHps]; reflexivity. Qed.

Lemma In_new_rows n w ps st p :
  In p ps -> exists k, In (proof_row k w p st) (new_rows n w ps st).
Proof.
  revert n; induction ps as [|q ps IH]; intros n Hp; [destruct Hp|].
  destruct Hp as [<-|Hp].
  - exists n; left; reflexivity.
  - destruct (IH (S n) Hp) as [k Hk]; exists k; right; exact Hk.
Qed.

(** ** Concrete data *)

Definition proof_a : Proof := mkProof "009a1f293253e41e" 8 "secret-a" "02aa" None None.
Definition proof_b : Proof := mkProof "009a1f293253e41e" 2 "secret-b" "02bb" None None.

(** A store already holding a (spent) row for [proof_b]. *)
Definition store_b : Store := mkStore [proof_row 0 1 proof_b SPENT] 1.

(** Scenario "Send-happy": one UNSPENT proof s1 of 200; the swap for 100
    returns a new keep proof k1 and a new send proof send1. *)
Definition proof_s1 : Proof := mkProof "009a1f293253e41e" 200 "s1" "02c1" None None.
Definition proof_k1 : Proof := mkProof "009a1f293253e41e" 100 "k1" "02d1" None None.
Definition proof_send1 : Proof := mkProof "009a1f293253e41e" 100 "send1" "02e1" None None.

Definition store_s1 : Store := mkStore [proof_row 0 1 proof_s1 UNSPENT] 1.

Definition mint_unreachable : Exn := ExnOther "fetch failed".

Definition mint_send_happy : MintWallet :=
  mkMintWallet (fun _ _ _ _ => Ok ([proof_k1], [proof_send1]))
               (fun _ _ => Throw mint_unreachable)
               (fun _ => Throw mint_unreachable)
               (fun _ => Throw mint_unreachable)
               (fun _ => Throw mint_unreachable)
               (fun _ _ => Throw mint_unreachable).

Definition store_send_happy : Store :=
  mkStore [set_status (proof_row 0 1 proof_s1 UNSPENT) SPENT;
           proof_row 1 1 proof_k1 UNSPENT;
           proof_row 2 1 proof_send1 PENDING] 3.

(** Scenario "Reconcile mixed": PENDING proofs s1, s2, s3; the mint answers
    SPENT, UNSPENT, PENDING. *)
Definition proof_p1 : Proof := mkProof "009a1f293253e41e" 1 "s1" "02f1" None None.
Definition proof_p2 : Proof := mkProof "009a1f293253e41e" 2 "s2" "02f2" None None.
Definition proof_p3 : Proof := mkProof "009a1f293253e41e" 4 "s3" "02f3" None None.

Definition store_reconcile : Store :=
  mkStore [proof_row 0 1 proof_p1 PENDING; proof_row 1 1 proof_p2 PENDING;
           proof_row 2 1 proof_p3 PENDING] 3.

Definition mixed_states : list ProofState :=
  [mkProofState "Y1" CS_SPENT None; mkProofState "Y2" CS_UNSPENT None;
   mkProofState "Y3" CS_PENDING None].

Definition mint_reconcile : MintWallet :=
  mkMintWallet (fun _ _ _ _ => Throw mint_unreachable)
               (fun _ _ => Throw mint_unreachable)
               (fun _ => Throw mint_unreachable)
               (fun _ => Ok mixed_states)
               (fun _ => Throw mint_unreachable)
               (fun _ _ => Throw mint_unreachable).

(** Scenario "Melt": the wallet holds [s1] (200 sat); the melt quote needs
    90 + 10; the swap returns [k1] to keep and [send1] to send. *)
Definition mq_melt : MeltQuote := mkMeltQuote "quote-melt-1" 90 10 MQ_UNPAID.

Definition melt_checked (st : MeltQuoteState) : MeltQuote :=
  mkMeltQuote "quote-melt-1" 90 10 st.

Definition proof_change1 : Proof := mkProof "009a1f293253e41e" 2 "change1" "02c9" None None.

Definition mint_melt (melt : Res MeltResponse) (check : Res MeltQuote) : MintWallet :=
  mkMintWallet (fun _ _ _ _ => Ok ([proof_k1], [proof_send1]))
               (fun _ _ => melt)
               (fun _ => check)
               (fun ps => Ok (map (fun _ => mkProofState "Y" CS_PENDING None) ps))
               (fun _ => Throw mint_unreachable)
               (fun _ _ => Throw mint_unreachable).

(** Scenario "Deposit": the mint reports the quote PAID; minting answers
    [mintRes]. *)
Definition quote_dep_paid : MintQuote :=
  mkMintQuote "quote-dep-1" "lnbc1000n1deposit" MINT_PAID 1700000000 100.

Definition mint_deposit (mintRes : Res (list Proof)) : MintWallet :=
  mkMintWallet (fun _ _ _ _ => Throw mint_unreachable)
               (fun _ _ => Throw mint_unreachable)
               (fun _ => Throw mint_unreachable)
               (fun _ => Throw mint_unreachable)
               (fun _ => Ok quote_dep_paid)
               (fun _ _ => mintRes).

(** Two rows of the [Wallet] table. *)
Definition wallet_a : PrismaWallet :=
  mkPrismaWallet 2 "key-a" (Some "alice") "https://mint.example" "sat" None None None.
Definition wallet_b : PrismaWallet :=
  mkPrismaWallet 1 "key-b" None "https://mint.example" "sat" (Some 1000%Z) (Some 50%Z) (Some 50%Z).

(** Tokens as [getDecodedToken] returns them. *)
Definition token_of (ps : list Proof) : Token :=
  mkToken "https://mint.example" ps (Some "sat") None.

Definition proof_big : Proof := mkProof "009a1f293253e41e" 900 "big1" "02b9" None None.

(** A CoinGecko answer for usd and eur. *)
Definition coingecko_ok : HttpOutcome :=
  HttpResponse 200 (Some [("usd", 50000 # 1); ("eur", 45000 # 1)]).

(** Both tables: wallets 2 and 1, the proof store [store_s1], next id 3. *)
Definition db_ab : DB := mkDB [wallet_a; wallet_b] 3 store_s1.

(** ** C6: saveProofs is a sequence of separate creates *)

(** C6 (counterexample): inserting [proof_a; proof_b] into [store_b] fails on
    the duplicate secret of [proof_b] after [proof_a] has been written, so the
    store is not left unchanged. *)
Lemma saveProofs_not_atomic :
  ~ (forall w ps st s s' e,
       saveProofs w ps st s = (s', Throw e) -> s' = s).
Proof.
  intros H.
  assert (E : saveProofs 1 [proof_a; proof_b] UNSPENT store_b
              = (mkStore [proof_row 0 1 proof_b SPENT; proof_row 1 1 proof_a UNSPENT] 2,
                 Throw unique_secret_violation)) by (vm_compute; reflexivity).
  apply H in E; discriminate E.
Qed.

(** C6 (amended): [saveProofs] writes one row per [create], in list order,
    with no transaction.  When it fails, the failing proof's secret was
    already stored (in the store or earlier in the list), and exactly the
    proofs before it stay persisted as new rows. *)
Theorem saveProofs_prefix_persisted w ps st s s' e :
  saveProofs w ps st s = (s', Throw e) ->
  exists k p, nth_error ps k = Some p /\ e = unique_secret_violation /\
    In (secret p) (map row_secret (proof_rows s) ++ map secret (firstn k ps))%list /\
    proof_rows s' = (proof_rows s ++ new_rows (next_row_id s) w (firstn k ps) st)%list.
Proof.
  intros E; pose proof (saveProofs_run w ps st s) as R; rewrite E in R.
  destruct R as [k [p [Hk [He [Hrows Hin]]]]].
  exists k, p; repeat split; try assumption.
  rewrite Hrows, map_app, new_rows_secrets in Hin; exact Hin.
Qed.

Lemma saveProofs_prefix_persisted_witness :
  exists k p, nth_error [proof_a; proof_b] k = Some p /\ unique_secret_violation = unique_secret_violation /\
    In (secret p) (map row_secret (proof_rows store_b)
                   ++ map secret (firstn k [proof_a; proof_b]))%list /\
    proof_rows (mkStore [proof_row 0 1 proof_b SPENT; proof_row 1 1 proof_a UNSPENT] 2)
    = (proof_rows store_b ++ new_rows (next_row_id store_b) 1
                               (firstn k [proof_a; proof_b]) UNSPENT)%list.
Proof.
  apply (saveProofs_prefix_persisted 1 [proof_a; proof_b] UNSPENT store_b
           (mkStore [proof_row 0 1 proof_b SPENT; proof_row 1 1 proof_a UNSPENT] 2)
           unique_secret_violation).
  vm_compute; reflexivity.
Defined.

(** ** C10: the overall state label of POST /wallet/check *)

Lemma forallb_state_Forall c ps :
  forallb (fun s => CheckStateEnum_eqb s c) (map state ps) = true <->
  Forall (fun m => state m = c) ps.
Proof.
  rewrite forallb_forall, Forall_forall; split.
  - intros H m Hm; specialize (H (state m) (in_map _ _ _ Hm)).
    destruct (state m), c; simpl in H; congruence.
  - intros H x Hx; apply in_map_iff in Hx; destruct Hx as [m [<- Hm]].
    rewrite (H m Hm); destruct c; reflexivity.
Qed.

(** C10: the label is never "UNKNOWN"; with no proof states it is "UNSPENT";
    otherwise it is "UNSPENT", "SPENT" or "PENDING" exactly when every state
    is that value, and "MIXED" in every other case. *)
Theorem overall_state_label ps :
  overall_state ps <> "UNKNOWN" /\
  (ps = [] -> overall_state ps = "UNSPENT") /\
  (ps <> [] ->
   (overall_state ps = "UNSPENT" <-> Forall (fun m => state m = CS_UNSPENT) ps) /\
   (overall_state ps = "SPENT" <-> Forall (fun m => state m = CS_SPENT) ps) /\
   (overall_state ps = "PENDING" <-> Forall (fun m => state m = CS_PENDING) ps) /\
   (overall_state ps = "MIXED" <->
      ~ Forall (fun m => state m = CS_UNSPENT) ps /\
      ~ Forall (fun m => state m = CS_SPENT) ps /\
      ~ Forall (fun m => state m = CS_PENDING) ps)).
Proof.
  unfold overall_state.
  rewrite <- !forallb_state_Forall.
  split; [|split].
  - repeat match goal with |- context [if ?b then _ else _] => destruct b end;
      discriminate.
  - intros ->; reflexivity.
  - intros Hne.
    assert (Hex : exists m ps', ps = m :: ps') by
      (destruct ps as [|m ps']; [congruence | eauto]).
    destruct Hex as [m [ps' ->]]; simpl.
    destruct (state m); simpl;
      repeat match goal with |- context [if ?b then _ else _] => destruct b end;
      simpl; intuition congruence.
Qed.

(** ** C9: normalizePubkey *)

(** C9: the input forms are tried in order: an "npub" prefix first (decoded
    with [decode]), then length 64, then length 66; every other input fails
    with a validation-kind error (HTTP 400).  When an npub decodes to 64 hex
    characters (32 bytes), every successful result has 66 characters. *)
Theorem normalizePubkey_cases decode pubkey :
  (String.prefix "npub" pubkey = true ->
   forall d, decode pubkey = Decoded "npub" d ->
   normalizePubkey decode pubkey = Ok ("02" ++ d)) /\
  (String.prefix "npub" pubkey = true ->
   (forall d, decode pubkey <> Decoded "npub" d) ->
   exists msg, normalizePubkey decode pubkey = Throw (app_error 400 VALIDATION_ERROR msg)) /\
  (String.prefix "npub" pubkey = false -> String.length pubkey = 64%nat ->
   normalizePubkey decode pubkey = Ok ("02" ++ pubkey)) /\
  (String.prefix "npub" pubkey = false -> String.length pubkey = 66%nat ->
   normalizePubkey decode pubkey = Ok pubkey) /\
  (String.prefix "npub" pubkey = false ->
   String.length pubkey <> 64%nat -> String.length pubkey <> 66%nat ->
   exists msg, normalizePubkey decode pubkey = Throw (app_error 400 VALIDATION_ERROR msg)) /\
  (forall out, normalizePubkey decode pubkey = Ok out ->
   (forall d, decode pubkey = Decoded "npub" d -> String.length d = 64%nat) ->
   String.length out = 66%nat).
Proof.
  unfold normalizePubkey.
  destruct (String.prefix "npub" pubkey) eqn:Hp.
  - repeat split; try discriminate.
    + intros _ d ->; reflexivity.
    + intros _ Hd; destruct (decode pubkey) as [ty d|m] eqn:Hdec.
      * destruct (String.eqb ty "npub") eqn:Ht.
        -- apply String.eqb_eq in Ht; subst; exfalso; exact (Hd d eq_refl).
        -- eexists; reflexivity.
      * eexists; reflexivity.
    + intros out; destruct (decode pubkey) as [ty d|m]; [|discriminate].
      destruct (String.eqb ty "npub") eqn:Ht; [|discriminate].
      apply String.eqb_eq in Ht; subst.
      intros H Hlen; injection H as <-.
      simpl; rewrite (Hlen d eq_refl); reflexivity.
  - repeat split; try discriminate.
    + intros _ H; rewrite H; reflexivity.
    + intros _ H; rewrite H; reflexivity.
    + intros _ H64 H66.
      rewrite (proj2 (Nat.eqb_neq _ _) H64), (proj2 (Nat.eqb_neq _ _) H66).
      eexists; reflexivity.
    + intros out; destruct (Nat.eqb (String.length pubkey) 64) eqn:H64.
      * apply Nat.eqb_eq in H64; intros H _; injection H as <-.
        simpl; rewrite H64; reflexivity.
      * destruct (Nat.eqb (String.length pubkey) 66) eqn:H66; [|discriminate].
        apply Nat.eqb_eq in H66; intros H _; injection H as <-; exact H66.
Qed.

(** ** C7: GET /rate/:currency when the upstream request fails *)

Lemma fetch_fails_on upstream :
  (upstream = TimerFired \/
   exists st b, upstream = HttpResponse st b /\ (st < 200 \/ 300 <= st)%Z) ->
  exists e, fetchRatesFromCoinGecko upstream = Throw e.
Proof.
  intros [->|[st [b [-> Hst]]]]; simpl; [eexists; reflexivity|].
  replace ((200 <=? st)%Z && (st <? 300)%Z) with false; [eexists; reflexivity|].
  symmetry; apply andb_false_iff; destruct Hst; [left|right]; lia.
Qed.

Lemma getExchangeRate_fetch_error currency now upstream cache e :
  isSupportedCurrency currency = true ->
  fetchRatesFromCoinGecko upstream = Throw e ->
  getExchangeRate currency now upstream cache =
  match assoc_lookup (toLowerCase currency) cache with
  | Some c => (cache, Ok c)
  | None => (cache, Throw (ExnOther ("Failed to fetch exchange rate ("
                 ++ (if String.eqb (exn_message e) "Timeout" then "Timeout" else "API error")
                 ++ "): " ++ exn_message e)))
  end.
Proof.
  intros Hsup Hf; unfold getExchangeRate, isSupportedCurrency in *; cbv zeta.
  rewrite Hsup, Hf; simpl.
  destruct (assoc_lookup (toLowerCase currency) cache) as [c|]; [|reflexivity].
  destruct (_ <? _)%Z; reflexivity.
Qed.

Definition usd_cached : RateResponse := mkRateResponse "USD" (1000 # 1) 0.

(** C7 (counterexample): with an empty cache and a timed-out upstream
    request, GET /rate/usd fails with a not-found-kind error (HTTP 404),
    not a connection-kind one. *)
Lemma rate_no_cache_not_connection :
  rate_handler "usd" 0 TimerFired [] =
    ([], Throw (app_error 404 NOTFOUND_ERROR
                  "Failed to fetch exchange rate (Timeout): Timeout")) /\
  ~ (exists code msg, snd (rate_handler "usd" 0 TimerFired []) =
                      Throw (app_error code CONNECTION_ERROR msg)).
Proof.
  split; [vm_compute; reflexivity|].
  intros [code [msg H]]; vm_compute in H; discriminate H.
Qed.

(** C7 (amended): for a supported currency whose upstream request times out
    or answers with a non-2xx status, a cached entry (fresh or stale) is
    returned unchanged and the cache is left as it was; with no cached entry
    the handler fails with a not-found-kind error, HTTP 404. *)
Theorem rate_handler_upstream_failure currency now upstream cache
    (Hsup : isSupportedCurrency currency = true)
    (Hfail : upstream = TimerFired \/
             exists st b, upstream = HttpResponse st b /\ (st < 200 \/ 300 <= st)%Z) :
  (forall r, assoc_lookup (toLowerCase currency) cache = Some r ->
             rate_handler currency now upstream cache = (cache, Ok r)) /\
  (assoc_lookup (toLowerCase currency) cache = None ->
   exists msg, rate_handler currency now upstream cache =
               (cache, Throw (app_error 404 NOTFOUND_ERROR msg))).
Proof.
  destruct (fetch_fails_on upstream Hfail) as [e He].
  unfold rate_handler; rewrite Hsup; simpl.
  rewrite (getExchangeRate_fetch_error currency now upstream cache e Hsup He).
  split.
  - intros r ->; reflexivity.
  - intros ->; eexists; reflexivity.
Qed.

Lemma rate_handler_upstream_failure_witness :
  (forall r, assoc_lookup (toLowerCase "USD") [("usd", usd_cached)] = Some r ->
             rate_handler "USD" 500000 TimerFired [("usd", usd_cached)]
             = ([("usd", usd_cached)], Ok r)) /\
  (assoc_lookup (toLowerCase "USD") [("usd", usd_cached)] = None ->
   exists msg, rate_handler "USD" 500000 TimerFired [("usd", usd_cached)] =
               ([("usd", usd_cached)], Throw (app_error 404 NOTFOUND_ERROR msg))).
Proof.
  apply (rate_handler_upstream_failure "USD" 500000 TimerFired [("usd", usd_cached)]).
  - vm_compute; reflexivity.
  - left; reflexivity.
Defined.

(** ** C1: sendProofs *)

Lemma input_secret_In s w r :
  In r (proof_rows s) -> walletId r = w -> status r = UNSPENT ->
  In (row_secret r) (map secret (inputs_of s w)).
Proof.
  intros Hr Hw Hs; unfold inputs_of; rewrite map_map.
  apply (in_map (fun r => secret (row_to_proof r))).
  unfold rows_with; apply filter_In; split; [exact Hr|].
  rewrite Hw, Hs, Z.eqb_refl; reflexivity.
Qed.

Lemma update_rows_run w xs st s :
  updateProofsStatus w xs st s =
  (mkStore (map (update_row w xs st) (proof_rows s)) (next_row_id s), Ok tt).
Proof. reflexivity. Qed.

(** The store after a successful [sendProofs]: the two status updates
    around the appended rows of the new keep and send proofs. *)
Lemma sendProofs_run wallet w amt pk s s' r :
  sendProofs wallet w amt pk s = (s', Ok r) ->
  exists cfg keep send,
    wallet_send wallet amt (inputs_of s w) true cfg = Ok (keep, send) /\
    r = (keep, send) /\
    let S_in := map secret (inputs_of s w) in
    let returned := (map secret keep ++ map secret send)%list in
    let swapped := filter (fun x => negb (mem x returned)) S_in in
    let newKeep := filter (fun p => negb (mem (secret p) S_in)) keep in
    let newSend := filter (fun p => negb (mem (secret p) S_in)) send in
    let inputSend := filter (fun x => mem x S_in) (map secret send) in
    exists n1 n2,
      proof_rows s' =
      map (update_row w inputSend PENDING)
          (map (update_row w swapped SPENT) (proof_rows s)
           ++ new_rows n1 w newKeep UNSPENT ++ new_rows n2 w newSend PENDING)%list.
Proof.
  intros H; unfold sendProofs, bind, loadProofs, lift, ret, throw in H; cbv zeta in H.
  fold (inputs_of s w) in H.
  destruct (getProofsAmount (inputs_of s w) <? amt)%Z; [discriminate|].
  set (cfg := match pk with
              | Some pk => if String.eqb pk "" then None else Some (P2PKSend pk)
              | None => None
              end) in H.
  destruct (wallet_send wallet amt (inputs_of s w) true cfg) as [[keep send]|e] eqn:Hsend;
    [|discriminate].
  exists cfg, keep, send.
  rewrite when_update_run, update_rows_run, when_save_run in H.
  match type of H with context [saveProofs w ?l UNSPENT ?s1] =>
    pose proof (saveProofs_run w l UNSPENT s1) as R1;
    destruct (saveProofs w l UNSPENT s1) as [s2 [u|e]]; [|discriminate] end.
  rewrite when_save_run in H.
  match type of H with context [saveProofs w ?l PENDING s2] =>
    pose proof (saveProofs_run w l PENDING s2) as R2;
    destruct (saveProofs w l PENDING s2) as [s3 [u'|e]]; [|discriminate] end.
  rewrite when_update_run, update_rows_run in H.
  injection H as <- <-.
  split; [exact Hsend | split; [reflexivity|]].
  destruct R1 as [R1 _]; destruct R2 as [R2 _].
  do 2 eexists; simpl; rewrite R2, R1, <- app_assoc; reflexivity.
Qed.

Lemma In_new_rows_secret n w ps st r :
  In r (new_rows n w ps st) -> In (row_secret r) (map secret ps).
Proof. intros H; rewrite <- (new_rows_secrets n w ps st); apply in_map; exact H. Qed.

Lemma count_secret_update w xs st x rows :
  count_secret x (map (update_row w xs st) rows) = count_secret x rows.
Proof.
  unfold count_secret; induction rows as [|r rows IH]; simpl; [reflexivity|].
  rewrite update_row_secret; destruct (String.eqb (row_secret r) x); simpl; congruence.
Qed.

Lemma count_secret_app x l1 l2 :
  count_secret x (l1 ++ l2)%list = (count_secret x l1 + count_secret x l2)%nat.
Proof. unfold count_secret; rewrite filter_app, length_app; reflexivity. Qed.

Lemma count_secret_absent x rows :
  ~ In x (map row_secret rows) -> count_secret x rows = 0%nat.
Proof.
  unfold count_secret; induction rows as [|r rows IH]; simpl; [reflexivity|].
  intros Hn; destruct (String.eqb (row_secret r) x) eqn:E.
  - apply String.eqb_eq in E; tauto.
  - apply IH; tauto.
Qed.

Lemma In_filter_new_secret x S ps :
  In x (map secret (filter (fun p => negb (mem (secret p) S)) ps)) -> ~ In x S.
Proof.
  intros H; apply in_map_iff in H; destruct H as [p [<- Hp]].
  apply filter_In in Hp; destruct Hp as [_ Hp].
  apply negb_true_iff, mem_false in Hp; exact Hp.
Qed.

(** C1: after a successful [sendProofs], every input row (UNSPENT row of the
    wallet) whose secret the swap did not return is SPENT; every keep proof
    with a new secret has an UNSPENT row and every send proof with a new
    secret a PENDING row; every input row whose secret is in [send] is now
    PENDING; the result is the swap's [{keep, send}]; and no input secret
    gains a row (no re-insertion). *)
Theorem sendProofs_persistence wallet w amt pk s s' keep send :
  sendProofs wallet w amt pk s = (s', Ok (keep, send)) ->
  let S_in := map secret (inputs_of s w) in
  let returned := (map secret keep ++ map secret send)%list in
  (exists cfg, wallet_send wallet amt (inputs_of s w) true cfg = Ok (keep, send)) /\
  (forall r, In r (proof_rows s) -> walletId r = w -> status r = UNSPENT ->
     ~ In (row_secret r) returned -> In (set_status r SPENT) (proof_rows s')) /\
  (forall p, In p keep -> ~ In (secret p) S_in ->
     exists n, In (proof_row n w p UNSPENT) (proof_rows s')) /\
  (forall p, In p send -> ~ In (secret p) S_in ->
     exists n, In (proof_row n w p PENDING) (proof_rows s')) /\
  (forall r, In r (proof_rows s) -> walletId r = w -> status r = UNSPENT ->
     In (row_secret r) (map secret send) -> In (set_status r PENDING) (proof_rows s')) /\
  (forall x, In x S_in -> count_secret x (proof_rows s') = count_secret x (proof_rows s)).
Proof.
  intros H; apply sendProofs_run in H.
  destruct H as [cfg [k [sd [Hsend [Hr Hrows]]]]].
  injection Hr as <- <-; cbv zeta in Hrows; destruct Hrows as [n1 [n2 Hrows]].
  cbv zeta; rewrite Hrows.
  set (S_in := map secret (inputs_of s w)) in *.
  set (returned := (map secret keep ++ map secret send)%list) in *.
  assert (Hsend_sub : forall x,
            In x (filter (fun x => mem x S_in) (map secret send)) -> In x S_in).
  { intros x Hx; apply filter_In in Hx; apply mem_In; tauto. }
  split; [exists cfg; exact Hsend|].
  split; [|split; [|split; [|split]]].
  - intros r Hr Hw Hst Hnot.
    pose proof (input_secret_In s w r Hr Hw Hst) as Hin.
    apply in_map_iff; exists (set_status r SPENT); split.
    + apply update_row_out; simpl; intros Hx.
      apply filter_In in Hx; destruct Hx as [Hx _].
      apply Hnot; unfold returned; apply in_or_app; right; exact Hx.
    + apply in_or_app; left; apply in_map_iff; exists r; split; [|exact Hr].
      apply update_row_in; [exact Hw|].
      apply filter_In; split; [exact Hin|].
      apply negb_true_iff, mem_false; exact Hnot.
  - intros p Hp Hnew.
    assert (Hf : In p (filter (fun p => negb (mem (secret p) S_in)) keep)).
    { apply filter_In; split; [exact Hp|]; apply negb_true_iff, mem_false; exact Hnew. }
    destruct (In_new_rows n1 w _ UNSPENT p Hf) as [n Hn].
    exists n; apply in_map_iff; exists (proof_row n w p UNSPENT); split.
    + apply update_row_out; simpl; intros Hx; apply Hnew, Hsend_sub, Hx.
    + apply in_or_app; right; apply in_or_app; left; exact Hn.
  - intros p Hp Hnew.
    assert (Hf : In p (filter (fun p => negb (mem (secret p) S_in)) send)).
    { apply filter_In; split; [exact Hp|]; apply negb_true_iff, mem_false; exact Hnew. }
    destruct (In_new_rows n2 w _ PENDING p Hf) as [n Hn].
    exists n; apply in_map_iff; exists (proof_row n w p PENDING); split.
    + apply update_row_out; simpl; intros Hx; apply Hnew, Hsend_sub, Hx.
    + apply in_or_app; right; apply in_or_app; right; exact Hn.
  - intros r Hr Hw Hst Hsd.
    pose proof (input_secret_In s w r Hr Hw Hst) as Hin.
    apply in_map_iff; exists r; split.
    + apply update_row_in; [exact Hw|].
      apply filter_In; split; [exact Hsd | apply mem_In; exact Hin].
    + apply in_or_app; left; apply in_map_iff; exists r; split; [|exact Hr].
      apply update_row_out; intros Hx; apply filter_In in Hx; destruct Hx as [_ Hx].
      apply negb_true_iff, mem_false in Hx; apply Hx.
      unfold returned; apply in_or_app; right; exact Hsd.
  - intros x Hx.
    rewrite count_secret_update, !count_secret_app, count_secret_update.
    rewrite (count_secret_absent x (new_rows n1 w _ UNSPENT)),
            (count_secret_absent x (new_rows n2 w _ PENDING)); [lia| |];
      rewrite new_rows_secrets; intros Hy; exact (In_filter_new_secret x S_in _ Hy Hx).
Qed.

Example sendProofs_send_happy :
  sendProofs mint_send_happy 1 100 None store_s1
  = (store_send_happy, Ok ([proof_k1], [proof_send1])).
Proof. vm_compute; reflexivity. Qed.

Lemma sendProofs_persistence_witness :
  sendProofs mint_send_happy 1 100 None store_s1
    = (store_send_happy, Ok ([proof_k1], [proof_send1])) /\
  exists n, In (proof_row n 1 proof_k1 UNSPENT) (proof_rows store_send_happy).
Proof.
  assert (E : sendProofs mint_send_happy 1 100 None store_s1
              = (store_send_happy, Ok ([proof_k1], [proof_send1])))
    by (vm_compute; reflexivity).
  split; [exact E|].
  pose proof (sendProofs_persistence mint_send_happy 1 100 None store_s1
                store_send_happy [proof_k1] [proof_send1] E) as T.
  cbv zeta in T; destruct T as [_ [_ [T _]]].
  apply T; [left; reflexivity | vm_compute; intros [H|H]; [discriminate H | exact H]].
Defined.

(** ** C5: syncProofsStateWithMint *)

Lemma classify_subset ps sts x :
  (In x (fst (classify_states ps sts)) -> In x (map secret ps)) /\
  (In x (snd (classify_states ps sts)) -> In x (map secret ps)).
Proof.
  revert sts; induction ps as [|p ps IH]; intros sts; simpl; [tauto|].
  specialize (IH (tl sts)).
  destruct (classify_states ps (tl sts)) as [sp un]; simpl in *.
  destruct sts as [|m sts']; simpl in *; [tauto|].
  destruct (state m); simpl; intuition.
Qed.

Lemma classify_In ps sts i p m :
  NoDup (map secret ps) -> nth_error ps i = Some p -> nth_error sts i = Some m ->
  (In (secret p) (fst (classify_states ps sts)) <-> state m = CS_SPENT) /\
  (In (secret p) (snd (classify_states ps sts)) <-> state m = CS_UNSPENT).
Proof.
  revert sts i; induction ps as [|q ps IH]; intros sts i Hnd Hp Hm;
    [destruct i; discriminate|].
  simpl in Hnd; inversion Hnd as [|? ? Hq Hnd']; subst.
  pose proof (fun x => classify_subset ps (tl sts) x) as Hsub.
  simpl; destruct (classify_states ps (tl sts)) as [sp un] eqn:Ec; simpl in Hsub.
  destruct sts as [|m0 sts']; [destruct i; discriminate|].
  destruct i as [|i]; simpl in Hp, Hm.
  - injection Hp as <-; injection Hm as <-.
    destruct (state m0); simpl; split; split; intros H; try reflexivity; try discriminate;
      try (left; reflexivity);
      try (destruct H as [H|H]; [|]); try (exfalso; apply Hq; apply Hsub in H; tauto);
      try (exfalso; apply Hq; apply (proj1 (Hsub _)); assumption);
      try (exfalso; apply Hq; apply (proj2 (Hsub _)); assumption).
  - assert (Hne : secret p <> secret q).
    { intros He; apply Hq; rewrite <- He; apply in_map; eapply nth_error_In; exact Hp. }
    specialize (IH sts' i Hnd' Hp Hm); simpl in Ec; rewrite Ec in IH; simpl in IH.
    destruct (state m0); simpl; split; split; intros H;
      try (destruct H as [H|H]; [congruence|]); try (apply IH; assumption);
      try (right; apply IH; assumption); apply IH; assumption.
Qed.

Lemma classify_counts ps sts :
  length sts = length ps ->
  length (fst (classify_states ps sts)) = count_state CS_SPENT sts /\
  length (snd (classify_states ps sts)) = count_state CS_UNSPENT sts.
Proof.
  revert sts; induction ps as [|p ps IH]; intros sts Hl.
  - destruct sts; [split; reflexivity | discriminate].
  - destruct sts as [|m sts']; [discriminate|]; simpl in Hl; injection Hl as Hl.
    specialize (IH sts' Hl); simpl.
    destruct (classify_states ps sts') as [sp un]; simpl in *.
    unfold count_state in *; simpl.
    destruct (state m); simpl; destruct IH as [H1 H2]; split; congruence.
Qed.

Lemma count_state_total sts :
  (count_state CS_SPENT sts + count_state CS_PENDING sts + count_state CS_UNSPENT sts)%nat
  = length sts.
Proof.
  unfold count_state; induction sts as [|m sts IH]; simpl; [reflexivity|].
  destruct (state m); simpl; lia.
Qed.

Lemma nodup_secret_same rows r r' :
  NoDup (map row_secret rows) -> In r rows -> In r' rows ->
  row_secret r = row_secret r' -> r = r'.
Proof.
  induction rows as [|x rows IH]; intros Hnd Hr Hr' He; [destruct Hr|].
  simpl in Hnd; inversion Hnd as [|? ? Hx Hnd']; subst.
  destruct Hr as [<-|Hr], Hr' as [<-|Hr']; try reflexivity.
  - exfalso; apply Hx; rewrite He; apply in_map; exact Hr'.
  - exfalso; apply Hx; rewrite <- He; apply in_map; exact Hr.
  - apply IH; assumption.
Qed.

Lemma NoDup_filter_map {A B} (f : A -> B) (g : A -> bool) l :
  NoDup (map f l) -> NoDup (map f (filter g l)).
Proof.
  induction l as [|a l IH]; simpl; intros H; [constructor|].
  inversion H as [|? ? Ha Hl]; subst.
  destruct (g a); simpl; [constructor|]; auto.
  intros Hin; apply Ha; apply in_map_iff in Hin; destruct Hin as [x [Hx Hin]].
  rewrite <- Hx; apply in_map; apply filter_In in Hin; tauto.
Qed.

Lemma pending_of_In s w p :
  In p (pending_of s w) ->
  exists r, In r (proof_rows s) /\ walletId r = w /\ status r = PENDING /\ p = row_to_proof r.
Proof.
  unfold pending_of, rows_with; intros H; apply in_map_iff in H.
  destruct H as [r [<- H]]; apply filter_In in H; destruct H as [Hr Hc].
  apply andb_true_iff in Hc; destruct Hc as [Hw Hs].
  apply Z.eqb_eq in Hw; apply ProofStatus_eqb_eq in Hs; eauto.
Qed.

Lemma pending_of_nodup s w :
  secrets_unique s -> NoDup (map secret (pending_of s w)).
Proof.
  unfold secrets_unique, pending_of; intros H; rewrite map_map; simpl.
  apply NoDup_filter_map; exact H.
Qed.

Lemma sync_run wallet w s sts :
  checkProofsStates wallet (pending_of s w) = Ok sts ->
  syncProofsStateWithMint wallet w s =
  if Nat.eqb (length (pending_of s w)) 0 then (s, Ok (mkSyncCounts 0 0 0)) else
  let cl := classify_states (pending_of s w) sts in
  (mkStore (map (update_row w (snd cl) UNSPENT)
                (map (update_row w (fst cl) SPENT) (proof_rows s))) (next_row_id s),
   Ok (mkSyncCounts (length (fst cl))
         (length (pending_of s w) - length (fst cl) - length (snd cl))
         (length (snd cl)))).
Proof.
  intros Hst; unfold syncProofsStateWithMint, bind, loadProofs, lift; simpl.
  fold (pending_of s w).
  destruct (Nat.eqb (length (pending_of s w)) 0); [reflexivity|].
  rewrite Hst; cbv zeta.
  destruct (classify_states (pending_of s w) sts) as [sp un]; simpl.
  rewrite when_update_run; simpl; rewrite when_update_run; reflexivity.
Qed.

Lemma set_status_same r st : status r = st -> set_status r st = r.
Proof. destruct r; simpl; intros ->; reflexivity. Qed.

Lemma in_map_update2 w l1 s1 l2 s2 rows r r' :
  In r rows -> update_row w l2 s2 (update_row w l1 s1 r) = r' ->
  In r' (map (update_row w l2 s2) (map (update_row w l1 s1) rows)).
Proof. intros Hr <-; apply in_map, in_map, Hr. Qed.

(** C5: reconciliation sends the mint exactly the wallet's PENDING proofs
    (the result depends on the mint only through its answer there); for the
    i-th of them a SPENT answer makes its row SPENT, an UNSPENT answer makes
    it UNSPENT and a PENDING answer leaves it as it was; no other row
    changes; the counts are the numbers of SPENT, PENDING and UNSPENT answers
    and sum to the number of PENDING proofs.  With no PENDING proof it
    returns zero counts whatever the mint does. *)
Theorem syncProofsStateWithMint_reconcile wallet w s (Huniq : secrets_unique s) :
  (pending_of s w = [] ->
   forall wallet', syncProofsStateWithMint wallet' w s = (s, Ok (mkSyncCounts 0 0 0))) /\
  (forall sts, checkProofsStates wallet (pending_of s w) = Ok sts ->
   length sts = length (pending_of s w) ->
   exists s' c,
     syncProofsStateWithMint wallet w s = (s', Ok c) /\
     (forall wallet', checkProofsStates wallet' (pending_of s w) = Ok sts ->
        syncProofsStateWithMint wallet' w s = (s', Ok c)) /\
     spent c = count_state CS_SPENT sts /\
     pending c = count_state CS_PENDING sts /\
     unspent c = count_state CS_UNSPENT sts /\
     (spent c + pending c + unspent c = length (pending_of s w))%nat /\
     (forall i r m, In r (proof_rows s) ->
        nth_error (pending_of s w) i = Some (row_to_proof r) ->
        nth_error sts i = Some m ->
        In (set_status r (local_status_for (state m))) (proof_rows s') /\
        (state m = CS_PENDING -> In r (proof_rows s'))) /\
     (forall r, In r (proof_rows s) -> walletId r <> w \/ status r <> PENDING ->
        In r (proof_rows s'))).
Proof.
  split.
  - intros Hnil wallet'; unfold syncProofsStateWithMint, bind, loadProofs; simpl.
    fold (pending_of s w); rewrite Hnil; reflexivity.
  - intros sts Hsts Hlen.
    pose proof (sync_run wallet w s sts Hsts) as Run.
    pose proof (pending_of_nodup s w Huniq) as Hnd.
    set (ps := pending_of s w) in *.
    destruct (Nat.eqb (length ps) 0) eqn:E0.
    + apply Nat.eqb_eq, length_zero_iff_nil in E0.
      assert (sts = []) as -> by (apply length_zero_iff_nil; rewrite Hlen, E0; reflexivity).
      exists s, (mkSyncCounts 0 0 0); split; [exact Run|].
      split; [intros wallet' H'; rewrite (sync_run wallet' w s [] H'); fold ps;
              rewrite E0; reflexivity|].
      rewrite E0; simpl.
      split; [reflexivity|]; split; [reflexivity|]; split; [reflexivity|].
      split; [reflexivity|]; split.
      * intros i r m _ Hi; destruct i; discriminate.
      * intros r Hr _; exact Hr.
    + cbv zeta in Run.
      destruct (classify_counts ps sts Hlen) as [Cs Cu].
      pose proof (count_state_total sts) as Ct.
      eexists; eexists; split; [exact Run|].
      split; [intros wallet' H'; rewrite (sync_run wallet' w s sts H'); fold ps;
              rewrite E0; reflexivity|].
      simpl; rewrite Cs, Cu.
      split; [reflexivity|]; split; [lia|]; split; [reflexivity|]; split; [lia|].
      split.
      * intros i r m Hr Hi Hm.
        destruct (pending_of_In s w (row_to_proof r) (nth_error_In _ _ Hi))
          as [r0 [Hr0 [Hw0 [Hs0 Heq]]]].
        assert (r = r0) as <-.
        { apply (nodup_secret_same (proof_rows s)); try assumption.
          change (row_secret r) with (secret (row_to_proof r)); rewrite Heq; reflexivity. }
        destruct (classify_In ps sts i (row_to_proof r) m Hnd Hi Hm) as [Hsp Hun].
        simpl in Hsp, Hun.
        destruct (state m); simpl.
        -- split; [|discriminate].
           apply (in_map_update2 _ _ _ _ _ _ r _ Hr).
           rewrite (update_row_out w _ SPENT r) by (intros H; apply Hsp in H; discriminate).
           apply update_row_in; [exact Hw0 | apply Hun; reflexivity].
        -- split; [|intros _];
             apply (in_map_update2 _ _ _ _ _ _ r _ Hr);
             rewrite (update_row_out w _ SPENT r) by (intros H; apply Hsp in H; discriminate);
             rewrite (update_row_out w _ UNSPENT r) by (intros H; apply Hun in H; discriminate);
             [symmetry; apply set_status_same; exact Hs0 | reflexivity].
        -- split; [|discriminate].
           apply (in_map_update2 _ _ _ _ _ _ r _ Hr).
           rewrite (update_row_in w _ SPENT r Hw0) by (apply Hsp; reflexivity).
           apply update_row_out; simpl; intros H; apply Hun in H; discriminate.
      * intros r Hr Hout.
        assert (Hns : ~ In (row_secret r) (map secret ps) \/ walletId r <> w).
        { destruct (Z.eq_dec (walletId r) w) as [Hw|Hw]; [left|right; exact Hw].
          intros Hin; apply in_map_iff in Hin; destruct Hin as [p [Hp Hin]].
          destruct (pending_of_In s w p Hin) as [r0 [Hr0 [Hw0 [Hs0 ->]]]].
          assert (r0 = r) as -> by (apply (nodup_secret_same (proof_rows s)); assumption).
          destruct Hout; contradiction. }
        apply (in_map_update2 _ _ _ _ _ _ r _ Hr).
        destruct Hns as [Hns|Hw].
        -- rewrite (update_row_out w _ SPENT r)
             by (intros H; apply Hns, (proj1 (classify_subset ps sts _)), H).
           rewrite (update_row_out w _ UNSPENT r)
             by (intros H; apply Hns, (proj2 (classify_subset ps sts _)), H).
           reflexivity.
        -- unfold update_row; rewrite (proj2 (Z.eqb_neq _ _) Hw); simpl.
           rewrite (proj2 (Z.eqb_neq _ _) Hw); reflexivity.
Qed.

Example sync_reconcile_mixed :
  syncProofsStateWithMint mint_reconcile 1 store_reconcile =
  (mkStore [proof_row 0 1 proof_p1 SPENT; proof_row 1 1 proof_p2 UNSPENT;
            proof_row 2 1 proof_p3 PENDING] 3,
   Ok (mkSyncCounts 1 1 1)).
Proof. vm_compute; reflexivity. Qed.

Lemma store_reconcile_unique : secrets_unique store_reconcile.
Proof.
  unfold secrets_unique; simpl.
  repeat constructor; simpl; intuition discriminate.
Qed.

Lemma syncProofsStateWithMint_reconcile_witness :
  secrets_unique store_reconcile /\
  exists s' c, syncProofsStateWithMint mint_reconcile 1 store_reconcile = (s', Ok c) /\
    spent c = 1%nat /\ pending c = 1%nat /\ unspent c = 1%nat.
Proof.
  split; [exact store_reconcile_unique|].
  destruct (proj2 (syncProofsStateWithMint_reconcile mint_reconcile 1 store_reconcile
                     store_reconcile_unique) mixed_states)
    as [s' [c [E [_ [Hs [Hp [Hu _]]]]]]]; [vm_compute; reflexivity | reflexivity |].
  exists s', c; split; [exact E|].
  rewrite Hs, Hp, Hu; split; [|split]; reflexivity.
Defined.

(** ** C2, C3, C4: meltProofs *)

Lemma existsb_secret_false rows x :
  existsb (fun r => String.eqb (row_secret r) x) rows = false <->
  ~ In x (map row_secret rows).
Proof.
  split.
  - intros H Hin; apply in_map_iff in Hin; destruct Hin as [r [<- Hr]].
    assert (existsb (fun r' => String.eqb (row_secret r') (row_secret r)) rows = true)
      by (apply existsb_exists; exists r; split; [exact Hr | apply String.eqb_refl]).
    congruence.
  - intros Hn; apply not_true_iff_false; intros H; apply existsb_exists in H.
    destruct H as [r [Hr He]]; apply String.eqb_eq in He; subst x.
    apply Hn, in_map, Hr.
Qed.

(** [saveProofs] succeeds exactly when the secrets are new and distinct. *)
Lemma saveProofs_ok_fresh w ps st s s' u :
  saveProofs w ps st s = (s', Ok u) ->
  NoDup (map secret ps) /\
  (forall x, In x (map secret ps) -> ~ In x (map row_secret (proof_rows s))).
Proof.
  revert s; induction ps as [|p ps IH]; intros s H.
  - split; [constructor | intros x []].
  - simpl in H; unfold bind, prisma_proof_create in H.
    destruct (existsb _ (proof_rows s)) eqn:Hex; [discriminate|].
    apply IH in H; destruct H as [Hnd Hfr]; simpl in Hfr.
    apply existsb_secret_false in Hex.
    split.
    + constructor; [|exact Hnd].
      intros Hin; apply (Hfr _ Hin); rewrite map_app, in_app_iff; right; left; reflexivity.
    + intros x [<-|Hx]; [exact Hex|].
      intros Hin; apply (Hfr x Hx); rewrite map_app, in_app_iff; left; exact Hin.
Qed.

Lemma saveProofs_fresh w ps st s :
  NoDup (map secret ps) ->
  (forall x, In x (map secret ps) -> ~ In x (map row_secret (proof_rows s))) ->
  saveProofs w ps st s =
  (mkStore (proof_rows s ++ new_rows (next_row_id s) w ps st)%list
           (next_row_id s + length ps), Ok tt).
Proof.
  revert s; induction ps as [|p ps IH]; intros s Hnd Hfr.
  - simpl; rewrite app_nil_r, Nat.add_0_r, <- store_eta; reflexivity.
  - simpl; unfold bind, prisma_proof_create.
    simpl in Hnd; inversion Hnd as [|? ? Hp Hnd']; subst.
    rewrite (proj2 (existsb_secret_false _ _)) by (apply Hfr; left; reflexivity).
    rewrite IH; simpl.
    + rewrite <- app_assoc; simpl; do 2 f_equal; lia.
    + exact Hnd'.
    + intros x Hx; simpl; rewrite map_app, in_app_iff; intros [H|[H|[]]].
      * exact (Hfr x (or_intror Hx) H).
      * simpl in H; subst x; exact (Hp Hx).
Qed.

Lemma map_update_secrets w xs st rows :
  map row_secret (map (update_row w xs st) rows) = map row_secret rows.
Proof. rewrite map_map; apply map_ext; intros r; apply update_row_secret. Qed.

(** Every run of [meltProofs] either throws in phase A or reaches phase B
    with the reserved store, its inserts having succeeded. *)
Lemma meltProofs_run wallet w mq s s' r :
  meltProofs wallet w mq s = (s', r) ->
  (exists e, r = Throw e) \/
  exists keep send,
    wallet_send wallet (mq_amount mq + fee_reserve mq) (inputs_of s w) false None
      = Ok (keep, send) /\
    reservation_fresh s w keep send /\
    melt_attempt wallet w mq send (map secret send) (melt_reserved_store s w keep send)
      = (s', r).
Proof.
  intros H; unfold meltProofs, bind, loadProofs, lift, throw in H; cbv zeta in H.
  fold (inputs_of s w) in H.
  destruct (getProofsAmount (inputs_of s w) <? mq_amount mq + fee_reserve mq)%Z.
  { injection H as _ <-; left; eexists; reflexivity. }
  destruct (wallet_send wallet _ (inputs_of s w) false None) as [[keep send]|e] eqn:Hsend.
  2: { injection H as _ <-; left; eexists; reflexivity. }
  rewrite when_update_run, update_rows_run, when_save_run in H.
  match type of H with context [saveProofs w ?l UNSPENT ?s1] =>
    destruct (saveProofs w l UNSPENT s1) as [s2 [u|e]] eqn:E1 end.
  2: { injection H as _ <-; left; eexists; reflexivity. }
  pose proof (saveProofs_ok_fresh _ _ _ _ _ _ E1) as [Nd1 Fr1].
  rewrite saveProofs_fresh in E1 by assumption; injection E1 as <-.
  rewrite when_update_run, update_rows_run, when_save_run in H.
  match type of H with context [saveProofs w ?l PENDING ?s3] =>
    destruct (saveProofs w l PENDING s3) as [s4 [u'|e]] eqn:E2 end.
  2: { injection H as _ <-; left; eexists; reflexivity. }
  pose proof (saveProofs_ok_fresh _ _ _ _ _ _ E2) as [Nd2 Fr2].
  rewrite saveProofs_fresh in E2 by assumption; injection E2 as <-.
  right; exists keep, send; split; [reflexivity|]; split.
  - simpl in Fr1, Fr2; rewrite map_update_secrets, map_app, map_update_secrets,
                          new_rows_secrets in Fr2.
    simpl in Fr1; rewrite map_update_secrets in Fr1.
    unfold reservation_fresh, res_newKeep, res_newSend, res_inputs; rewrite map_app.
    split.
    + apply NoDup_app; [exact Nd1 | exact Nd2 |].
      intros x Hx1 Hx2; apply (Fr2 x Hx2); apply in_or_app; right; exact Hx1.
    + intros x Hx; apply in_app_iff in Hx; destruct Hx as [Hx|Hx]; [exact (Fr1 x Hx)|].
      intros Hin; apply (Fr2 x Hx); apply in_or_app; left; exact Hin.
  - rewrite <- H; unfold melt_reserved_store, res_existingSend, res_swapped,
      res_newKeep, res_newSend, res_returned, res_inputs; simpl.
    f_equal; f_equal; lia.
Qed.

Lemma NoDup_app_disj {A} (l1 l2 : list A) x :
  NoDup (l1 ++ l2)%list -> In x l1 -> ~ In x l2.
Proof.
  induction l1 as [|a l1 IH]; simpl; [tauto|].
  intros Hnd [<-|Hx] Hx2; inversion Hnd; subst.
  - apply H1, in_or_app; right; exact Hx2.
  - exact (IH H2 Hx Hx2).
Qed.

(** A call whose balance suffices, whose swap returns [(keep, send)] and
    whose new proofs are fresh reaches phase B with the reserved store. *)
Lemma meltProofs_reach wallet w mq s keep send :
  (mq_amount mq + fee_reserve mq <= getProofsAmount (inputs_of s w))%Z ->
  wallet_send wallet (mq_amount mq + fee_reserve mq) (inputs_of s w) false None
    = Ok (keep, send) ->
  reservation_fresh s w keep send ->
  meltProofs wallet w mq s =
  melt_attempt wallet w mq send (map secret send) (melt_reserved_store s w keep send).
Proof.
  intros Hbal Hsend [Nd Fr].
  unfold reservation_fresh, res_newKeep, res_newSend, res_inputs in Nd, Fr.
  rewrite map_app in Nd, Fr.
  pose proof (NoDup_app_remove_r _ _ Nd) as Nd1.
  pose proof (NoDup_app_remove_l _ _ Nd) as Nd2.
  unfold meltProofs, bind, loadProofs, lift, throw; cbv zeta.
  fold (inputs_of s w).
  replace (getProofsAmount (inputs_of s w) <? mq_amount mq + fee_reserve mq)%Z
    with false by (symmetry; apply Z.ltb_ge; exact Hbal).
  rewrite Hsend.
  rewrite when_update_run, update_rows_run, when_save_run.
  rewrite saveProofs_fresh; simpl.
  2: exact Nd1.
  2: { intros x Hx; rewrite map_update_secrets; apply Fr, in_or_app; left; exact Hx. }
  rewrite when_update_run, update_rows_run, when_save_run.
  rewrite saveProofs_fresh; simpl.
  2: exact Nd2.
  2: { intros x Hx; rewrite map_update_secrets, map_app, map_update_secrets,
         new_rows_secrets, in_app_iff.
       intros [Hin|Hin].
       - exact (Fr x (in_or_app _ _ _ (or_intror Hx)) Hin).
       - exact (NoDup_app_disj _ _ x Nd Hin Hx). }
  unfold melt_reserved_store, res_existingSend, res_swapped,
    res_newKeep, res_newSend, res_returned, res_inputs; simpl.
  do 3 f_equal; lia.
Qed.

Lemma update_row_walletId w xs st r : walletId (update_row w xs st r) = walletId r.
Proof. unfold update_row; destruct (_ && _); reflexivity. Qed.

Lemma covers_update w xs st ys rows :
  covers rows w ys -> covers (map (update_row w xs st) rows) w ys.
Proof.
  intros H x Hx; destruct (H x Hx) as [r [Hr [Hw Hs]]].
  exists (update_row w xs st r); split; [apply in_map; exact Hr|].
  rewrite update_row_walletId, update_row_secret; split; assumption.
Qed.

Lemma covers_app_l rows1 rows2 w ys :
  covers rows1 w ys -> covers (rows1 ++ rows2)%list w ys.
Proof.
  intros H x Hx; destruct (H x Hx) as [r [Hr Hrw]].
  exists r; split; [apply in_or_app; left; exact Hr | exact Hrw].
Qed.

Lemma covers_secret rows w ys x : covers rows w ys -> In x ys -> In x (map row_secret rows).
Proof.
  intros H Hx; destruct (H x Hx) as [r [Hr [_ <-]]]; apply in_map; exact Hr.
Qed.

Lemma all_marked_update rows n w xs st :
  covers rows w xs -> all_marked (mkStore (map (update_row w xs st) rows) n) w xs st.
Proof.
  intros Hc; split; [apply covers_update; exact Hc|].
  intros r Hr Hw Hx; simpl in Hr; apply in_map_iff in Hr; destruct Hr as [r0 [<- Hr0]].
  rewrite update_row_walletId in Hw; rewrite update_row_secret in Hx.
  rewrite (update_row_in w xs st r0 Hw Hx); reflexivity.
Qed.

Lemma new_rows_fields n w' ps st r :
  In r (new_rows n w' ps st) -> walletId r = w' /\ status r = st.
Proof.
  revert n; induction ps as [|p ps IH]; intros n Hr; [destruct Hr|].
  destruct Hr as [<-|Hr]; [split; reflexivity | exact (IH _ Hr)].
Qed.

Lemma res_inputs_row s w x :
  In x (res_inputs s w) ->
  exists r, In r (proof_rows s) /\ walletId r = w /\ status r = UNSPENT /\ row_secret r = x.
Proof.
  unfold res_inputs, inputs_of; rewrite map_map; intros H.
  apply in_map_iff in H; destruct H as [r [Hx Hr]].
  unfold rows_with in Hr; apply filter_In in Hr; destruct Hr as [Hr Hc].
  apply andb_true_iff in Hc; destruct Hc as [Hw Hs].
  apply Z.eqb_eq in Hw; apply ProofStatus_eqb_eq in Hs.
  exists r; repeat split; assumption.
Qed.

Lemma send_new_secret s w send x :
  In x (map secret send) -> mem x (res_inputs s w) = false ->
  In x (map secret (res_newSend s w send)).
Proof.
  intros Hx Hm; apply in_map_iff in Hx; destruct Hx as [p [<- Hp]].
  apply in_map; unfold res_newSend; apply filter_In; split; [exact Hp|].
  rewrite Hm; reflexivity.
Qed.

Lemma reserved_covers s w keep send :
  covers (proof_rows (melt_reserved_store s w keep send)) w (map secret send).
Proof.
  intros x Hx; destruct (mem x (res_inputs s w)) eqn:Hm.
  - apply mem_In in Hm; destruct (res_inputs_row s w x Hm) as [r [Hr [Hw [_ Hs]]]].
    exists (update_row w (res_existingSend s w send) PENDING
              (update_row w (res_swapped s w keep send) SPENT r)).
    split.
    + unfold melt_reserved_store; simpl; apply in_or_app; left; apply in_map.
      apply in_or_app; left; apply in_map; exact Hr.
    + rewrite !update_row_walletId, !update_row_secret; split; assumption.
  - apply in_map_iff in Hx; destruct Hx as [p [<- Hp]].
    assert (Hn : In p (res_newSend s w send))
      by (unfold res_newSend; apply filter_In; split; [exact Hp | rewrite Hm; reflexivity]).
    destruct (In_new_rows (next_row_id s + length (res_newKeep s w keep)) w _ PENDING p Hn)
      as [k Hk].
    exists (proof_row k w p PENDING); split; [|split; reflexivity].
    unfold melt_reserved_store; simpl; apply in_or_app; right; exact Hk.
Qed.

(** After phase A every row of the wallet holding a send secret is PENDING. *)
Lemma reserved_pending s w keep send :
  reservation_fresh s w keep send ->
  all_marked (melt_reserved_store s w keep send) w (map secret send) PENDING.
Proof.
  intros [Nd Fr]; split; [apply reserved_covers|].
  intros r Hr Hw Hx; unfold melt_reserved_store in Hr; simpl in Hr.
  apply in_app_iff in Hr; destruct Hr as [Hr|Hr].
  - apply in_map_iff in Hr; destruct Hr as [r0 [<- Hr0]].
    rewrite update_row_walletId in Hw; rewrite update_row_secret in Hx.
    destruct (mem (row_secret r0) (res_inputs s w)) eqn:Hm.
    + rewrite update_row_in; [reflexivity | exact Hw |].
      unfold res_existingSend; apply filter_In; split; [exact Hx | exact Hm].
    + exfalso; pose proof (send_new_secret s w send _ Hx Hm) as Hn.
      rewrite map_app in Nd, Fr.
      apply in_app_iff in Hr0; destruct Hr0 as [Hr0|Hr0].
      * apply in_map_iff in Hr0; destruct Hr0 as [r1 [<- Hr1]].
        rewrite update_row_secret in Hn.
        apply (Fr (row_secret r1)); [apply in_or_app; right; exact Hn|].
        apply in_map; exact Hr1.
      * apply In_new_rows_secret in Hr0.
        exact (NoDup_app_disj _ _ _ Nd Hr0 Hn).
  - apply new_rows_fields in Hr; destruct Hr as [_ Hr]; exact Hr.
Qed.

(** C2: once phase A has run (the balance suffices, the swap returns
    [(keep, send)] and its new proofs are fresh), a melt that succeeds
    (with fresh change) returns the melt response's quote and change, and a
    melt that throws but whose re-check reports PAID returns the checked
    quote with an empty change list; in both cases every row of the wallet
    holding a secret of [send] ends SPENT, and each such secret has a row. *)
Theorem meltProofs_paid wallet w mq s keep send :
  (mq_amount mq + fee_reserve mq <= getProofsAmount (inputs_of s w))%Z ->
  wallet_send wallet (mq_amount mq + fee_reserve mq) (inputs_of s w) false None
    = Ok (keep, send) ->
  reservation_fresh s w keep send ->
  (forall resp,
     meltProofsBolt11 wallet mq send = Ok resp ->
     fresh_proofs (melt_reserved_store s w keep send) (mr_change resp) ->
     exists s', meltProofs wallet w mq s = (s', Ok (mr_quote resp, mr_change resp)) /\
                all_marked s' w (map secret send) SPENT) /\
  (forall e q,
     meltProofsBolt11 wallet mq send = Throw e ->
     checkMeltQuoteBolt11 wallet (quote mq) = Ok q ->
     mq_state q = MQ_PAID ->
     exists s', meltProofs wallet w mq s = (s', Ok (q, [])) /\
                all_marked s' w (map secret send) SPENT).
Proof.
  intros Hbal Hsend Hfr; rewrite (meltProofs_reach _ _ _ _ _ _ Hbal Hsend Hfr).
  pose proof (reserved_covers s w keep send) as Hcov.
  set (s1 := melt_reserved_store s w keep send) in *.
  split.
  - intros resp Hm [Nd Fr].
    unfold melt_attempt, try_catch, bind, lift; rewrite Hm, update_rows_run.
    rewrite when_save_run, saveProofs_fresh; simpl.
    + eexists; split; [reflexivity|]; split.
      * apply covers_app_l, covers_update; exact Hcov.
      * intros r Hr Hw Hx; apply in_app_iff in Hr; destruct Hr as [Hr|Hr].
        -- exact (proj2 (all_marked_update (proof_rows s1) (next_row_id s1) w
                           (map secret send) SPENT Hcov) r Hr Hw Hx).
        -- exfalso; apply In_new_rows_secret in Hr.
           exact (Fr _ Hr (covers_secret _ _ _ _ Hcov Hx)).
    + exact Nd.
    + intros x Hx; simpl; rewrite map_update_secrets; exact (Fr x Hx).
  - intros e q Hm Hc Hp.
    unfold melt_attempt, try_catch, bind, lift; rewrite Hm.
    unfold melt_recheck, try_catch, bind, lift; rewrite Hc, Hp, update_rows_run.
    eexists; split; [reflexivity|]; apply all_marked_update; exact Hcov.
Qed.

Lemma melt_reservation_fresh : reservation_fresh store_s1 1 [proof_k1] [proof_send1].
Proof.
  split.
  - vm_compute; repeat constructor; simpl; intuition discriminate.
  - intros x Hx Hy; vm_compute in Hx, Hy.
    destruct Hx as [<-|[<-|[]]]; destruct Hy as [H|[]]; discriminate.
Qed.

Lemma meltProofs_paid_witness :
  (exists s', meltProofs (mint_melt (Ok (mkMeltResponse (melt_checked MQ_PAID) [proof_change1]))
                                    (Throw mint_unreachable)) 1 mq_melt store_s1
              = (s', Ok (melt_checked MQ_PAID, [proof_change1])) /\
              all_marked s' 1 ["send1"] SPENT) /\
  (exists s', meltProofs (mint_melt (Throw mint_unreachable) (Ok (melt_checked MQ_PAID)))
                         1 mq_melt store_s1
              = (s', Ok (melt_checked MQ_PAID, [])) /\
              all_marked s' 1 ["send1"] SPENT).
Proof.
  split.
  - apply (proj1 (meltProofs_paid
             (mint_melt (Ok (mkMeltResponse (melt_checked MQ_PAID) [proof_change1]))
                        (Throw mint_unreachable))
             1 mq_melt store_s1 [proof_k1] [proof_send1]
             ltac:(vm_compute; discriminate) eq_refl melt_reservation_fresh)
             (mkMeltResponse (melt_checked MQ_PAID) [proof_change1]) eq_refl).
    split; [vm_compute; repeat constructor; intros [] |].
    intros x Hx Hy; vm_compute in Hx, Hy.
    destruct Hx as [<-|[]]; destruct Hy as [H|[H|[H|[]]]]; discriminate.
  - apply (proj2 (meltProofs_paid
             (mint_melt (Throw mint_unreachable) (Ok (melt_checked MQ_PAID)))
             1 mq_melt store_s1 [proof_k1] [proof_send1]
             ltac:(vm_compute; discriminate) eq_refl melt_reservation_fresh)
             mint_unreachable (melt_checked MQ_PAID) eq_refl eq_refl eq_refl).
Defined.

Lemma balance_row_sum s w : balance s w = row_sum (unspent_amount w) (proof_rows s).
Proof.
  unfold balance, rows_with, row_sum, unspent_amount.
  induction (proof_rows s) as [|r rows IH]; simpl; [reflexivity|].
  destruct (_ && _); simpl; rewrite IH; reflexivity.
Qed.

Lemma row_sum_app f l1 l2 : row_sum f (l1 ++ l2)%list = (row_sum f l1 + row_sum f l2)%Z.
Proof. unfold row_sum; induction l1 as [|r l1 IH]; simpl; [reflexivity|]; rewrite IH; lia. Qed.

Lemma row_sum_map f g l : row_sum f (map g l) = row_sum (fun r => f (g r)) l.
Proof. unfold row_sum; induction l as [|r l IH]; simpl; [reflexivity|]; rewrite IH; reflexivity. Qed.

Lemma row_sum_pointwise f g h l :
  (forall r, In r l -> (f r + g r = h r)%Z) -> (row_sum f l + row_sum g l = row_sum h l)%Z.
Proof.
  unfold row_sum; induction l as [|r l IH]; simpl; intros H; [reflexivity|].
  rewrite <- (H r (or_introl eq_refl)), <- IH by (intros; apply H; right; assumption); lia.
Qed.

Lemma row_sum_new_rows f n w ps st :
  (forall k p, In p ps -> f (proof_row k w p st) = amount p) ->
  row_sum f (new_rows n w ps st) = sum_amounts ps.
Proof.
  revert n; unfold row_sum, sum_amounts; induction ps as [|p ps IH]; intros n H; simpl;
    [reflexivity|].
  rewrite H by (left; reflexivity); rewrite IH by (intros; apply H; right; assumption).
  reflexivity.
Qed.

Lemma swapped_amount_rows s w keep send :
  res_swapped_amount s w keep send =
  row_sum (fun r => if (walletId r =? w)%Z && ProofStatus_eqb (status r) UNSPENT
                       && negb (mem (row_secret r) (res_returned keep send))
                    then row_amount r else 0%Z) (proof_rows s).
Proof.
  unfold res_swapped_amount, inputs_of, rows_with, row_sum, sum_amounts.
  induction (proof_rows s) as [|r rows IH]; simpl; [reflexivity|].
  destruct ((walletId r =? w)%Z && ProofStatus_eqb (status r) UNSPENT); simpl;
    [|exact IH].
  destruct (negb (mem (row_secret r) (res_returned keep send))); simpl; rewrite IH;
    reflexivity.
Qed.

Lemma update_row_other w xs st r : walletId r <> w -> update_row w xs st r = r.
Proof. intros H; unfold update_row; apply Z.eqb_neq in H; rewrite H; reflexivity. Qed.

Lemma update_row_amount w xs st r : row_amount (update_row w xs st r) = row_amount r.
Proof. unfold update_row; destruct (_ && _); reflexivity. Qed.

Lemma unspent_amount_set w r : walletId r = w ->
  unspent_amount w (set_status r UNSPENT) = row_amount r.
Proof. intros Hw; unfold unspent_amount; simpl; rewrite Hw, Z.eqb_refl; reflexivity. Qed.

Lemma unspent_amount_spent w r : unspent_amount w (set_status r SPENT) = 0%Z.
Proof. unfold unspent_amount; simpl; rewrite andb_false_r; reflexivity. Qed.

(** A stored row holding an input secret is the input row itself. *)
Lemma input_row_unspent s w r :
  secrets_unique s -> In r (proof_rows s) -> In (row_secret r) (res_inputs s w) ->
  status r = UNSPENT.
Proof.
  intros Hu Hr Hx; destruct (res_inputs_row s w _ Hx) as [r0 [Hr0 [_ [Hs Hsec]]]].
  rewrite (nodup_secret_same _ r r0 Hu Hr Hr0 (eq_sym Hsec)); exact Hs.
Qed.

Lemma returned_send keep send x : In x (map secret send) -> mem x (res_returned keep send) = true.
Proof. intros H; apply mem_In; unfold res_returned; apply in_or_app; right; exact H. Qed.

(** Per stored row: the UNPAID revert leaves each row's share of the
    balance as it was, except for the swapped input rows. *)
Lemma revert_row s w keep send r :
  secrets_unique s -> reservation_fresh s w keep send -> In r (proof_rows s) ->
  (unspent_amount w
     (update_row w (map secret send) UNSPENT
        (update_row w (res_existingSend s w send) PENDING
           (update_row w (res_swapped s w keep send) SPENT r)))
   + (if (walletId r =? w)%Z && ProofStatus_eqb (status r) UNSPENT
         && negb (mem (row_secret r) (res_returned keep send))
      then row_amount r else 0%Z)
   = unspent_amount w r)%Z.
Proof.
  intros Hu [Nd Fr] Hr.
  destruct (Z.eq_dec (walletId r) w) as [Hw|Hw].
  2: { rewrite !update_row_other by (rewrite ?update_row_walletId; exact Hw).
       unfold unspent_amount; apply Z.eqb_neq in Hw; rewrite Hw; reflexivity. }
  assert (Hst : In (row_secret r) (res_inputs s w) -> status r = UNSPENT)
    by (apply input_row_unspent; assumption).
  destruct (in_dec string_dec (row_secret r) (map secret send)) as [Hx|Hx].
  - assert (Hin : In (row_secret r) (res_inputs s w)).
    { destruct (mem (row_secret r) (res_inputs s w)) eqn:Hm; [apply mem_In; exact Hm|].
      exfalso; pose proof (send_new_secret s w send _ Hx Hm) as Hn.
      rewrite map_app in Fr; apply (Fr _ (in_or_app _ _ _ (or_intror Hn))).
      apply in_map; exact Hr. }
    rewrite update_row_in
      by (rewrite ?update_row_walletId, ?update_row_secret; assumption).
    rewrite unspent_amount_set by (rewrite !update_row_walletId; exact Hw).
    rewrite !update_row_amount, returned_send by exact Hx.
    unfold unspent_amount; rewrite Hw, Z.eqb_refl, (Hst Hin); simpl; lia.
  - rewrite (update_row_out w (map secret send)) by (rewrite !update_row_secret; exact Hx).
    rewrite (update_row_out w (res_existingSend s w send)).
    2: { rewrite update_row_secret; unfold res_existingSend; rewrite filter_In; tauto. }
    destruct (in_dec string_dec (row_secret r) (res_swapped s w keep send)) as [Hs|Hs].
    + rewrite update_row_in by assumption; rewrite unspent_amount_spent.
      unfold res_swapped in Hs; apply filter_In in Hs; destruct Hs as [Hin Hret].
      rewrite Hret, Hw, Z.eqb_refl, (Hst Hin); unfold unspent_amount;
        rewrite Hw, Z.eqb_refl, (Hst Hin); simpl; lia.
    + rewrite update_row_out by exact Hs.
      destruct (ProofStatus_eqb (status r) UNSPENT) eqn:Hu'; rewrite Hw, Z.eqb_refl;
        simpl; [|lia].
      destruct (mem (row_secret r) (res_returned keep send)) eqn:Hm; simpl; [lia|].
      exfalso; apply Hs; unfold res_swapped; apply filter_In; split.
      * apply ProofStatus_eqb_eq in Hu'; apply input_secret_In; assumption.
      * rewrite Hm; reflexivity.
Qed.

Lemma revert_new_keep s w keep send k p :
  reservation_fresh s w keep send -> In p (res_newKeep s w keep) ->
  unspent_amount w
    (update_row w (map secret send) UNSPENT
       (update_row w (res_existingSend s w send) PENDING (proof_row k w p UNSPENT)))
  = amount p.
Proof.
  intros [Nd _] Hp.
  assert (Hx : ~ In (secret p) (map secret send)).
  { intros Hx; rewrite map_app in Nd.
    assert (Hm : mem (secret p) (res_inputs s w) = false)
      by (unfold res_newKeep in Hp; apply filter_In in Hp; apply negb_true_iff; tauto).
    exact (NoDup_app_disj _ _ _ Nd (in_map secret _ _ Hp) (send_new_secret s w send _ Hx Hm)). }
  rewrite (update_row_out w (res_existingSend s w send))
    by (unfold res_existingSend; simpl; rewrite filter_In; tauto).
  rewrite update_row_out by exact Hx.
  unfold unspent_amount; simpl; rewrite Z.eqb_refl; reflexivity.
Qed.

Lemma revert_new_send s w send k p :
  In p (res_newSend s w send) ->
  unspent_amount w (update_row w (map secret send) UNSPENT (proof_row k w p PENDING))
  = amount p.
Proof.
  intros Hp; unfold res_newSend in Hp; apply filter_In in Hp; destruct Hp as [Hp _].
  rewrite update_row_in by (try reflexivity; exact (in_map secret _ _ Hp)).
  apply unspent_amount_set; reflexivity.
Qed.

(** C3: once phase A has run, a melt that throws [e] whose re-check
    reports UNPAID, with [e] not a mint error of code 11001 or 11002, fails
    with a 500 connection-kind error and leaves every row of the wallet
    holding a secret of [send] UNSPENT.  When the store's secrets are
    unique (the schema's UNIQUE constraint), the UNSPENT sum afterwards plus
    the amount of the swapped inputs equals the sum before plus the amounts
    of the new keep and send proofs: only the swap split changed it. *)
Theorem meltProofs_unpaid_revert wallet w mq s keep send e q :
  (mq_amount mq + fee_reserve mq <= getProofsAmount (inputs_of s w))%Z ->
  wallet_send wallet (mq_amount mq + fee_reserve mq) (inputs_of s w) false None
    = Ok (keep, send) ->
  reservation_fresh s w keep send ->
  meltProofsBolt11 wallet mq send = Throw e ->
  checkMeltQuoteBolt11 wallet (quote mq) = Ok q ->
  mq_state q = MQ_UNPAID ->
  (forall c m, e = ExnMintOp c m -> c <> 11001%Z /\ c <> 11002%Z) ->
  exists s',
    meltProofs wallet w mq s =
      (s', Throw (app_error 500 CONNECTION_ERROR ("Melt failed: " ++ exn_message e))) /\
    all_marked s' w (map secret send) UNSPENT /\
    (secrets_unique s ->
     balance s' w + res_swapped_amount s w keep send
     = balance s w + sum_amounts (res_newKeep s w keep)
       + sum_amounts (res_newSend s w send))%Z.
Proof.
  intros Hbal Hsend Hfr Hm Hc Hun Hcode.
  rewrite (meltProofs_reach _ _ _ _ _ _ Hbal Hsend Hfr).
  assert (Hsel : option_eq_Z (match e with ExnMintOp c _ => Some c | _ => None end) 11002
                 = false /\
                 option_eq_Z (match e with ExnMintOp c _ => Some c | _ => None end) 11001
                 = false).
  { destruct e as [a|c msg|msg]; simpl; try (split; reflexivity).
    destruct (Hcode c msg eq_refl) as [H1 H2]; split; apply Z.eqb_neq; assumption. }
  destruct Hsel as [H2 H1].
  unfold melt_attempt, try_catch, bind, lift; rewrite Hm.
  unfold melt_recheck, try_catch, bind, lift; rewrite Hc, Hun; cbv zeta.
  rewrite H2, H1, update_rows_run; simpl.
  eexists; split; [reflexivity|]; split.
  - apply all_marked_update; exact (reserved_covers s w keep send).
  - intros Hu; rewrite !balance_row_sum, swapped_amount_rows; simpl.
    rewrite !map_app, !row_sum_app, !row_sum_map.
    rewrite (row_sum_new_rows _ _ _ _ UNSPENT)
      by (intros k p Hp; exact (revert_new_keep s w keep send k p Hfr Hp)).
    rewrite (row_sum_new_rows _ _ _ _ PENDING)
      by (intros k p Hp; exact (revert_new_send s w send k p Hp)).
    rewrite <- (row_sum_pointwise _ _ _ _ (fun r Hr => revert_row s w keep send r Hu Hfr Hr)).
    lia.
Qed.

Lemma meltProofs_unpaid_revert_witness :
  exists s',
    meltProofs (mint_melt (Throw mint_unreachable) (Ok (melt_checked MQ_UNPAID)))
               1 mq_melt store_s1 =
      (s', Throw (app_error 500 CONNECTION_ERROR ("Melt failed: " ++ exn_message mint_unreachable))) /\
    all_marked s' 1 (map secret [proof_send1]) UNSPENT /\
    (secrets_unique store_s1 ->
     balance s' 1 + res_swapped_amount store_s1 1 [proof_k1] [proof_send1]
     = balance store_s1 1 + sum_amounts (res_newKeep store_s1 1 [proof_k1])
       + sum_amounts (res_newSend store_s1 1 [proof_send1]))%Z.
Proof.
  apply (meltProofs_unpaid_revert
           (mint_melt (Throw mint_unreachable) (Ok (melt_checked MQ_UNPAID)))
           1 mq_melt store_s1 [proof_k1] [proof_send1] mint_unreachable
           (melt_checked MQ_UNPAID)).
  - vm_compute; discriminate.
  - reflexivity.
  - exact melt_reservation_fresh.
  - reflexivity.
  - reflexivity.
  - reflexivity.
  - intros c m H; discriminate H.
Defined.

(** C4: once phase A has run and the melt has thrown [e]:
    - when the re-check itself fails with an error that is not an
      [AppError] (the mint is unreachable), the call fails with a 500
      connection-kind error, the store is left as phase A wrote it, and every
      row of the wallet holding a secret of [send] is still PENDING;
    - when the re-check reports PENDING, the 202 timeout [AppError] is the
      result as thrown, with the store again as phase A left it;
    - on UNPAID with mint error 11002 or 11001, once the reconciliation's
      mint call answers, its 202 timeout or 500 connection [AppError] is the
      result as thrown, not the fallback's "could not verify" error. *)
Theorem meltProofs_recheck_failure wallet w mq s keep send e :
  (mq_amount mq + fee_reserve mq <= getProofsAmount (inputs_of s w))%Z ->
  wallet_send wallet (mq_amount mq + fee_reserve mq) (inputs_of s w) false None
    = Ok (keep, send) ->
  reservation_fresh s w keep send ->
  meltProofsBolt11 wallet mq send = Throw e ->
  let s1 := melt_reserved_store s w keep send in
  (forall ce,
     checkMeltQuoteBolt11 wallet (quote mq) = Throw ce ->
     (forall a, ce <> ExnApp a) ->
     meltProofs wallet w mq s =
       (s1, Throw (app_error 500 CONNECTION_ERROR
                    ("Melt failed and could not verify quote state: " ++ exn_message e))) /\
     all_marked s1 w (map secret send) PENDING) /\
  (forall q,
     checkMeltQuoteBolt11 wallet (quote mq) = Ok q ->
     mq_state q = MQ_PENDING ->
     meltProofs wallet w mq s =
       (s1, Throw (app_error 202 TIMEOUT_ERROR
                    ("Lightning payment is pending, proofs remain reserved. Check quote "
                     ++ quote mq ++ " later."))) /\
     all_marked s1 w (map secret send) PENDING) /\
  (forall q m sts,
     checkMeltQuoteBolt11 wallet (quote mq) = Ok q ->
     mq_state q = MQ_UNPAID ->
     e = ExnMintOp 11002 m ->
     checkProofsStates wallet (pending_of s1 w) = Ok sts ->
     exists s',
       meltProofs wallet w mq s =
         (s', Throw (app_error 202 TIMEOUT_ERROR
                      ("Melt failed: proofs are pending at the mint. Check quote "
                       ++ quote mq ++ " later.")))) /\
  (forall q m sts,
     checkMeltQuoteBolt11 wallet (quote mq) = Ok q ->
     mq_state q = MQ_UNPAID ->
     e = ExnMintOp 11001 m ->
     checkProofsStates wallet (pending_of s1 w) = Ok sts ->
     exists s',
       meltProofs wallet w mq s =
         (s', Throw (app_error 500 CONNECTION_ERROR
                      "Melt failed: proofs already spent. Wallet state synced with mint."))).
Proof.
  intros Hbal Hsend Hfr Hm s1.
  rewrite (meltProofs_reach _ _ _ _ _ _ Hbal Hsend Hfr); fold s1.
  pose proof (reserved_pending s w keep send Hfr) as Hpend; fold s1 in Hpend.
  unfold melt_attempt, try_catch at 1, bind at 1, lift at 1; rewrite Hm.
  split; [|split; [|split]].
  - intros ce Hc Hce; split; [|exact Hpend].
    unfold melt_recheck, try_catch, bind, lift; rewrite Hc.
    destruct ce as [a|c msg|msg]; [destruct (Hce a eq_refl)| |]; reflexivity.
  - intros q Hc Hp; split; [|exact Hpend].
    unfold melt_recheck, try_catch, bind, lift; rewrite Hc, Hp; reflexivity.
  - intros q m sts Hc Hu -> Hs.
    pose proof (sync_run _ _ _ _ Hs) as Hsync.
    unfold melt_recheck, try_catch, bind, lift; rewrite Hc; cbv beta iota; rewrite Hu.
    cbv beta iota zeta; cbn [option_eq_Z Z.eqb Pos.eqb].
    destruct (syncProofsStateWithMint wallet w s1) as [s2 [c|e']] eqn:E.
    + eexists; reflexivity.
    + revert Hsync; destruct (Nat.eqb _ 0); cbv zeta; intros Hr;
        injection Hr as _ Hr; discriminate Hr.
  - intros q m sts Hc Hu -> Hs.
    pose proof (sync_run _ _ _ _ Hs) as Hsync.
    unfold melt_recheck, try_catch, bind, lift; rewrite Hc; cbv beta iota; rewrite Hu.
    cbv beta iota zeta; cbn [option_eq_Z Z.eqb Pos.eqb].
    destruct (syncProofsStateWithMint wallet w s1) as [s2 [c|e']] eqn:E.
    + eexists; reflexivity.
    + revert Hsync; destruct (Nat.eqb _ 0); cbv zeta; intros Hr;
        injection Hr as _ Hr; discriminate Hr.
Qed.

Lemma meltProofs_recheck_failure_witness :
  (meltProofs (mint_melt (Throw mint_unreachable) (Throw mint_unreachable))
              1 mq_melt store_s1 =
     (melt_reserved_store store_s1 1 [proof_k1] [proof_send1],
      Throw (app_error 500 CONNECTION_ERROR
               ("Melt failed and could not verify quote state: "
                ++ exn_message mint_unreachable))) /\
   all_marked (melt_reserved_store store_s1 1 [proof_k1] [proof_send1]) 1
              (map secret [proof_send1]) PENDING) /\
  (exists s',
     meltProofs (mint_melt (Throw (ExnMintOp 11002 "Token is pending"))
                           (Ok (melt_checked MQ_UNPAID)))
                1 mq_melt store_s1 =
       (s', Throw (app_error 202 TIMEOUT_ERROR
                    ("Melt failed: proofs are pending at the mint. Check quote "
                     ++ quote mq_melt ++ " later.")))).
Proof.
  split.
  - apply (proj1 (meltProofs_recheck_failure
                    (mint_melt (Throw mint_unreachable) (Throw mint_unreachable))
                    1 mq_melt store_s1 [proof_k1] [proof_send1] mint_unreachable
                    ltac:(vm_compute; discriminate) eq_refl melt_reservation_fresh eq_refl)
                 mint_unreachable eq_refl).
    intros a H; discriminate H.
  - apply (proj1 (proj2 (proj2 (meltProofs_recheck_failure
                    (mint_melt (Throw (ExnMintOp 11002 "Token is pending"))
                               (Ok (melt_checked MQ_UNPAID)))
                    1 mq_melt store_s1 [proof_k1] [proof_send1]
                    (ExnMintOp 11002 "Token is pending")
                    ltac:(vm_compute; discriminate) eq_refl melt_reservation_fresh eq_refl)))
                 (melt_checked MQ_UNPAID) "Token is pending"
                 [mkProofState "Y" CS_PENDING None]); reflexivity.
Defined.

(** ** C8: GET /wallet/deposit/:quote *)

(** C8: when the mint reports the quote PAID, the deposit check answers
    the quote's [{quote, request, state, expiry}] whatever minting and
    saving do; when minting returns fresh proofs they are stored as UNSPENT
    rows of the wallet.  The other [catch] blocks never turn a failure into
    a success: the mint-call wrappers, the lightning-address resolution and
    the wallet creation rethrow, the rate route answers a success only with
    the rate service's own result, and the melt re-check succeeds only when
    the mint reports the quote PAID (its reclassification). *)
Theorem checkDepositQuote_swallows wallet w quoteId s q :
  checkMintQuoteBolt11 wallet quoteId = Ok q ->
  mint_state q = MINT_PAID ->
  (exists s', deposit_check_handler wallet w quoteId s =
     (s', Ok (mkDepositResponse (mint_quote q) (request q) (mint_state q) (expiry q)))) /\
  (forall proofs,
     mintProofsBolt11 wallet (mint_amount q) (mint_quote q) = Ok proofs ->
     fresh_proofs s proofs ->
     deposit_check_handler wallet w quoteId s =
       (mkStore (proof_rows s ++ new_rows (next_row_id s) w proofs UNSPENT)%list
                (next_row_id s + length proofs),
        Ok (mkDepositResponse (mint_quote q) (request q) (mint_state q) (expiry q)))) /\
  (forall (A : Type) e s0,
     @mint_call A (Throw e) s0 = (s0, Throw (app_error 500 CONNECTION_ERROR (exn_message e)))) /\
  (forall e s0, exists e', snd (pay_lnaddress_catch e s0) = Throw e') /\
  (forall walletDelete e s0, exists e', snd (create_wallet_catch walletDelete e s0) = Throw e') /\
  (forall currency now upstream cache c' r,
     rate_handler currency now upstream cache = (c', Ok r) ->
     getExchangeRate currency now upstream cache = (c', Ok r)) /\
  (forall mq sendSecrets e s0 s1 v,
     melt_recheck wallet w mq sendSecrets e s0 = (s1, Ok v) ->
     exists q', checkMeltQuoteBolt11 wallet (quote mq) = Ok q' /\ mq_state q' = MQ_PAID).
Proof.
  intros Hq Hpaid.
  assert (Hrun : forall s,
    deposit_check_handler wallet w quoteId s =
    match try_catch (proofs <- mintProofs wallet (mint_amount q) (mint_quote q) ;;
                     saveProofs w proofs UNSPENT) (fun _ => ret tt) s with
    | (s', Ok _) => (s', Ok (mkDepositResponse (mint_quote q) (request q)
                                               (mint_state q) (expiry q)))
    | (s', Throw e) => (s', Throw e)
    end).
  { intros s0; unfold deposit_check_handler, checkMintQuote, mint_call at 1, bind at 1.
    rewrite Hq; unfold ret at 1; cbv beta iota; rewrite Hpaid.
    unfold bind at 1; reflexivity. }
  split; [|split; [|split; [|split; [|split; [|split]]]]].
  - rewrite Hrun; unfold try_catch.
    match goal with |- context [match ?m s with _ => _ end] =>
      destruct (m s) as [s2 [u|e]] end; eexists; reflexivity.
  - intros proofs Hm [Nd Fr]; rewrite Hrun; unfold try_catch, bind, mintProofs, mint_call.
    rewrite Hm; unfold ret at 1; rewrite saveProofs_fresh by assumption; reflexivity.
  - intros A e s0; reflexivity.
  - intros e s0; eexists; reflexivity.
  - intros d e s0; destruct e as [a|c m|m]; simpl; [eexists; reflexivity| |];
      unfold bind; destruct (d s0) as [s2 [u|e']]; eexists; reflexivity.
  - intros currency now upstream cache c' r; unfold rate_handler.
    destruct (negb (isSupportedCurrency currency)); [intros H; discriminate H|].
    destruct (getExchangeRate currency now upstream cache) as [c2 [r2|e2]];
      intros H; [exact H | discriminate H].
  - intros mq sendSecrets e s0 s1 v; unfold melt_recheck, try_catch, bind, lift.
    destruct (checkMeltQuoteBolt11 wallet (quote mq)) as [q'|ce].
    + destruct (mq_state q') eqn:Hst; cbv zeta.
      * destruct (option_eq_Z _ 11002); [|destruct (option_eq_Z _ 11001)].
        -- destruct (syncProofsStateWithMint wallet w s0) as [s2 [c|e2]];
             [|destruct e2]; intros H; discriminate H.
        -- destruct (syncProofsStateWithMint wallet w s0) as [s2 [c|e2]];
             [|destruct e2]; intros H; discriminate H.
        -- intros H; discriminate H.
      * intros H; discriminate H.
      * intros _; exists q'; split; [reflexivity | exact Hst].
    + destruct ce; intros H; discriminate H.
Qed.

Lemma checkDepositQuote_swallows_witness :
  (exists s', deposit_check_handler (mint_deposit (Throw (ExnOther "quote already issued")))
                                    1 "quote-dep-1" store_s1 =
     (s', Ok (mkDepositResponse "quote-dep-1" "lnbc1000n1deposit" MINT_PAID 1700000000))) /\
  deposit_check_handler (mint_deposit (Ok [proof_k1])) 1 "quote-dep-1" store_s1 =
    (mkStore (proof_rows store_s1 ++ new_rows 1 1 [proof_k1] UNSPENT)%list 2,
     Ok (mkDepositResponse "quote-dep-1" "lnbc1000n1deposit" MINT_PAID 1700000000)).
Proof.
  split.
  - exact (proj1 (checkDepositQuote_swallows
                    (mint_deposit (Throw (ExnOther "quote already issued")))
                    1 "quote-dep-1" store_s1 quote_dep_paid eq_refl eq_refl)).
  - apply (proj1 (proj2 (checkDepositQuote_swallows (mint_deposit (Ok [proof_k1]))
                           1 "quote-dep-1" store_s1 quote_dep_paid eq_refl eq_refl))
                 [proof_k1] eq_refl).
    split; [repeat constructor; intros [] |].
    intros x Hx Hy; vm_compute in Hx, Hy.
    destruct Hx as [<-|[]]; destruct Hy as [H|[]]; discriminate.
Defined.

(** ** Balances as row sums *)

Lemma sum_amounts_acc ps a :
  fold_left (fun total p => (total + amount p)%Z) ps a = (a + sum_amounts ps)%Z.
Proof.
  unfold sum_amounts; revert a; induction ps as [|p ps IH]; intros a; simpl; [lia|].
  rewrite IH; lia.
Qed.

Lemma getProofsAmount_sum ps : getProofsAmount ps = sum_amounts ps.
Proof. unfold getProofsAmount; rewrite sum_amounts_acc; lia. Qed.

Lemma status_rows_sum w st rows :
  fold_right (fun r acc => (row_amount r + acc)%Z) 0%Z (rows_with w st rows)
  = row_sum (status_amount st w) rows.
Proof.
  unfold rows_with, row_sum, status_amount; induction rows as [|r rows IH]; simpl;
    [reflexivity|].
  destruct (_ && _); simpl; rewrite IH; reflexivity.
Qed.

Lemma rows_proofs_sum w st rows :
  sum_amounts (map row_to_proof (rows_with w st rows)) =
  fold_right (fun r acc => (row_amount r + acc)%Z) 0%Z (rows_with w st rows).
Proof.
  unfold sum_amounts; induction (rows_with w st rows) as [|r l IH]; simpl;
    [reflexivity|].
  rewrite IH; reflexivity.
Qed.

Lemma balance_inputs s w : balance s w = getProofsAmount (inputs_of s w).
Proof. unfold balance, inputs_of; rewrite getProofsAmount_sum, rows_proofs_sum; reflexivity. Qed.

Lemma pending_balance_pending s w : pending_balance s w = getProofsAmount (pending_of s w).
Proof.
  unfold pending_balance, pending_of; rewrite getProofsAmount_sum, rows_proofs_sum;
    reflexivity.
Qed.

Lemma balance_rows s w : balance s w = row_sum (status_amount UNSPENT w) (proof_rows s).
Proof. apply status_rows_sum. Qed.

Lemma pending_balance_rows s w :
  pending_balance s w = row_sum (status_amount PENDING w) (proof_rows s).
Proof. apply status_rows_sum. Qed.

Lemma status_amount_new_rows st0 w' n w ps st :
  row_sum (status_amount st0 w') (new_rows n w ps st) =
  if (w =? w')%Z && ProofStatus_eqb st st0 then sum_amounts ps else 0%Z.
Proof.
  revert n; unfold row_sum, sum_amounts; induction ps as [|p ps IH]; intros n; simpl.
  - destruct (_ && _); reflexivity.
  - rewrite IH; unfold status_amount, proof_row; simpl.
    destruct (_ && _); lia.
Qed.

Lemma ProofStatus_eqb_refl st : ProofStatus_eqb st st = true.
Proof. destruct st; reflexivity. Qed.

(** X1: [getWalletBalance] reports, for the UNSPENT and the PENDING proofs
    of the wallet, the same amounts [getProofsAmount] gives for what
    [loadProofs] returns; it writes nothing. *)
Theorem getWalletBalance_loadProofs w s :
  getWalletBalance w s = (s, Ok (mkWalletBalance (balance s w) (pending_balance s w))) /\
  loadProofs w None s = (s, Ok (inputs_of s w)) /\
  loadProofs w (Some PENDING) s = (s, Ok (pending_of s w)) /\
  balance s w = getProofsAmount (inputs_of s w) /\
  pending_balance s w = getProofsAmount (pending_of s w).
Proof.
  split; [reflexivity|]; split; [reflexivity|]; split; [reflexivity|].
  split; [apply balance_inputs | apply pending_balance_pending].
Qed.

(** X2: [receiveToken] passes a failure of the mint swap through unchanged
    and writes nothing; when the swap returns proofs that are new to the
    store, it stores them UNSPENT, which raises the wallet's balance by their
    amount and leaves its pending balance and every other wallet's sums as
    they were. *)
Theorem receiveToken_effect receive w tokenStr s :
  (forall e, receive tokenStr = Throw e ->
             receiveToken receive w tokenStr s = (s, Throw e)) /\
  (forall ps, receive tokenStr = Ok ps -> fresh_proofs s ps ->
   exists s', receiveToken receive w tokenStr s = (s', Ok ps) /\
     balance s' w = (balance s w + getProofsAmount ps)%Z /\
     pending_balance s' w = pending_balance s w /\
     (forall w', w' <> w ->
        balance s' w' = balance s w' /\ pending_balance s' w' = pending_balance s w')).
Proof.
  split.
  - intros e He; unfold receiveToken, bind, lift; rewrite He; reflexivity.
  - intros ps Hr [Hnd Hfr]; unfold receiveToken, bind, lift; rewrite Hr.
    rewrite (saveProofs_fresh w ps UNSPENT s Hnd Hfr).
    eexists; split; [reflexivity|].
    rewrite !balance_rows, !pending_balance_rows; simpl.
    rewrite !row_sum_app, !status_amount_new_rows, getProofsAmount_sum, Z.eqb_refl; simpl.
    split; [reflexivity|]; split; [lia|].
    intros w' Hw; rewrite !balance_rows, !pending_balance_rows; simpl.
    rewrite !row_sum_app, !status_amount_new_rows.
    apply Z.eqb_neq in Hw; rewrite Z.eqb_sym, Hw; simpl; split; lia.
Qed.

(** X3: [sendProofs] with an amount above the balance throws a 400
    validation error naming both numbers; with enough balance, a failing
    swap is passed through unchanged.  Neither writes to the store. *)
Theorem sendProofs_early_failure wallet w amt pk s :
  ((balance s w < amt)%Z ->
   sendProofs wallet w amt pk s =
   (s, Throw (app_error 400 VALIDATION_ERROR
                ("Insufficient balance: " ++ string_of_Z (balance s w) ++ " < "
                 ++ string_of_Z amt)))) /\
  (forall e, (amt <= balance s w)%Z ->
   (forall cfg, wallet_send wallet amt (inputs_of s w) true cfg = Throw e) ->
   sendProofs wallet w amt pk s = (s, Throw e)).
Proof.
  rewrite balance_inputs; split.
  - intros H; unfold sendProofs, bind, loadProofs, throw; fold (inputs_of s w).
    apply Z.ltb_lt in H; rewrite H; reflexivity.
  - intros e H Hs; unfold sendProofs, bind, loadProofs, lift; fold (inputs_of s w).
    apply Z.ltb_ge in H; rewrite H, Hs; reflexivity.
Qed.

(** X4: [meltProofs] with a quote whose amount plus fee reserve is above the
    balance throws a 400 validation error naming both numbers; with enough
    balance, a failing swap is passed through unchanged.  Neither writes to
    the store. *)
Theorem meltProofs_early_failure wallet w mq s :
  let amountNeeded := (mq_amount mq + fee_reserve mq)%Z in
  ((balance s w < amountNeeded)%Z ->
   meltProofs wallet w mq s =
   (s, Throw (app_error 400 VALIDATION_ERROR
                ("Insufficient balance for melt: " ++ string_of_Z (balance s w)
                 ++ " < " ++ string_of_Z amountNeeded)))) /\
  (forall e, (amountNeeded <= balance s w)%Z ->
   wallet_send wallet amountNeeded (inputs_of s w) false None = Throw e ->
   meltProofs wallet w mq s = (s, Throw e)).
Proof.
  intros amountNeeded; rewrite balance_inputs; split.
  - intros H; unfold meltProofs, bind, loadProofs, throw; fold (inputs_of s w).
    apply Z.ltb_lt in H; fold amountNeeded; rewrite H; reflexivity.
  - intros e H Hs; unfold meltProofs, bind, loadProofs, lift; fold (inputs_of s w).
    apply Z.ltb_ge in H; fold amountNeeded; rewrite H, Hs; reflexivity.
Qed.

Lemma receiveToken_effect_witness :
  receiveToken (fun _ => Throw mint_unreachable) 1 "cashuBtoken" store_s1
    = (store_s1, Throw mint_unreachable) /\
  fresh_proofs store_s1 [proof_k1] /\
  exists s', receiveToken (fun _ => Ok [proof_k1]) 1 "cashuBtoken" store_s1
               = (s', Ok [proof_k1]) /\
             balance s' 1 = 300%Z.
Proof.
  assert (Hfr : fresh_proofs store_s1 [proof_k1]).
  { split; [repeat constructor; intros []|].
    intros x Hx Hy; vm_compute in Hx, Hy.
    destruct Hx as [<-|[]]; destruct Hy as [H|[]]; discriminate. }
  split; [exact (proj1 (receiveToken_effect (fun _ => Throw mint_unreachable) 1
                          "cashuBtoken" store_s1) mint_unreachable eq_refl)|].
  split; [exact Hfr|].
  destruct (proj2 (receiveToken_effect (fun _ => Ok [proof_k1]) 1 "cashuBtoken" store_s1)
              [proof_k1] eq_refl Hfr) as [s' [H1 [H2 _]]].
  exists s'; split; [exact H1|]; rewrite H2; vm_compute; reflexivity.
Defined.

Lemma sendProofs_early_failure_witness :
  (balance store_s1 1 < 300)%Z /\
  sendProofs mint_send_happy 1 300 None store_s1 =
    (store_s1, Throw (app_error 400 VALIDATION_ERROR
                        ("Insufficient balance: " ++ string_of_Z (balance store_s1 1)
                         ++ " < " ++ string_of_Z 300))) /\
  (100 <= balance store_s1 1)%Z /\
  sendProofs mint_reconcile 1 100 None store_s1 = (store_s1, Throw mint_unreachable).
Proof.
  split; [vm_compute; reflexivity|].
  split; [apply (proj1 (sendProofs_early_failure mint_send_happy 1 300 None store_s1));
          vm_compute; reflexivity|].
  split; [vm_compute; discriminate|].
  apply (proj2 (sendProofs_early_failure mint_reconcile 1 100 None store_s1));
    [vm_compute; discriminate | intros cfg; reflexivity].
Defined.

Lemma meltProofs_early_failure_witness :
  (balance store_s1 1 < 300 + 10)%Z /\
  meltProofs mint_send_happy 1 (mkMeltQuote "quote-melt-2" 300 10 MQ_UNPAID) store_s1 =
    (store_s1, Throw (app_error 400 VALIDATION_ERROR
                        ("Insufficient balance for melt: " ++ string_of_Z (balance store_s1 1)
                         ++ " < " ++ string_of_Z (300 + 10)))) /\
  (90 + 10 <= balance store_s1 1)%Z /\
  meltProofs mint_reconcile 1 mq_melt store_s1 = (store_s1, Throw mint_unreachable).
Proof.
  split; [vm_compute; reflexivity|].
  split; [apply (proj1 (meltProofs_early_failure mint_send_happy 1
                          (mkMeltQuote "quote-melt-2" 300 10 MQ_UNPAID) store_s1));
          vm_compute; reflexivity|].
  split; [vm_compute; discriminate|].
  apply (proj2 (meltProofs_early_failure mint_reconcile 1 mq_melt store_s1));
    [vm_compute; discriminate | reflexivity].
Defined.

(** ** bearerAuthHandler *)

Lemma substring_all k : String.substring 0 (String.length k) k = k.
Proof. induction k as [|a k IH]; simpl; [reflexivity|]; rewrite IH; reflexivity. Qed.

Lemma prefix_split p h :
  String.prefix p h = true ->
  h = (p ++ String.substring (String.length p) (String.length h - String.length p) h)%string.
Proof.
  revert h; induction p as [|a p IH]; intros h H.
  - simpl; rewrite Nat.sub_0_r, substring_all; reflexivity.
  - destruct h as [|b h]; [discriminate|].
    simpl in H; destruct (ascii_dec a b) as [<-|]; [|discriminate].
    simpl; rewrite <- (IH h H); reflexivity.
Qed.

Lemma bearer_substring k :
  String.substring 7 (String.length ("Bearer " ++ k) - 7) ("Bearer " ++ k) = k.
Proof. simpl; rewrite Nat.sub_0_r; apply substring_all. Qed.

Lemma findUnique_key wallets wl :
  access_keys_unique wallets -> In wl wallets ->
  wallet_findUnique wallets (accessKey wl) = Some wl.
Proof.
  unfold access_keys_unique, wallet_findUnique; induction wallets as [|a l IH];
    intros Hnd Hin; [destruct Hin|].
  simpl in Hnd |- *; inversion Hnd as [|? ? Ha Hl]; subst.
  destruct Hin as [<-|Hin]; [rewrite String.eqb_refl; reflexivity|].
  destruct (String.eqb (accessKey a) (accessKey wl)) eqn:E; [|exact (IH Hl Hin)].
  apply String.eqb_eq in E; exfalso; apply Ha; rewrite E; apply in_map; exact Hin.
Qed.

(** X5: with the table's access keys distinct, the header
    ["Bearer " ++ accessKey] of a wallet with a non-empty key authenticates
    exactly that wallet. *)
Theorem bearerAuth_roundtrip wallets wl :
  access_keys_unique wallets -> In wl wallets -> accessKey wl <> "" ->
  bearerAuthHandler wallets (Some ("Bearer " ++ accessKey wl)) = Ok wl.
Proof.
  intros Hu Hin Hk; unfold bearerAuthHandler.
  replace (String.eqb ("Bearer " ++ accessKey wl) "") with false by reflexivity.
  replace (String.prefix "Bearer " ("Bearer " ++ accessKey wl)) with true
    by (destruct (accessKey wl); reflexivity).
  cbv beta iota zeta; rewrite bearer_substring.
  apply String.eqb_neq in Hk; rewrite Hk, findUnique_key by assumption; reflexivity.
Qed.

(** X6: every request [bearerAuthHandler] lets through carries the header
    ["Bearer " ++ k] for the non-empty key [k] of the table row it attaches;
    every request it rejects gets a 401 unauthorized error. *)
Theorem bearerAuth_sound wallets authorization :
  match bearerAuthHandler wallets authorization with
  | Ok wl => In wl wallets /\ accessKey wl <> "" /\
             authorization = Some ("Bearer " ++ accessKey wl)
  | Throw e => exists msg, e = app_error 401 UNAUTHORIZED_ERROR msg
  end.
Proof.
  unfold bearerAuthHandler.
  set (authHeader := match authorization with Some h => h | None => "" end).
  destruct (String.eqb authHeader "") eqn:E1; [eexists; reflexivity|].
  destruct (String.prefix "Bearer " authHeader) eqn:E2; [|eexists; reflexivity].
  simpl negb; cbv iota zeta.
  set (key := String.substring 7 (String.length authHeader - 7) authHeader).
  destruct (String.eqb key "") eqn:E3; [eexists; reflexivity|].
  destruct (wallet_findUnique wallets key) as [wl|] eqn:E4; [|eexists; reflexivity].
  unfold wallet_findUnique in E4; apply find_some in E4; destruct E4 as [Hin Hk].
  apply String.eqb_eq in Hk; rewrite Hk.
  split; [exact Hin|]; split; [apply String.eqb_neq; exact E3|].
  destruct authorization as [h|]; [|discriminate E1].
  f_equal; exact (prefix_split "Bearer " h E2).
Qed.

(** ** getWallet *)

(** X7: once [getWallet] has returned a wallet, every later call returns the
    same wallet whatever [MINT_URL] and the mint then answer; a failing call
    leaves nothing cached, so the next call builds the wallet again. *)
Theorem getWallet_cached {W} mintUrlEnv (loadMint : string -> Res W) _wallet :
  match getWallet mintUrlEnv loadMint _wallet with
  | (c', Ok w) => c' = Some w /\
                  forall mintUrlEnv' (loadMint' : string -> Res W),
                    getWallet mintUrlEnv' loadMint' c' = (c', Ok w)
  | (c', Throw _) => _wallet = None /\ c' = None
  end.
Proof.
  unfold getWallet; destruct _wallet as [w|].
  - split; reflexivity.
  - cbv zeta; destruct (String.eqb _ ""); [split; reflexivity|].
    destruct (loadMint _) as [w|e]; split; reflexivity.
Qed.

(** ** Reuse of the rate cache *)

Lemma ascii_upper_lower a : ascii_upper (ascii_lower a) = ascii_upper a.
Proof.
  destruct a as [b0 b1 b2 b3 b4 b5 b6 b7];
    destruct b0, b1, b2, b3, b4, b5, b6, b7; reflexivity.
Qed.

Lemma toUpperCase_toLowerCase s : toUpperCase (toLowerCase s) = toUpperCase s.
Proof.
  unfold toUpperCase, toLowerCase; induction s as [|a s IH]; simpl; [reflexivity|].
  rewrite IH, ascii_upper_lower; reflexivity.
Qed.

Lemma assoc_lookup_filter_other {A} k k' (l : list (string * A)) :
  k <> k' ->
  assoc_lookup k (filter (fun kv => negb (String.eqb (fst kv) k')) l) = assoc_lookup k l.
Proof.
  intros Hk; induction l as [|[k0 v0] l IH]; simpl; [reflexivity|].
  destruct (String.eqb k0 k') eqn:E; simpl.
  - apply String.eqb_eq in E; subst k0.
    apply String.eqb_neq in Hk; rewrite Hk; exact IH.
  - rewrite IH; reflexivity.
Qed.

Lemma assoc_lookup_set {A} k k' (v : A) l :
  assoc_lookup k (assoc_set k' v l) = if String.eqb k k' then Some v else assoc_lookup k l.
Proof.
  unfold assoc_set; simpl; destruct (String.eqb k k') eqn:E; [reflexivity|].
  apply String.eqb_neq in E; apply assoc_lookup_filter_other; exact E.
Qed.

Lemma cache_rates_cons cur r rates now c :
  cache_rates ((cur, r) :: rates) now c =
  cache_rates rates now
    (if rate_ok r
     then assoc_set cur (mkRateResponse (toUpperCase cur) (SATOSHIS_PER_BTC / r) now) c
     else c).
Proof. reflexivity. Qed.

Lemma cache_rates_other k rates now c :
  ~ In k (map fst rates) -> assoc_lookup k (cache_rates rates now c) = assoc_lookup k c.
Proof.
  revert c; induction rates as [|[cur r] rates IH]; intros c Hk; [reflexivity|].
  rewrite cache_rates_cons, IH by (intros H; apply Hk; right; exact H).
  destruct (rate_ok r); [|reflexivity].
  rewrite assoc_lookup_set; destruct (String.eqb k cur) eqn:E; [|reflexivity].
  apply String.eqb_eq in E; subst; exfalso; apply Hk; left; reflexivity.
Qed.

Lemma cache_rates_hit k r rates now c :
  NoDup (map fst rates) -> assoc_lookup k rates = Some r -> rate_ok r = true ->
  assoc_lookup k (cache_rates rates now c)
  = Some (mkRateResponse (toUpperCase k) (SATOSHIS_PER_BTC / r) now).
Proof.
  revert c; induction rates as [|[cur r'] rates IH]; intros c Hnd Hl Hok; [discriminate|].
  simpl in Hnd; inversion Hnd as [|? ? Hcur Hnd']; subst.
  rewrite cache_rates_cons; simpl in Hl.
  destruct (String.eqb k cur) eqn:E.
  - apply String.eqb_eq in E; subst cur; injection Hl as ->; rewrite Hok.
    rewrite cache_rates_other by exact Hcur.
    rewrite assoc_lookup_set, String.eqb_refl; reflexivity.
  - exact (IH _ Hnd' Hl Hok).
Qed.

Lemma getExchangeRate_fresh currency now upstream cache x :
  assoc_lookup (toLowerCase currency) cache = Some x ->
  (now - timestamp x < RATE_CACHE_TTL_MS)%Z ->
  getExchangeRate currency now upstream cache = (cache, Ok x).
Proof.
  intros Hc Ht; unfold getExchangeRate; cbv zeta; rewrite Hc.
  apply Z.ltb_lt in Ht; rewrite Ht; reflexivity.
Qed.

Lemma getExchangeRate_caches currency now upstream cache cache' r :
  (forall rates, fetchRatesFromCoinGecko upstream = Ok rates -> NoDup (map fst rates)) ->
  getExchangeRate currency now upstream cache = (cache', Ok r) ->
  assoc_lookup (toLowerCase currency) cache' = Some r.
Proof.
  intros Hnd H; unfold getExchangeRate in H; cbv zeta in H.
  destruct (assoc_lookup (toLowerCase currency) cache) as [c0|] eqn:Hc.
  - destruct (now - timestamp c0 <? RATE_CACHE_TTL_MS)%Z;
      [injection H as <- <-; exact Hc|].
    destruct (negb _); [discriminate|].
    destruct (fetchRatesFromCoinGecko upstream) as [rates|e] eqn:Hf;
      [|injection H as <- <-; exact Hc].
    destruct (assoc_lookup (toLowerCase currency) rates) as [rif|] eqn:Hr;
      [|injection H as <- <-; exact Hc].
    destruct (rate_ok rif) eqn:Hok; [|injection H as <- <-; exact Hc].
    injection H as <- <-.
    rewrite (cache_rates_hit _ rif) by auto.
    rewrite toUpperCase_toLowerCase; reflexivity.
  - destruct (negb _); [discriminate|].
    destruct (fetchRatesFromCoinGecko upstream) as [rates|e] eqn:Hf; [|discriminate].
    destruct (assoc_lookup (toLowerCase currency) rates) as [rif|] eqn:Hr; [|discriminate].
    destruct (rate_ok rif) eqn:Hok; [|discriminate].
    injection H as <- <-.
    rewrite (cache_rates_hit _ rif) by auto.
    rewrite toUpperCase_toLowerCase; reflexivity.
Qed.

(** X8: a rate [getExchangeRate] has returned is returned again, from the
    cache it left and without any request, to every later call for the same
    currency in any letter case made while the rate is younger than the
    two-minute TTL; this holds when each upstream response names a currency
    at most once, as a JSON object does. *)
Theorem getExchangeRate_reuse currency currency' now now' upstream upstream' cache
    cache' r :
  (forall rates, fetchRatesFromCoinGecko upstream = Ok rates -> NoDup (map fst rates)) ->
  toLowerCase currency' = toLowerCase currency ->
  getExchangeRate currency now upstream cache = (cache', Ok r) ->
  (now' - timestamp r < RATE_CACHE_TTL_MS)%Z ->
  getExchangeRate currency' now' upstream' cache' = (cache', Ok r).
Proof.
  intros Hnd Hcur H Ht; apply getExchangeRate_fresh; [|exact Ht].
  rewrite Hcur; exact (getExchangeRate_caches _ _ _ _ _ _ Hnd H).
Qed.

Lemma bearerAuth_roundtrip_witness :
  access_keys_unique [wallet_a; wallet_b] /\
  bearerAuthHandler [wallet_a; wallet_b] (Some ("Bearer " ++ accessKey wallet_b)) = Ok wallet_b.
Proof.
  assert (Hu : access_keys_unique [wallet_a; wallet_b]).
  { unfold access_keys_unique; simpl; repeat constructor; simpl; intuition discriminate. }
  split; [exact Hu|].
  apply bearerAuth_roundtrip; [exact Hu | right; left; reflexivity | discriminate].
Defined.

Lemma getExchangeRate_reuse_witness :
  (forall rates, fetchRatesFromCoinGecko coingecko_ok = Ok rates -> NoDup (map fst rates)) /\
  getExchangeRate "USD" 0 coingecko_ok [] =
    (cache_rates [("usd", 50000 # 1); ("eur", 45000 # 1)] 0 [],
     Ok (mkRateResponse "USD" (SATOSHIS_PER_BTC / (50000 # 1)) 0)) /\
  getExchangeRate "usd" 60000 TimerFired
    (cache_rates [("usd", 50000 # 1); ("eur", 45000 # 1)] 0 []) =
    (cache_rates [("usd", 50000 # 1); ("eur", 45000 # 1)] 0 [],
     Ok (mkRateResponse "USD" (SATOSHIS_PER_BTC / (50000 # 1)) 0)).
Proof.
  assert (Hnd : forall rates, fetchRatesFromCoinGecko coingecko_ok = Ok rates ->
                              NoDup (map fst rates)).
  { intros rates H; vm_compute in H; injection H as <-; simpl.
    repeat constructor; simpl; intuition discriminate. }
  assert (H1 : getExchangeRate "USD" 0 coingecko_ok [] =
    (cache_rates [("usd", 50000 # 1); ("eur", 45000 # 1)] 0 [],
     Ok (mkRateResponse "USD" (SATOSHIS_PER_BTC / (50000 # 1)) 0))).
  { vm_compute; reflexivity. }
  split; [exact Hnd|]; split; [exact H1|].
  apply (getExchangeRate_reuse "USD" "usd" 0 60000 coingecko_ok TimerFired [] _ _ Hnd
           eq_refl H1).
  vm_compute; reflexivity.
Defined.

(** ** The route handlers *)

Lemma validateUnit_ok wallet u : validateUnit wallet u = Ok tt -> u = Some (wallet_unit wallet).
Proof.
  unfold validateUnit, truthy; destruct u as [u|]; simpl; [|discriminate].
  destruct (String.eqb u ""); simpl; [discriminate|].
  destruct (String.eqb u (wallet_unit wallet)) eqn:E; [|discriminate].
  apply String.eqb_eq in E; subst; reflexivity.
Qed.

Lemma validateUnit_error wallet u e :
  validateUnit wallet u = Throw e -> exists msg, e = app_error 400 VALIDATION_ERROR msg.
Proof.
  unfold validateUnit; destruct (negb (truthy u)).
  - intros H; injection H as <-; eexists; reflexivity.
  - destruct (String.eqb _ _); [discriminate|].
    intros H; injection H as <-; eexists; reflexivity.
Qed.

Lemma effectiveLimit_le walletLimit env fallback :
  (effectiveLimit walletLimit env fallback <= envLimit env fallback)%Z /\
  (forall l, walletLimit = Some l -> (effectiveLimit walletLimit env fallback <= l)%Z).
Proof.
  unfold effectiveLimit; destruct walletLimit as [l|]; split.
  - apply Z.le_min_r.
  - intros l' H; injection H as <-; apply Z.le_min_l.
  - lia.
  - discriminate.
Qed.

(** X9: POST /wallet/deposit never writes to the store, and it returns a
    deposit quote only when the request's unit is the wallet's, the amount is
    positive and the balance plus the amount stays within both the global
    MAX_BALANCE and the wallet's own maxBalance; the quote is the one the mint
    created for that amount. *)
Theorem deposit_create_guard createMintQuoteBolt11 envMaxBalance wallet amount u s :
  fst (deposit_create_handler createMintQuoteBolt11 envMaxBalance wallet amount u s) = s /\
  (forall d,
     snd (deposit_create_handler createMintQuoteBolt11 envMaxBalance wallet amount u s)
       = Ok d ->
     u = Some (wallet_unit wallet) /\ (0 < amount)%Z /\
     (balance s (wallet_id wallet) + amount <= envLimit envMaxBalance 100000)%Z /\
     (forall l, maxBalance wallet = Some l ->
                (balance s (wallet_id wallet) + amount <= l)%Z) /\
     exists q, createMintQuoteBolt11 amount = Ok q /\
               d = mkDepositResponse (mint_quote q) (request q) (mint_state q) (expiry q)).
Proof.
  unfold deposit_create_handler, bind, lift.
  destruct (validateUnit wallet u) as [[]|e] eqn:Hv; [|split; [reflexivity | discriminate]].
  destruct (amount <=? 0)%Z eqn:Ha; [split; [reflexivity | discriminate]|].
  unfold getWalletBalance; cbn [wb_balance].
  change (aggregate_amount (wallet_id wallet) UNSPENT (proof_rows s))
    with (balance s (wallet_id wallet)).
  destruct (balance s (wallet_id wallet) + amount
            >? effectiveLimit (maxBalance wallet) envMaxBalance 100000)%Z eqn:Hb;
    [split; [reflexivity | discriminate]|].
  unfold mint_call; destruct (createMintQuoteBolt11 amount) as [q|e] eqn:Hq;
    [|split; [reflexivity | discriminate]].
  split; [reflexivity|]; intros d Hd; injection Hd as <-.
  apply Z.leb_gt in Ha; rewrite Z.gtb_ltb in Hb; apply Z.ltb_ge in Hb.
  destruct (effectiveLimit_le (maxBalance wallet) envMaxBalance 100000) as [L1 L2].
  split; [exact (validateUnit_ok _ _ Hv)|]; split; [exact Ha|]; split; [lia|].
  split; [intros l Hl; specialize (L2 l Hl); lia|].
  exists q; split; reflexivity.
Qed.

(** X10: POST /wallet/send rejects with a 400 error, before touching the
    store, a request whose unit is not the wallet's, that carries a cashu
    payment request, whose amount is not positive or whose amount is above
    the effective max-send limit; when it answers, all these checks passed,
    [sendProofs] ran for that amount, and the response reports the amount of
    the send proofs and the token encoded from them. *)
Theorem send_handler_guard wm decode enc mintUrlEnv envMaxSend wallet amount u memo lock
    creq s :
  ((validateUnit wallet u <> Ok tt \/ truthy creq = true \/ (amount <= 0)%Z \/
    (effectiveLimit (maxSend wallet) envMaxSend 50000 < amount)%Z) ->
   exists k msg, send_handler wm decode enc mintUrlEnv envMaxSend wallet amount u memo
                   lock creq s = (s, Throw (app_error 400 k msg))) /\
  (forall s' resp,
   send_handler wm decode enc mintUrlEnv envMaxSend wallet amount u memo lock creq s
     = (s', Ok resp) ->
   u = Some (wallet_unit wallet) /\ truthy creq = false /\ (0 < amount)%Z /\
   (amount <= envLimit envMaxSend 50000)%Z /\
   (forall l, maxSend wallet = Some l -> (amount <= l)%Z) /\
   exists p2pk keep send,
     sendProofs wm (wallet_id wallet) amount p2pk s = (s', Ok (keep, send)) /\
     resp = mkSendResponse
              (enc (match mintUrlEnv with Some x => x | None => "" end) send memo
                   (wallet_unit wallet))
              (getProofsAmount send) (wallet_unit wallet) memo).
Proof.
  split.
  - intros Hc; unfold send_handler, bind, lift, throw.
    destruct (validateUnit wallet u) as [[]|e] eqn:Hv.
    + destruct (truthy creq); [do 2 eexists; reflexivity|].
      destruct (amount <=? 0)%Z eqn:Ha; [do 2 eexists; reflexivity|].
      destruct (amount >? effectiveLimit (maxSend wallet) envMaxSend 50000)%Z eqn:Hl;
        [do 2 eexists; reflexivity|].
      exfalso; apply Z.leb_gt in Ha; rewrite Z.gtb_ltb in Hl; apply Z.ltb_ge in Hl.
      destruct Hc as [Hc|[Hc|[Hc|Hc]]]; [exact (Hc eq_refl)|discriminate|lia|lia].
    + destruct (validateUnit_error _ _ _ Hv) as [msg ->]; do 2 eexists; reflexivity.
  - intros s' resp H; unfold send_handler, bind, lift, throw in H.
    destruct (validateUnit wallet u) as [[]|e] eqn:Hv; [|discriminate].
    destruct (truthy creq) eqn:Hcr; [discriminate|].
    destruct (amount <=? 0)%Z eqn:Ha; [discriminate|].
    destruct (amount >? effectiveLimit (maxSend wallet) envMaxSend 50000)%Z eqn:Hl;
      [discriminate|].
    apply Z.leb_gt in Ha; rewrite Z.gtb_ltb in Hl; apply Z.ltb_ge in Hl.
    destruct (effectiveLimit_le (maxSend wallet) envMaxSend 50000) as [L1 L2].
    split; [exact (validateUnit_ok _ _ Hv)|]; split; [reflexivity|]; split; [exact Ha|].
    split; [lia|]; split; [intros l Hlm; specialize (L2 l Hlm); lia|].
    match type of H with
    | (match ?m s with _ => _ end) = _ =>
        destruct (m s) as [s1 [p2pk|e]] eqn:Hp; [|discriminate]
    end.
    assert (Hs1 : s1 = s).
    { revert Hp; destruct lock as [pk|]; [destruct (truthy (Some pk))|];
        unfold ret, bind, lift; [destruct (normalizePubkey decode pk)|..];
        intros Hp; injection Hp; auto. }
    subst s1.
    destruct (sendProofs wm (wallet_id wallet) amount p2pk s) as [s2 [[keep send]|e]] eqn:Hs;
      [|discriminate].
    injection H as <- <-.
    exists p2pk, keep, send; split; [exact Hs | reflexivity].
Qed.

(** X11: POST /wallet/pay compares the max-pay limit with the request's
    [amount] field only: with a bolt11 invoice, a matching unit and an amount
    field that is 0 or within the limit, the route melts the quote the mint
    creates for the invoice, whatever the quote's own amount, and never
    resolves the lightning address. *)
Theorem pay_handler_bolt11 wm createMeltQuoteBolt11 resolveLightningAddress envMaxPay
    wallet b lightning_address amount u s mq :
  validateUnit wallet u = Ok tt -> b <> "" ->
  (amount = 0 \/ amount <= effectiveLimit (maxPay wallet) envMaxPay 50000)%Z ->
  createMeltQuoteBolt11 b = Ok mq ->
  pay_handler wm createMeltQuoteBolt11 resolveLightningAddress envMaxPay wallet (Some b)
    lightning_address amount u s =
  match meltProofs wm (wallet_id wallet) mq s with
  | (s', Ok r) => (s', Ok (fst r))
  | (s', Throw e) => (s', Throw e)
  end.
Proof.
  intros Hv Hb Ha Hq.
  assert (Ht : truthy (Some b) = true).
  { unfold truthy; apply String.eqb_neq in Hb; rewrite Hb; reflexivity. }
  assert (Hl : (negb (amount =? 0) &&
                (amount >? effectiveLimit (maxPay wallet) envMaxPay 50000))%Z = false).
  { destruct Ha as [->|Ha]; [reflexivity|].
    rewrite Z.gtb_ltb; apply Z.ltb_ge in Ha; rewrite Ha, andb_false_r; reflexivity. }
  unfold pay_handler, bind, lift; cbv zeta; rewrite Hv, Ht, Hl.
  cbv beta iota delta [negb andb].
  destruct lightning_address as [la|]; [destruct (truthy (Some la))|]; unfold ret;
    cbv beta iota; rewrite Ht; cbv beta iota delta [negb];
    unfold mint_call; rewrite Hq; unfold ret;
    destruct (meltProofs wm (wallet_id wallet) mq s) as [s' [r|e]]; reflexivity.
Qed.

Lemma receiveToken_run receive w tokenStr s ps :
  receive tokenStr = Ok ps -> fresh_proofs s ps ->
  receiveToken receive w tokenStr s =
  (mkStore (proof_rows s ++ new_rows (next_row_id s) w ps UNSPENT)%list
           (next_row_id s + length ps), Ok ps).
Proof.
  intros Hr [Hnd Hfr]; unfold receiveToken, bind, lift; rewrite Hr.
  rewrite (saveProofs_fresh w ps UNSPENT s Hnd Hfr); reflexivity.
Qed.

Lemma append_unspent_sums s n m w ps w' :
  balance (mkStore (proof_rows s ++ new_rows n w ps UNSPENT)%list m) w'
    = (balance s w' + if (w =? w')%Z then sum_amounts ps else 0)%Z /\
  pending_balance (mkStore (proof_rows s ++ new_rows n w ps UNSPENT)%list m) w'
    = pending_balance s w'.
Proof.
  rewrite !balance_rows, !pending_balance_rows; simpl.
  rewrite !row_sum_app, !status_amount_new_rows; simpl.
  rewrite !andb_true_r, !andb_false_r; split; [reflexivity | lia].
Qed.

(** X12: POST /wallet/receive checks the limit against the token's face
    value: when the balance plus that value is above the effective max
    balance, it rejects with a 400 limit error before any swap and writes
    nothing; otherwise, when the swap returns proofs new to the store, it
    answers with their amount and a balance that has grown by exactly that
    amount, the pending balance unchanged. *)
Theorem receive_handler_limit getDecodedToken receive envMaxBalance wallet tokenStr s
    token :
  tokenStr <> "" -> getDecodedToken tokenStr = Ok token ->
  let w := wallet_id wallet in
  let maxB := effectiveLimit (maxBalance wallet) envMaxBalance 100000 in
  let tokenAmount := getProofsAmount (token_proofs token) in
  ((maxB < balance s w + tokenAmount)%Z ->
   receive_handler getDecodedToken receive envMaxBalance wallet tokenStr s =
   (s, Throw (app_error 400 LIMIT_ERROR
                ("Receiving " ++ string_of_Z tokenAmount ++ " would exceed max balance of "
                 ++ string_of_Z maxB)))) /\
  (forall ps, (balance s w + tokenAmount <= maxB)%Z ->
   receive tokenStr = Ok ps -> fresh_proofs s ps ->
   exists s', receive_handler getDecodedToken receive envMaxBalance wallet tokenStr s =
     (s', Ok (mkReceiveResponse (getProofsAmount ps) (wallet_unit wallet)
                (balance s w + getProofsAmount ps) (pending_balance s w)))).
Proof.
  intros Hts Hd; cbv zeta.
  apply String.eqb_neq in Hts.
  unfold receive_handler, bind, lift, getWalletBalance; rewrite Hts, Hd; cbv beta iota zeta.
  change (aggregate_amount (wallet_id wallet) UNSPENT (proof_rows s))
    with (balance s (wallet_id wallet)).
  cbn [wb_balance pendingBalance].
  split.
  - intros Hl; apply Z.ltb_lt in Hl; rewrite Z.gtb_ltb, Hl; reflexivity.
  - intros ps Hl Hr Hfr; apply Z.ltb_ge in Hl; rewrite Z.gtb_ltb, Hl.
    rewrite (receiveToken_run receive (wallet_id wallet) tokenStr s ps Hr Hfr).
    destruct (append_unspent_sums s (next_row_id s) (next_row_id s + length ps)
                (wallet_id wallet) ps (wallet_id wallet)) as [H1 H2].
    unfold balance in H1; unfold pending_balance in H2; simpl proof_rows in H1, H2.
    unfold ret, aggregate_amount; cbv beta iota; cbn [wb_balance pendingBalance proof_rows].
    rewrite H1, H2, Z.eqb_refl, getProofsAmount_sum; eexists; reflexivity.
Qed.

(** ** POST /wallet/check *)

Lemma checkTokenState_ok getDecodedToken wm tokenStr sts token :
  checkTokenState getDecodedToken wm tokenStr = Ok (sts, token) ->
  getDecodedToken tokenStr = Ok token.
Proof.
  unfold checkTokenState; destruct (getDecodedToken tokenStr) as [t|e]; [|discriminate].
  destruct (checkProofsStates wm (token_proofs t)); [|discriminate].
  intros H; injection H as _ ->; reflexivity.
Qed.

Lemma secrets_in_state_sub ps sts c x :
  In x (secrets_in_state ps sts c) -> In x (map secret ps).
Proof.
  unfold secrets_in_state, proofs_in_state; rewrite map_map; intros H.
  apply in_map_iff in H; destruct H as [[i p] [<- H]]; apply filter_In in H.
  destruct H as [H _]; apply in_combine_r in H; apply in_map; exact H.
Qed.

Lemma update_two w xs1 xs2 r :
  let r' := update_row w xs2 PENDING (update_row w xs1 SPENT r) in
  r' = r \/
  (walletId r = w /\ (In (row_secret r) xs1 \/ In (row_secret r) xs2) /\
   (status r' = SPENT \/ status r' = PENDING) /\ r' = set_status r (status r')).
Proof.
  cbv zeta; destruct r; unfold update_row, set_status; simpl.
  destruct ((walletId0 =? w)%Z && mem row_secret0 xs1) eqn:E1; simpl;
    destruct ((walletId0 =? w)%Z && mem row_secret0 xs2) eqn:E2; simpl;
    try (left; reflexivity); right;
    repeat match goal with
    | H : (_ && _) = true |- _ => apply andb_true_iff in H; destruct H as [? ?]
    end;
    repeat match goal with
    | H : (_ =? _)%Z = true |- _ => apply Z.eqb_eq in H
    | H : mem _ _ = true |- _ => apply mem_In in H
    end;
    (split; [assumption|]); (split; [tauto|]); split; auto.
Qed.

(** X13: POST /wallet/check never adds or removes a row, never makes a row
    UNSPENT, and changes only the status of rows of the caller's wallet
    whose secret is one of the token's proofs, setting it to SPENT or
    PENDING. *)
Theorem check_handler_frame getDecodedToken wm wallet tokenStr s :
  let s' := fst (check_handler getDecodedToken wm wallet tokenStr s) in
  next_row_id s' = next_row_id s /\
  length (proof_rows s') = length (proof_rows s) /\
  forall i r', nth_error (proof_rows s') i = Some r' ->
    exists r, nth_error (proof_rows s) i = Some r /\
      (r' = r \/
       (walletId r = wallet_id wallet /\ (status r' = SPENT \/ status r' = PENDING) /\
        r' = set_status r (status r') /\
        exists token, getDecodedToken tokenStr = Ok token /\
                      In (row_secret r) (map secret (token_proofs token)))).
Proof.
  cbv zeta; unfold check_handler, bind, lift, throw.
  destruct (String.eqb tokenStr "").
  { simpl; split; [reflexivity|]; split; [reflexivity|].
    intros i r' H; exists r'; split; [exact H | left; reflexivity]. }
  destruct (checkTokenState getDecodedToken wm tokenStr) as [[sts token]|e] eqn:Hc.
  2:{ simpl; split; [reflexivity|]; split; [reflexivity|].
      intros i r' H; exists r'; split; [exact H | left; reflexivity]. }
  apply checkTokenState_ok in Hc.
  rewrite when_update_run, update_rows_run; cbv beta iota.
  rewrite when_update_run, update_rows_run; cbv beta iota; simpl.
  rewrite !length_map; split; [reflexivity|]; split; [reflexivity|].
  intros i r' H; rewrite nth_error_map, nth_error_map in H.
  destruct (nth_error (proof_rows s) i) as [r|]; [|discriminate].
  injection H as <-; exists r; split; [reflexivity|].
  destruct (update_two (wallet_id wallet) (secrets_in_state (token_proofs token) sts CS_SPENT)
              (secrets_in_state (token_proofs token) sts CS_PENDING) r)
    as [H|[Hw [Hx [Hs Hr]]]]; [left; exact H|].
  right; split; [exact Hw|]; split; [exact Hs|]; split; [exact Hr|].
  exists token; split; [exact Hc|].
  destruct Hx as [Hx|Hx]; exact (secrets_in_state_sub _ _ _ _ Hx).
Qed.

Lemma deposit_create_guard_witness :
  exists d,
    snd (deposit_create_handler (fun _ => Ok quote_dep_paid) None wallet_b 100 (Some "sat")
           store_s1) = Ok d /\
    (balance store_s1 (wallet_id wallet_b) + 100 <= 1000)%Z.
Proof.
  assert (Hd : snd (deposit_create_handler (fun _ => Ok quote_dep_paid) None wallet_b 100
                      (Some "sat") store_s1)
               = Ok (mkDepositResponse "quote-dep-1" "lnbc1000n1deposit" MINT_PAID 1700000000)).
  { vm_compute; reflexivity. }
  exists (mkDepositResponse "quote-dep-1" "lnbc1000n1deposit" MINT_PAID 1700000000).
  split; [exact Hd|].
  destruct (proj2 (deposit_create_guard (fun _ => Ok quote_dep_paid) None wallet_b 100
                     (Some "sat") store_s1) _ Hd) as [_ [_ [_ [H _]]]].
  apply H; reflexivity.
Defined.

Lemma send_handler_guard_witness :
  (exists k msg,
     send_handler mint_send_happy (fun _ => DecodeFailed "unused") (fun _ _ _ _ => "cashuB")
       None None wallet_b 100 (Some "sat") None None None store_s1
     = (store_s1, Throw (app_error 400 k msg))) /\
  exists s' resp,
    send_handler mint_send_happy (fun _ => DecodeFailed "unused") (fun _ _ _ _ => "cashuB")
      None None wallet_b 40 (Some "sat") None None None store_s1 = (s', Ok resp) /\
    (40 <= 50)%Z.
Proof.
  split.
  - apply (proj1 (send_handler_guard mint_send_happy (fun _ => DecodeFailed "unused")
                    (fun _ _ _ _ => "cashuB") None None wallet_b 100 (Some "sat") None None
                    None store_s1)).
    right; right; right; vm_compute; reflexivity.
  - assert (H : send_handler mint_send_happy (fun _ => DecodeFailed "unused")
                  (fun _ _ _ _ => "cashuB") None None wallet_b 40 (Some "sat") None None None
                  store_s1
                = (store_send_happy, Ok (mkSendResponse "cashuB" 100 "sat" None))).
    { vm_compute; reflexivity. }
    exists store_send_happy, (mkSendResponse "cashuB" 100 "sat" None); split; [exact H|].
    destruct (proj2 (send_handler_guard mint_send_happy (fun _ => DecodeFailed "unused")
                       (fun _ _ _ _ => "cashuB") None None wallet_b 40 (Some "sat") None None
                       None store_s1) _ _ H) as [_ [_ [_ [_ [L _]]]]].
    apply L; reflexivity.
Defined.

Lemma pay_handler_bolt11_witness :
  (effectiveLimit (maxPay wallet_b) None 50000 < mq_amount mq_melt)%Z /\
  pay_handler (mint_melt (Ok (mkMeltResponse (melt_checked MQ_PAID) [proof_change1]))
                         (Throw mint_unreachable))
              (fun _ => Ok mq_melt) (fun _ _ => Throw mint_unreachable) None wallet_b
              (Some "lnbc900n1invoice") (Some "alice@example.com") 0 (Some "sat") store_s1
  = match meltProofs (mint_melt (Ok (mkMeltResponse (melt_checked MQ_PAID) [proof_change1]))
                                (Throw mint_unreachable)) 1 mq_melt store_s1 with
    | (s', Ok r) => (s', Ok (fst r))
    | (s', Throw e) => (s', Throw e)
    end.
Proof.
  split; [vm_compute; reflexivity|].
  apply pay_handler_bolt11; [reflexivity | discriminate | left; reflexivity | reflexivity].
Defined.

Lemma receive_handler_limit_witness :
  receive_handler (fun _ => Ok (token_of [proof_big])) (fun _ => Ok [proof_k1]) None wallet_b
    "cashuBbig" store_s1 =
    (store_s1, Throw (app_error 400 LIMIT_ERROR
                        "Receiving 900 would exceed max balance of 1000")) /\
  exists s',
    receive_handler (fun _ => Ok (token_of [proof_send1])) (fun _ => Ok [proof_k1]) None
      wallet_b "cashuBsmall" store_s1 = (s', Ok (mkReceiveResponse 100 "sat" 300 0)).
Proof.
  assert (Hfr : fresh_proofs store_s1 [proof_k1]).
  { split; [repeat constructor; intros []|].
    intros x Hx Hy; vm_compute in Hx, Hy.
    destruct Hx as [<-|[]]; destruct Hy as [H|[]]; discriminate. }
  split.
  - pose proof (receive_handler_limit (fun _ => Ok (token_of [proof_big]))
                  (fun _ => Ok [proof_k1]) None wallet_b "cashuBbig" store_s1
                  (token_of [proof_big]) ltac:(discriminate) eq_refl) as T.
    cbv zeta in T; rewrite (proj1 T) by (vm_compute; reflexivity).
    vm_compute; reflexivity.
  - pose proof (receive_handler_limit (fun _ => Ok (token_of [proof_send1]))
                  (fun _ => Ok [proof_k1]) None wallet_b "cashuBsmall" store_s1
                  (token_of [proof_send1]) ltac:(discriminate) eq_refl) as T.
    cbv zeta in T.
    destruct (proj2 T [proof_k1] ltac:(vm_compute; discriminate) eq_refl Hfr) as [s' Hs].
    exists s'; rewrite Hs; vm_compute; reflexivity.
Defined.

(** ** The balances around a send *)

Lemma row_sum_ext_in f g l : (forall r, In r l -> f r = g r) -> row_sum f l = row_sum g l.
Proof.
  unfold row_sum; induction l as [|r l IH]; simpl; intros H; [reflexivity|].
  rewrite (H r (or_introl eq_refl)), IH by (intros; apply H; right; assumption).
  reflexivity.
Qed.

Lemma status_amount_update_other st0 w' w xs st r :
  w' <> w -> status_amount st0 w' (update_row w xs st r) = status_amount st0 w' r.
Proof.
  intros Hw; unfold update_row; destruct ((walletId r =? w)%Z && mem _ _) eqn:E; [|reflexivity].
  apply andb_true_iff in E; destruct E as [E _]; apply Z.eqb_eq in E.
  unfold status_amount; simpl; rewrite E.
  apply Z.eqb_neq in Hw; rewrite Z.eqb_sym, Hw; reflexivity.
Qed.

Lemma status_amount_other_wallet st0 w' r : walletId r <> w' -> status_amount st0 w' r = 0%Z.
Proof. intros H; unfold status_amount; apply Z.eqb_neq in H; rewrite H; reflexivity. Qed.

(** The share of the rows that carry the secrets of a filter of the
    wallet's [st] proofs. *)
Lemma filter_rows_sum w st g rows :
  sum_amounts (filter (fun p => g (secret p)) (map row_to_proof (rows_with w st rows))) =
  row_sum (fun r => if (walletId r =? w)%Z && ProofStatus_eqb (status r) st
                       && g (row_secret r) then row_amount r else 0%Z) rows.
Proof.
  unfold rows_with, row_sum, sum_amounts; induction rows as [|r rows IH]; simpl;
    [reflexivity|].
  destruct ((walletId r =? w)%Z && ProofStatus_eqb (status r) st) eqn:E; simpl.
  - destruct (g (row_secret r)); simpl; rewrite IH; reflexivity.
  - rewrite IH; reflexivity.
Qed.

Lemma not_input_row s w r :
  secrets_unique s -> In r (proof_rows s) -> status r <> UNSPENT ->
  ~ In (row_secret r) (res_inputs s w).
Proof. intros Hu Hr Hs Hx; exact (Hs (input_row_unspent s w r Hu Hr Hx)). Qed.

Lemma In_res_swapped s w keep send x :
  In x (res_swapped s w keep send) <->
  In x (res_inputs s w) /\ mem x (res_returned keep send) = false.
Proof.
  unfold res_swapped; rewrite filter_In; split; intros [H1 H2]; split; auto.
  - destruct (mem x _); [discriminate | reflexivity].
  - rewrite H2; reflexivity.
Qed.

Lemma In_res_existingSend s w send x :
  In x (res_existingSend s w send) <-> In x (map secret send) /\ In x (res_inputs s w).
Proof. unfold res_existingSend; rewrite filter_In, mem_In; reflexivity. Qed.

Lemma mem_returned keep send x :
  mem x (res_returned keep send) = mem x (map secret keep) || mem x (map secret send).
Proof. unfold mem, res_returned; rewrite existsb_app; reflexivity. Qed.

(** Per stored row, the share of the balance after a send. *)
Lemma send_row_unspent s w keep send r :
  secrets_unique s -> In r (proof_rows s) ->
  status_amount UNSPENT w
    (update_row w (res_existingSend s w send) PENDING
       (update_row w (res_swapped s w keep send) SPENT r)) =
  if (walletId r =? w)%Z && ProofStatus_eqb (status r) UNSPENT
     && (mem (row_secret r) (map secret keep) && negb (mem (row_secret r) (map secret send)))
  then row_amount r else 0%Z.
Proof.
  intros Hu Hr.
  destruct (Z.eqb (walletId r) w) eqn:Hw; simpl.
  2:{ apply Z.eqb_neq in Hw.
      rewrite !update_row_other by (rewrite ?update_row_walletId; exact Hw).
      apply status_amount_other_wallet; exact Hw. }
  apply Z.eqb_eq in Hw.
  destruct (status r) eqn:Hs; simpl.
  - assert (Hin : In (row_secret r) (res_inputs s w)) by (exact (input_secret_In s w r Hr Hw Hs)).
    destruct (mem (row_secret r) (map secret send)) eqn:Ms.
    + rewrite andb_false_r.
      unfold update_row at 1; rewrite update_row_walletId, update_row_secret, Hw, Z.eqb_refl.
      replace (mem (row_secret r) (res_existingSend s w send)) with true
        by (symmetry; apply mem_In, In_res_existingSend; split; [apply mem_In|]; assumption).
      unfold status_amount; cbn [andb set_status status ProofStatus_eqb];
      rewrite andb_false_r; reflexivity.
    + rewrite update_row_out
        by (rewrite update_row_secret, In_res_existingSend; intros [H _];
            apply mem_In in H; congruence).
      rewrite andb_true_r.
      destruct (mem (row_secret r) (map secret keep)) eqn:Mk.
      * rewrite update_row_out
          by (rewrite In_res_swapped, mem_returned, Mk; intros [_ H]; discriminate).
        unfold status_amount; rewrite Hw, Hs, Z.eqb_refl; reflexivity.
      * rewrite update_row_in
          by (try exact Hw; apply In_res_swapped; rewrite mem_returned, Mk, Ms; auto).
        unfold status_amount; cbn [andb set_status status ProofStatus_eqb];
        rewrite andb_false_r; reflexivity.
  - assert (Hn : ~ In (row_secret r) (res_inputs s w))
      by (apply (not_input_row s w r Hu Hr); congruence).
    rewrite (update_row_out w (res_swapped s w keep send))
      by (rewrite In_res_swapped; tauto).
    rewrite update_row_out by (rewrite In_res_existingSend; tauto).
    unfold status_amount; rewrite Hs, andb_false_r; reflexivity.
  - assert (Hn : ~ In (row_secret r) (res_inputs s w))
      by (apply (not_input_row s w r Hu Hr); congruence).
    rewrite (update_row_out w (res_swapped s w keep send))
      by (rewrite In_res_swapped; tauto).
    rewrite update_row_out by (rewrite In_res_existingSend; tauto).
    unfold status_amount; rewrite Hs, andb_false_r; reflexivity.
Qed.

Lemma send_row_pending s w keep send r :
  secrets_unique s -> In r (proof_rows s) ->
  (status_amount PENDING w r +
   (if (walletId r =? w)%Z && ProofStatus_eqb (status r) UNSPENT
       && mem (row_secret r) (map secret send) then row_amount r else 0%Z))%Z =
  status_amount PENDING w
    (update_row w (res_existingSend s w send) PENDING
       (update_row w (res_swapped s w keep send) SPENT r)).
Proof.
  intros Hu Hr.
  destruct (Z.eqb (walletId r) w) eqn:Hw; simpl.
  2:{ apply Z.eqb_neq in Hw.
      rewrite !update_row_other by (rewrite ?update_row_walletId; exact Hw).
      rewrite status_amount_other_wallet by exact Hw; reflexivity. }
  apply Z.eqb_eq in Hw.
  destruct (status r) eqn:Hs; simpl.
  - assert (Hin : In (row_secret r) (res_inputs s w)) by (exact (input_secret_In s w r Hr Hw Hs)).
    assert (H0 : status_amount PENDING w r = 0%Z)
      by (unfold status_amount; rewrite Hs, andb_false_r; reflexivity).
    rewrite H0.
    destruct (mem (row_secret r) (map secret send)) eqn:Ms.
    + unfold update_row at 1; rewrite update_row_walletId, update_row_secret, Hw, Z.eqb_refl.
      replace (mem (row_secret r) (res_existingSend s w send)) with true
        by (symmetry; apply mem_In, In_res_existingSend; split; [apply mem_In|]; assumption).
      unfold status_amount; cbn [andb set_status status ProofStatus_eqb walletId row_amount].
      rewrite update_row_walletId, update_row_amount, Hw, Z.eqb_refl; reflexivity.
    + rewrite update_row_out
        by (rewrite update_row_secret, In_res_existingSend; intros [H _];
            apply mem_In in H; congruence).
      unfold update_row; destruct (_ && _);
        unfold status_amount; cbn [andb set_status status ProofStatus_eqb];
        rewrite ?Hs, ?andb_false_r; reflexivity.
  - assert (Hn : ~ In (row_secret r) (res_inputs s w))
      by (apply (not_input_row s w r Hu Hr); congruence).
    rewrite (update_row_out w (res_swapped s w keep send))
      by (rewrite In_res_swapped; tauto).
    rewrite update_row_out by (rewrite In_res_existingSend; tauto).
    lia.
  - assert (Hn : ~ In (row_secret r) (res_inputs s w))
      by (apply (not_input_row s w r Hu Hr); congruence).
    rewrite (update_row_out w (res_swapped s w keep send))
      by (rewrite In_res_swapped; tauto).
    rewrite update_row_out by (rewrite In_res_existingSend; tauto).
    lia.
Qed.

(** The inputs' status update does not touch the rows of proofs new to the store. *)
Lemma update_new_rows w xs st n w' ps st' :
  (forall p, In p ps -> ~ In (secret p) xs) ->
  map (update_row w xs st) (new_rows n w' ps st') = new_rows n w' ps st'.
Proof.
  revert n; induction ps as [|p ps IH]; intros n H; simpl; [reflexivity|].
  rewrite update_row_out by (apply H; left; reflexivity).
  rewrite IH by (intros; apply H; right; assumption); reflexivity.
Qed.

Lemma newProofs_not_existing s w send ps p :
  In p (filter (fun p => negb (mem (secret p) (res_inputs s w))) ps) ->
  ~ In (secret p) (res_existingSend s w send).
Proof.
  rewrite filter_In; intros [_ H] Hx; apply In_res_existingSend in Hx.
  destruct Hx as [_ Hx]; apply mem_In in Hx; rewrite Hx in H;
  discriminate.
Qed.

Lemma status_amount_rows_other st0 w' w xs1 st1 xs2 st2 rows :
  w' <> w ->
  row_sum (status_amount st0 w') (map (update_row w xs2 st2) (map (update_row w xs1 st1) rows))
  = row_sum (status_amount st0 w') rows.
Proof.
  intros Hw; rewrite !row_sum_map; apply row_sum_ext_in; intros r _.
  rewrite !status_amount_update_other by exact Hw; reflexivity.
Qed.

(** X14: with distinct secrets in the store, a successful [sendProofs]
    leaves as UNSPENT balance of the wallet exactly its input proofs
    returned in [keep] but not in [send], plus the new [keep] proofs;
    its PENDING balance grows by the input proofs returned in [send] and
    the new [send] proofs; the other wallets' balances do not move. *)
Theorem sendProofs_balances wallet w amt pk s s' keep send :
  secrets_unique s ->
  sendProofs wallet w amt pk s = (s', Ok (keep, send)) ->
  let S_in := map secret (inputs_of s w) in
  balance s' w =
    (sum_amounts (filter (fun p => mem (secret p) (map secret keep)
                                   && negb (mem (secret p) (map secret send)))
                         (inputs_of s w))
     + sum_amounts (filter (fun p => negb (mem (secret p) S_in)) keep))%Z /\
  pending_balance s' w =
    (pending_balance s w
     + sum_amounts (filter (fun p => mem (secret p) (map secret send)) (inputs_of s w))
     + sum_amounts (filter (fun p => negb (mem (secret p) S_in)) send))%Z /\
  (forall w', w' <> w ->
     balance s' w' = balance s w' /\ pending_balance s' w' = pending_balance s w').
Proof.
  intros Hu Hrun.
  destruct (sendProofs_run wallet w amt pk s s' (keep, send) Hrun)
    as (cfg & keep' & send' & _ & Heq & n1 & n2 & Hrows).
  injection Heq as <- <-.
  cbv zeta in Hrows |- *.
  fold (res_inputs s w) in Hrows |- *.
  fold (res_returned keep send) in Hrows.
  fold (res_swapped s w keep send) (res_newKeep s w keep) (res_newSend s w send)
    (res_existingSend s w send) in Hrows |- *.
  rewrite map_app, map_app in Hrows.
  rewrite (update_new_rows w (res_existingSend s w send) PENDING n1 w (res_newKeep s w keep) UNSPENT)
    in Hrows by (intros p Hp; exact (newProofs_not_existing s w send keep p Hp)).
  rewrite (update_new_rows w (res_existingSend s w send) PENDING n2 w (res_newSend s w send) PENDING)
    in Hrows by (intros p Hp; exact (newProofs_not_existing s w send send p Hp)).
  rewrite !balance_rows, !pending_balance_rows, Hrows, !row_sum_app, !status_amount_new_rows.
  rewrite Z.eqb_refl; cbn [ProofStatus_eqb andb].
  split; [|split].
  - rewrite !row_sum_map.
    rewrite (row_sum_ext_in _ _ _ (fun r Hr => send_row_unspent s w keep send r Hu Hr)).
    unfold inputs_of.
    rewrite (filter_rows_sum w UNSPENT
               (fun x => mem x (map secret keep) && negb (mem x (map secret send)))).
    lia.
  - rewrite !row_sum_map.
    rewrite <- (row_sum_ext_in _ _ _ (fun r Hr => send_row_pending s w keep send r Hu Hr)).
    rewrite <- (row_sum_pointwise (status_amount PENDING w)
                  (fun r => if (walletId r =? w)%Z && ProofStatus_eqb (status r) UNSPENT
                               && mem (row_secret r) (map secret send)
                            then row_amount r else 0%Z)
                  (fun r => status_amount PENDING w r +
                            (if (walletId r =? w)%Z && ProofStatus_eqb (status r) UNSPENT
                                && mem (row_secret r) (map secret send)
                             then row_amount r else 0%Z))%Z
                  (proof_rows s) (fun r _ => eq_refl)).
    unfold inputs_of.
    rewrite (filter_rows_sum w UNSPENT (fun x => mem x (map secret send))).
    lia.
  - intros w' Hw'.
    rewrite !balance_rows, !pending_balance_rows, Hrows, !row_sum_app,
      !status_amount_new_rows.
    rewrite !status_amount_rows_other by exact Hw'.
    apply Z.eqb_neq in Hw'; rewrite Z.eqb_sym, Hw'; cbn [andb].
    split; lia.
Qed.

(** Witness: from [store_s1], the send of 100 leaves [k1] UNSPENT and [send1] PENDING. *)
Lemma sendProofs_balances_witness :
  secrets_unique store_s1 /\
  sendProofs mint_send_happy 1 100 None store_s1
  = (store_send_happy, Ok ([proof_k1], [proof_send1])) /\
  balance store_send_happy 1 = 100%Z /\ pending_balance store_send_happy 1 = 100%Z.
Proof.
  assert (Hu : secrets_unique store_s1)
    by (unfold secrets_unique; vm_compute; repeat constructor; simpl; tauto).
  assert (Hr : sendProofs mint_send_happy 1 100 None store_s1
               = (store_send_happy, Ok ([proof_k1], [proof_send1])))
    by (vm_compute; reflexivity).
  pose proof (sendProofs_balances mint_send_happy 1 100 None store_s1 store_send_happy
                [proof_k1] [proof_send1] Hu Hr) as H.
  split; [exact Hu|]; split; [exact Hr|].
  destruct H as [Hb [Hp _]]; rewrite Hb, Hp; split; vm_compute; reflexivity.
Defined.

(** ** Creating a wallet *)

Lemma existsb_key_false wallets key :
  ~ In key (map accessKey wallets) ->
  existsb (fun wl => String.eqb (accessKey wl) key) wallets = false.
Proof.
  intros H; apply Bool.not_true_iff_false; intros E.
  apply existsb_exists in E; destruct E as [wl [Hin E]]; apply String.eqb_eq in E.
  apply H; rewrite <- E; apply in_map; exact Hin.
Qed.

Lemma find_key_app wallets wl key :
  ~ In key (map accessKey wallets) -> accessKey wl = key ->
  wallet_findUnique (wallets ++ [wl]) key = Some wl.
Proof.
  intros H Hk; unfold wallet_findUnique; induction wallets as [|a l IH]; simpl in *.
  - rewrite Hk, String.eqb_refl; reflexivity.
  - destruct (String.eqb (accessKey a) key) eqn:E.
    + apply String.eqb_eq in E; exfalso; apply H; left; exact E.
    + apply IH; intros Hl; apply H; right; exact Hl.
Qed.

Lemma rows_with_none w st rows :
  (forall r, In r rows -> walletId r <> w) -> rows_with w st rows = [].
Proof.
  unfold rows_with; induction rows as [|r rows IH]; simpl; intros H; [reflexivity|].
  assert (E : (walletId r =? w)%Z = false) by (apply Z.eqb_neq, H; left; reflexivity).
  rewrite E; simpl; apply IH; intros; apply H; right; assumption.
Qed.

Lemma filter_other_rows w rows :
  (forall r, In r rows -> walletId r <> w) ->
  filter (fun r => negb (walletId r =? w)%Z) rows = rows.
Proof.
  induction rows as [|r rows IH]; simpl; intros H; [reflexivity|].
  assert (E : (walletId r =? w)%Z = false) by (apply Z.eqb_neq, H; left; reflexivity).
  rewrite E; simpl; rewrite IH by (intros; apply H; right; assumption); reflexivity.
Qed.

Lemma filter_new_rows_out n w ps st :
  filter (fun r => negb (walletId r =? w)%Z) (new_rows n w ps st) = [].
Proof.
  revert n; induction ps as [|p ps IH]; intros n; simpl; [reflexivity|].
  rewrite Z.eqb_refl; simpl; apply IH.
Qed.

Lemma existsb_rows_none w rows :
  (forall r, In r rows -> walletId r <> w) ->
  existsb (fun r => walletId r =? w)%Z rows = false.
Proof.
  intros H; apply Bool.not_true_iff_false; intros E.
  apply existsb_exists in E; destruct E as [r [Hin E]]; apply Z.eqb_eq in E.
  exact (H r Hin E).
Qed.

Lemma filter_other_wallets wallets wl w :
  wallet_id wl = w -> (forall x, In x wallets -> wallet_id x <> w) ->
  filter (fun x => negb (wallet_id x =? w)%Z) (wallets ++ [wl]) = wallets.
Proof.
  intros <-; induction wallets as [|a l IH]; simpl; intros H.
  - rewrite Z.eqb_refl; reflexivity.
  - assert (E : (wallet_id a =? wallet_id wl)%Z = false)
      by (apply Z.eqb_neq, H; left; reflexivity).
    rewrite E; simpl; rewrite IH by (intros; apply H; right; assumption); reflexivity.
Qed.

Lemma existsb_wallet_last wallets wl w :
  wallet_id wl = w -> existsb (fun x => wallet_id x =? w)%Z (wallets ++ [wl]) = true.
Proof.
  intros <-; apply existsb_exists; exists wl;
    split; [apply in_or_app; right; left; reflexivity | apply Z.eqb_refl].
Qed.

Lemma or_default_empty o :
  or_default o "" = match o with Some n => n | None => "" end.
Proof.
  destruct o as [v|]; simpl; [|reflexivity].
  destruct (String.eqb v "") eqn:E; [apply String.eqb_eq in E; subst|]; reflexivity.
Qed.

(** X15: a wallet created without a token is appended with the next id,
    no limits and zero balances; the header [Bearer <access_key>] then
    authenticates it, and GET /wallet on it reads back the same name, key,
    mint and unit, zero balances and no limits. *)
Theorem create_wallet_then_get receive mintUrlEnv unitEnv envMaxBalance key name token d :
  fresh_wallet_id d -> ~ In key (map accessKey (db_wallets d)) -> key <> "" ->
  truthy token = false ->
  let wl := mkPrismaWallet (next_wallet_id d) key (if truthy name then name else None)
                           (or_default mintUrlEnv "") (or_default unitEnv "sat")
                           None None None in
  let resp := mkCreateWalletResponse (or_default (wallet_name wl) "") key
                (or_default mintUrlEnv "") (or_default unitEnv "sat") 0 0 in
  create_wallet_handler receive mintUrlEnv unitEnv envMaxBalance key name token d =
    (mkDB (db_wallets d ++ [wl]) (next_wallet_id d + 1) (db_store d), Ok resp) /\
  bearerAuthHandler (db_wallets d ++ [wl]) (Some ("Bearer " ++ key)) = Ok wl /\
  wallet_get_handler wl (db_store d) =
    (db_store d, Ok (mkWalletResponse (cw_name resp) key (cw_mint resp) (cw_unit resp)
                                      0 0 None)).
Proof.
  intros [Hw Hr] Hk Hne Ht wl resp; split; [|split].
  - unfold create_wallet_handler, bindW, prisma_wallet_create.
    rewrite existsb_key_false by exact Hk; rewrite Ht; reflexivity.
  - unfold bearerAuthHandler.
    replace (String.eqb ("Bearer " ++ key) "") with false by reflexivity.
    replace (String.prefix "Bearer " ("Bearer " ++ key)) with true
      by (destruct key; reflexivity).
    cbv beta iota delta [negb].
    rewrite bearer_substring.
    destruct (String.eqb key "") eqn:E; [apply String.eqb_eq in E; contradiction|].
    rewrite find_key_app by (exact Hk || reflexivity); reflexivity.
  - unfold wallet_get_handler, getWalletBalance, bind, ret, aggregate_amount; cbn.
    rewrite !rows_with_none by exact Hr.
    unfold resp, cw_name; rewrite (or_default_empty (if truthy name then name else None));
    reflexivity.
Qed.

(** X16: when the initial token is worth more than MAX_BALANCE, the
    request fails with 400 LIMIT_ERROR and both tables are left with the
    rows they had before: the received proofs and the new wallet are
    deleted again. *)
Theorem create_wallet_over_limit receive mintUrlEnv unitEnv envMaxBalance key name token d ps :
  fresh_wallet_id d -> ~ In key (map accessKey (db_wallets d)) ->
  truthy token = true ->
  receive (or_default token "") = Ok ps -> fresh_proofs (db_store d) ps ->
  (getProofsAmount ps > envLimit envMaxBalance 100000)%Z ->
  exists d',
    create_wallet_handler receive mintUrlEnv unitEnv envMaxBalance key name token d =
      (d', Throw (app_error 400 LIMIT_ERROR
                    ("Token amount " ++ string_of_Z (getProofsAmount ps)
                     ++ " exceeds max balance "
                     ++ string_of_Z (envLimit envMaxBalance 100000)))) /\
    db_wallets d' = db_wallets d /\ proof_rows (db_store d') = proof_rows (db_store d).
Proof.
  intros [Hw Hr] Hk Ht Hrec Hf Hgt.
  unfold create_wallet_handler, bindW, prisma_wallet_create.
  rewrite existsb_key_false by exact Hk; rewrite Ht.
  unfold try_catchW, bindW, on_proofs; cbn [db_store db_wallets next_wallet_id wallet_id].
  rewrite (receiveToken_run receive (next_wallet_id d) _ (db_store d) ps Hrec Hf).
  cbv zeta.
  replace (getProofsAmount ps >? envLimit envMaxBalance 100000)%Z with true
    by (symmetry; apply Z.gtb_lt; lia).
  unfold prisma_proof_deleteMany, prisma_wallet_delete;
    cbn [db_store db_wallets next_wallet_id proof_rows next_row_id].
  rewrite filter_app, filter_other_rows, filter_new_rows_out, app_nil_r by exact Hr.
  rewrite existsb_rows_none by exact Hr.
  rewrite (existsb_wallet_last (db_wallets d) _ (next_wallet_id d)) by reflexivity.
  cbv beta iota delta [negb].
  rewrite (filter_other_wallets (db_wallets d) _ (next_wallet_id d)) by (reflexivity || exact Hw).
  eexists; split; [reflexivity | split; reflexivity].
Qed.

(** X17: when the mint refuses the initial token, an [AppError] from the
    receive is rethrown as it is and the new wallet stays in the table;
    any other error deletes the wallet again and becomes a 400
    VALIDATION_ERROR naming the cause, with both tables as before. *)
Theorem create_wallet_receive_error receive mintUrlEnv unitEnv envMaxBalance key name token d e :
  fresh_wallet_id d -> ~ In key (map accessKey (db_wallets d)) ->
  truthy token = true -> receive (or_default token "") = Throw e ->
  let wl := mkPrismaWallet (next_wallet_id d) key (if truthy name then name else None)
                           (or_default mintUrlEnv "") (or_default unitEnv "sat")
                           None None None in
  match e with
  | ExnApp _ =>
      create_wallet_handler receive mintUrlEnv unitEnv envMaxBalance key name token d =
        (mkDB (db_wallets d ++ [wl]) (next_wallet_id d + 1) (db_store d), Throw e)
  | _ =>
      exists d',
        create_wallet_handler receive mintUrlEnv unitEnv envMaxBalance key name token d =
          (d', Throw (app_error 400 VALIDATION_ERROR
                        ("Failed to receive initial token: " ++ exn_message e))) /\
        db_wallets d' = db_wallets d /\ db_store d' = db_store d
  end.
Proof.
  intros [Hw Hr] Hk Ht Hrec wl.
  unfold create_wallet_handler, bindW, prisma_wallet_create.
  rewrite existsb_key_false by exact Hk; rewrite Ht.
  unfold try_catchW, bindW, on_proofs; cbn [db_store db_wallets next_wallet_id wallet_id].
  unfold receiveToken, bind, lift; rewrite Hrec.
  destruct e as [a|c m|m]; [reflexivity| |];
    unfold prisma_wallet_delete; cbn [db_store db_wallets next_wallet_id];
    rewrite existsb_rows_none by exact Hr;
    rewrite (existsb_wallet_last (db_wallets d) _ (next_wallet_id d)) by reflexivity;
    cbv beta iota delta [negb];
    rewrite (filter_other_wallets (db_wallets d) _ (next_wallet_id d)) by (reflexivity || exact Hw);
    eexists; (split; [reflexivity | split; reflexivity]).
Qed.

Lemma saveProofs_throw_rows w ps st s s' e :
  saveProofs w ps st s = (s', Throw e) -> proof_rows s' <> proof_rows s ->
  e = unique_secret_violation /\ existsb (fun r => walletId r =? w)%Z (proof_rows s') = true.
Proof.
  intros H Hne; pose proof (saveProofs_run w ps st s) as R; rewrite H in R.
  destruct R as [k [p [_ [He [Hrows _]]]]]; split; [exact He|].
  destruct (new_rows (next_row_id s) w (firstn k ps) st) as [|r l] eqn:En.
  - rewrite app_nil_r in Hrows; contradiction.
  - apply existsb_exists; exists r; split.
    + rewrite Hrows; apply in_or_app; right; left; reflexivity.
    + destruct (new_rows_fields (next_row_id s) w (firstn k ps) st r) as [Hw _];
        [rewrite En; left; reflexivity|]; rewrite Hw; apply Z.eqb_refl.
Qed.

(** X18: when saving the received proofs fails after some rows were
    written (a later proof's secret is already stored), the cleanup's
    [wallet.delete] is refused by the foreign key of those rows: the
    request fails with that database error, and the new wallet and the
    rows written for it stay in place. *)
Theorem create_wallet_partial_save receive mintUrlEnv unitEnv envMaxBalance key name token d ps s' e :
  ~ In key (map accessKey (db_wallets d)) ->
  truthy token = true -> receive (or_default token "") = Ok ps ->
  saveProofs (next_wallet_id d) ps UNSPENT (db_store d) = (s', Throw e) ->
  proof_rows s' <> proof_rows (db_store d) ->
  let wl := mkPrismaWallet (next_wallet_id d) key (if truthy name then name else None)
                           (or_default mintUrlEnv "") (or_default unitEnv "sat")
                           None None None in
  create_wallet_handler receive mintUrlEnv unitEnv envMaxBalance key name token d =
    (mkDB (db_wallets d ++ [wl]) (next_wallet_id d + 1) s', Throw foreign_key_violation).
Proof.
  intros Hk Ht Hrec Hs Hne wl.
  destruct (saveProofs_throw_rows _ _ _ _ _ _ Hs Hne) as [-> Hex].
  unfold create_wallet_handler, bindW, prisma_wallet_create.
  rewrite existsb_key_false by exact Hk; rewrite Ht.
  unfold try_catchW, bindW, on_proofs; cbn [db_store db_wallets next_wallet_id wallet_id].
  unfold receiveToken, bind, lift; rewrite Hrec, Hs.
  unfold unique_secret_violation, prisma_wallet_delete; cbn [db_store].
  rewrite Hex; reflexivity.
Qed.

Lemma db_ab_fresh : fresh_wallet_id db_ab.
Proof.
  split; simpl; intros x Hx; repeat destruct Hx as [<-|Hx]; try destruct Hx; discriminate.
Qed.

Lemma db_ab_key_new : ~ In "key-new" (map accessKey (db_wallets db_ab)).
Proof. simpl; intros Hx; repeat destruct Hx as [Hx|Hx]; try discriminate Hx; exact Hx. Qed.

(** Witness: wallet 3 is created in [db_ab] and authenticated by its key. *)
Lemma create_wallet_then_get_witness :
  fresh_wallet_id db_ab /\
  bearerAuthHandler (db_wallets db_ab ++
                       [mkPrismaWallet 3 "key-new" (Some "bob") "https://mint.example" "sat"
                                       None None None])
                    (Some "Bearer key-new")
  = Ok (mkPrismaWallet 3 "key-new" (Some "bob") "https://mint.example" "sat" None None None).
Proof.
  split; [exact db_ab_fresh|].
  exact (proj1 (proj2
    (create_wallet_then_get (fun _ => Throw mint_unreachable) (Some "https://mint.example")
       None None "key-new" (Some "bob") None db_ab db_ab_fresh db_ab_key_new
       ltac:(discriminate) eq_refl))).
Defined.

(** Witness: a 900 sat token against MAX_BALANCE 500 leaves [db_ab]'s tables. *)
Lemma create_wallet_over_limit_witness :
  exists d',
    create_wallet_handler (fun _ => Ok [proof_big]) (Some "https://mint.example") None
      (Some 500%Z) "key-new" None (Some "cashuBtoken") db_ab =
      (d', Throw (app_error 400 LIMIT_ERROR "Token amount 900 exceeds max balance 500")) /\
    db_wallets d' = db_wallets db_ab /\ proof_rows (db_store d') = proof_rows (db_store db_ab).
Proof.
  apply (create_wallet_over_limit (fun _ => Ok [proof_big]) (Some "https://mint.example") None
           (Some 500%Z) "key-new" None (Some "cashuBtoken") db_ab [proof_big]
           db_ab_fresh db_ab_key_new eq_refl eq_refl).
  - split; [repeat constructor; simpl; tauto|].
    simpl; intros x [<-|[]] [H|[]]; discriminate H.
  - vm_compute; reflexivity.
Defined.

(** Witness: an unreachable mint gives the 400 and no wallet is left. *)
Lemma create_wallet_receive_error_witness :
  exists d',
    create_wallet_handler (fun _ => Throw mint_unreachable) (Some "https://mint.example") None
      None "key-new" None (Some "cashuBtoken") db_ab =
      (d', Throw (app_error 400 VALIDATION_ERROR "Failed to receive initial token: fetch failed")) /\
    db_wallets d' = db_wallets db_ab /\ db_store d' = db_store db_ab.
Proof.
  exact (create_wallet_receive_error (fun _ => Throw mint_unreachable)
           (Some "https://mint.example") None None "key-new" None (Some "cashuBtoken") db_ab
           mint_unreachable db_ab_fresh db_ab_key_new eq_refl eq_refl).
Defined.

(** Witness: a token [k1; s1] into [db_ab]: [k1] is saved for wallet 3,
    [s1] is already stored, and wallet 3 cannot be deleted. *)
Lemma create_wallet_partial_save_witness :
  create_wallet_handler (fun _ => Ok [proof_k1; proof_s1]) (Some "https://mint.example") None
    None "key-new" None (Some "cashuBtoken") db_ab =
  (mkDB (db_wallets db_ab ++
           [mkPrismaWallet 3 "key-new" None "https://mint.example" "sat" None None None])
        4 (mkStore (proof_rows store_s1 ++ [proof_row 1 3 proof_k1 UNSPENT]) 2),
   Throw foreign_key_violation).
Proof.
  exact (create_wallet_partial_save (fun _ => Ok [proof_k1; proof_s1])
           (Some "https://mint.example") None None "key-new" None (Some "cashuBtoken") db_ab
           [proof_k1; proof_s1]
           (mkStore (proof_rows store_s1 ++ [proof_row 1 3 proof_k1 UNSPENT]) 2)
           unique_secret_violation db_ab_key_new eq_refl eq_refl
           ltac:(vm_compute; reflexivity) ltac:(discriminate)).
Defined.

(** ** The balances around a reconciliation *)

Lemma combine_seq_S {A} k n (l : list A) :
  combine (seq (S k) n) l = map (fun ip => (S (fst ip), snd ip)) (combine (seq k n) l).
Proof.
  revert k n; induction l as [|a l IH]; intros k n; destruct n; simpl; try reflexivity.
  f_equal; apply IH.
Qed.

Lemma filter_map_comm {A B} (f : B -> bool) (g : A -> B) l :
  filter f (map g l) = map g (filter (fun x => f (g x)) l).
Proof. induction l as [|a l IH]; simpl; [reflexivity|]; destruct (f (g a)); simpl; rewrite IH; reflexivity. Qed.

Lemma proofs_in_state_cons p ps m sts c :
  proofs_in_state (p :: ps) (m :: sts) c =
  ((if CheckStateEnum_eqb (state m) c then [p] else []) ++ proofs_in_state ps sts c)%list.
Proof.
  unfold proofs_in_state; cbn [length seq combine filter fst nth_error].
  destruct (CheckStateEnum_eqb (state m) c); cbn [map app];
    rewrite combine_seq_S, filter_map_comm, map_map; reflexivity.
Qed.

Lemma proofs_in_state_nil ps c : proofs_in_state ps [] c = [].
Proof.
  unfold proofs_in_state; induction (combine (seq 0 (length ps)) ps) as [|[i p] l IH];
    [reflexivity|].
  simpl; rewrite nth_error_nil; exact IH.
Qed.

(** The two lists the loop of [syncProofsStateWithMint] builds are the
    secrets of the proofs the mint reports SPENT, resp. UNSPENT. *)
Lemma classify_proofs_in_state ps sts :
  classify_states ps sts =
  (map secret (proofs_in_state ps sts CS_SPENT), map secret (proofs_in_state ps sts CS_UNSPENT)).
Proof.
  revert sts; induction ps as [|p ps IH]; intros sts; [reflexivity|].
  destruct sts as [|m sts].
  - rewrite !proofs_in_state_nil; simpl; rewrite IH, !proofs_in_state_nil; reflexivity.
  - rewrite !proofs_in_state_cons; simpl; rewrite IH.
    destruct (state m); reflexivity.
Qed.

Lemma filter_mem_nil (l : list Proof) : filter (fun p => mem (secret p) []) l = [].
Proof. induction l; simpl; auto. Qed.

Lemma filter_mem_proofs_in_state ps sts c :
  NoDup (map secret ps) ->
  filter (fun p => mem (secret p) (map secret (proofs_in_state ps sts c))) ps =
  proofs_in_state ps sts c.
Proof.
  revert sts; induction ps as [|p ps IH]; intros sts Hnd; [reflexivity|].
  destruct sts as [|m sts]; [rewrite proofs_in_state_nil; apply filter_mem_nil|].
  simpl in Hnd; inversion Hnd as [|? ? Hp Hnd']; subst.
  rewrite proofs_in_state_cons.
  assert (Hsub : forall x, In x (map secret (proofs_in_state ps sts c)) -> In x (map secret ps))
    by (intros x; apply secrets_in_state_sub).
  assert (Hext : forall q, In q ps ->
            mem (secret q) (map secret ((if CheckStateEnum_eqb (state m) c then [p] else [])
                                        ++ proofs_in_state ps sts c)) =
            mem (secret q) (map secret (proofs_in_state ps sts c))).
  { intros q Hq; destruct (CheckStateEnum_eqb (state m) c); [|reflexivity].
    simpl; unfold mem; simpl.
    destruct (String.eqb (secret q) (secret p)) eqn:E; [|reflexivity].
    apply String.eqb_eq in E; exfalso; apply Hp; rewrite <- E; apply in_map; exact Hq. }
  simpl; rewrite (filter_ext_in _ _ ps Hext), IH by exact Hnd'.
  destruct (CheckStateEnum_eqb (state m) c); simpl.
  - unfold mem at 1; simpl; rewrite String.eqb_refl; reflexivity.
  - destruct (mem (secret p) (map secret (proofs_in_state ps sts c))) eqn:E; [|reflexivity].
    apply mem_In, Hsub in E; contradiction.
Qed.

Lemma classify_disjoint ps sts x :
  NoDup (map secret ps) ->
  In x (fst (classify_states ps sts)) -> In x (snd (classify_states ps sts)) -> False.
Proof.
  revert sts; induction ps as [|p ps IH]; intros sts Hnd; [simpl; tauto|].
  simpl in Hnd; inversion Hnd as [|? ? Hp Hnd']; subst.
  pose proof (fun y => classify_subset ps (tl sts) y) as Hsub.
  specialize (IH (tl sts) Hnd').
  simpl; destruct (classify_states ps (tl sts)) as [sp un]; simpl in *.
  destruct sts as [|m sts]; [exact IH|].
  destruct (state m); simpl; intros H1 H2;
    try (destruct H1 as [<-|H1]; [apply Hp, (proj2 (Hsub _)), H2|]);
    try (destruct H2 as [<-|H2]; [apply Hp, (proj1 (Hsub _)), H1|]);
    exact (IH H1 H2).
Qed.

Lemma pending_secret_row s w r :
  secrets_unique s -> In r (proof_rows s) ->
  In (row_secret r) (map secret (pending_of s w)) -> walletId r = w /\ status r = PENDING.
Proof.
  intros Hu Hr Hx; apply in_map_iff in Hx; destruct Hx as [p [Hp Hin]].
  destruct (pending_of_In s w p Hin) as [r0 [Hr0 [Hw0 [Hs0 ->]]]].
  assert (r0 = r) as -> by (apply (nodup_secret_same (proof_rows s)); assumption).
  split; assumption.
Qed.

Section SyncRows.
Variables (s : Store) (w : Z) (SP UN : list string).
Hypothesis Hu : secrets_unique s.
Hypothesis HSP : forall x, In x SP -> In x (map secret (pending_of s w)).
Hypothesis HUN : forall x, In x UN -> In x (map secret (pending_of s w)).
Hypothesis Hdisj : forall x, In x SP -> In x UN -> False.

Let upd r := update_row w UN UNSPENT (update_row w SP SPENT r).

Let pend_in (xs : list string) (r : ProofRow) : Z :=
  if (walletId r =? w)%Z && ProofStatus_eqb (status r) PENDING && mem (row_secret r) xs
  then row_amount r else 0%Z.

Lemma sync_row_unspent r :
  In r (proof_rows s) ->
  status_amount UNSPENT w (upd r) = (status_amount UNSPENT w r + pend_in UN r)%Z.
Proof.
  intros Hr; unfold upd, pend_in.
  destruct (Z.eqb (walletId r) w) eqn:Hw.
  2:{ apply Z.eqb_neq in Hw.
      rewrite !update_row_other by (rewrite ?update_row_walletId; exact Hw).
      unfold status_amount; apply Z.eqb_neq in Hw; rewrite Hw; reflexivity. }
  apply Z.eqb_eq in Hw; cbn [andb].
  destruct (mem (row_secret r) UN) eqn:Mu.
  - apply mem_In in Mu.
    destruct (pending_secret_row s w r Hu Hr (HUN _ Mu)) as [_ Hs].
    rewrite (update_row_in w UN) by (rewrite ?update_row_walletId, ?update_row_secret; assumption).
    unfold status_amount; cbn [set_status status walletId row_amount ProofStatus_eqb].
    rewrite update_row_walletId, update_row_amount, Hw, Hs, Z.eqb_refl; reflexivity.
  - rewrite (update_row_out w UN)
      by (rewrite update_row_secret; apply mem_false; exact Mu).
    rewrite andb_false_r, Z.add_0_r.
    destruct (mem (row_secret r) SP) eqn:Ms.
    + apply mem_In in Ms.
      destruct (pending_secret_row s w r Hu Hr (HSP _ Ms)) as [_ Hs].
      rewrite (update_row_in w SP) by assumption.
      unfold status_amount; cbn [set_status status ProofStatus_eqb]; rewrite Hs, !andb_false_r;
        reflexivity.
    + rewrite update_row_out by (apply mem_false; exact Ms); reflexivity.
Qed.

Lemma sync_row_pending r :
  In r (proof_rows s) ->
  (status_amount PENDING w (upd r) + pend_in SP r + pend_in UN r)%Z =
  status_amount PENDING w r.
Proof.
  intros Hr; unfold upd, pend_in.
  destruct (Z.eqb (walletId r) w) eqn:Hw.
  2:{ apply Z.eqb_neq in Hw.
      rewrite !update_row_other by (rewrite ?update_row_walletId; exact Hw).
      cbn [andb]; lia. }
  apply Z.eqb_eq in Hw; cbn [andb].
  destruct (mem (row_secret r) UN) eqn:Mu.
  - apply mem_In in Mu.
    destruct (pending_secret_row s w r Hu Hr (HUN _ Mu)) as [_ Hs].
    assert (Ms : mem (row_secret r) SP = false)
      by (apply mem_false; intros H; exact (Hdisj _ H Mu)).
    rewrite Ms, (update_row_out w SP) by (apply mem_false; exact Ms).
    rewrite (update_row_in w UN) by assumption.
    unfold status_amount; cbn [set_status status walletId row_amount ProofStatus_eqb].
    rewrite Hs, Hw, Z.eqb_refl; cbn [andb ProofStatus_eqb]; lia.
  - rewrite (update_row_out w UN)
      by (rewrite update_row_secret; apply mem_false; exact Mu).
    rewrite andb_false_r.
    destruct (mem (row_secret r) SP) eqn:Ms.
    + apply mem_In in Ms.
      destruct (pending_secret_row s w r Hu Hr (HSP _ Ms)) as [_ Hs].
      rewrite (update_row_in w SP) by assumption.
      unfold status_amount; cbn [set_status status ProofStatus_eqb walletId].
      rewrite Hs, Hw, Z.eqb_refl; cbn [andb ProofStatus_eqb]; lia.
    + rewrite update_row_out by (apply mem_false; exact Ms).
      rewrite andb_false_r; lia.
Qed.

End SyncRows.

Lemma pending_sum_in_state s w sts c :
  secrets_unique s ->
  row_sum (fun r => if (walletId r =? w)%Z && ProofStatus_eqb (status r) PENDING
                       && mem (row_secret r) (map secret (proofs_in_state (pending_of s w) sts c))
                    then row_amount r else 0%Z) (proof_rows s) =
  sum_amounts (proofs_in_state (pending_of s w) sts c).
Proof.
  intros Hu.
  rewrite <- (filter_rows_sum w PENDING
                (fun x => mem x (map secret (proofs_in_state (pending_of s w) sts c)))).
  fold (pending_of s w).
  rewrite filter_mem_proofs_in_state by (apply pending_of_nodup; exact Hu).
  reflexivity.
Qed.

(** X19: with distinct secrets in the store, reconciliation moves into
    the wallet's balance exactly the PENDING proofs the mint reports
    UNSPENT, and takes out of its pending balance the ones reported SPENT
    or UNSPENT; the other wallets' balances do not move. *)
Theorem syncProofsStateWithMint_balances wallet w s sts :
  secrets_unique s ->
  checkProofsStates wallet (pending_of s w) = Ok sts ->
  exists s' c,
    syncProofsStateWithMint wallet w s = (s', Ok c) /\
    balance s' w =
      (balance s w + sum_amounts (proofs_in_state (pending_of s w) sts CS_UNSPENT))%Z /\
    pending_balance s' w =
      (pending_balance s w
       - sum_amounts (proofs_in_state (pending_of s w) sts CS_SPENT)
       - sum_amounts (proofs_in_state (pending_of s w) sts CS_UNSPENT))%Z /\
    (forall w', w' <> w ->
       balance s' w' = balance s w' /\ pending_balance s' w' = pending_balance s w').
Proof.
  intros Hu Hst.
  pose proof (sync_run wallet w s sts Hst) as Run.
  destruct (Nat.eqb (length (pending_of s w)) 0) eqn:E0.
  - apply Nat.eqb_eq, length_zero_iff_nil in E0.
    exists s, (mkSyncCounts 0 0 0); split; [exact Run|].
    rewrite E0; unfold proofs_in_state; simpl.
    split; [lia|]; split; [lia|]; intros; split; reflexivity.
  - cbv zeta in Run; rewrite classify_proofs_in_state in Run; cbn [fst snd] in Run.
    set (SP := map secret (proofs_in_state (pending_of s w) sts CS_SPENT)) in Run.
    set (UN := map secret (proofs_in_state (pending_of s w) sts CS_UNSPENT)) in Run.
    assert (HSP : forall x, In x SP -> In x (map secret (pending_of s w)))
      by (intros x; apply secrets_in_state_sub).
    assert (HUN : forall x, In x UN -> In x (map secret (pending_of s w)))
      by (intros x; apply secrets_in_state_sub).
    assert (Hdisj : forall x, In x SP -> In x UN -> False).
    { intros x H1 H2.
      apply (classify_disjoint (pending_of s w) sts x (pending_of_nodup s w Hu));
        rewrite classify_proofs_in_state; assumption. }
    eexists; eexists; split; [exact Run|].
    rewrite !balance_rows, !pending_balance_rows; cbn [proof_rows].
    rewrite !row_sum_map.
    split; [|split].
    + rewrite (row_sum_ext_in _ _ _ (fun r Hr => sync_row_unspent s w SP UN Hu HSP HUN r Hr)).
      rewrite <- (row_sum_pointwise (status_amount UNSPENT w) _ _ (proof_rows s)
                    (fun r _ => eq_refl)).
      unfold UN; rewrite pending_sum_in_state by exact Hu; reflexivity.
    + rewrite <- (row_sum_ext_in _ _ _
                   (fun r Hr => sync_row_pending s w SP UN Hu HSP HUN Hdisj r Hr)).
      rewrite <- (row_sum_pointwise _ _ _ (proof_rows s) (fun r _ => eq_refl)).
      rewrite <- (row_sum_pointwise _ _ _ (proof_rows s) (fun r _ => eq_refl)).
      unfold SP, UN; rewrite !pending_sum_in_state by exact Hu; lia.
    + intros w' Hw'.
      rewrite !balance_rows, !pending_balance_rows; cbn [proof_rows].
      rewrite !row_sum_map.
      split; apply row_sum_ext_in; intros r _;
        rewrite !status_amount_update_other by exact Hw'; reflexivity.
Qed.

(** Witness: the mixed answer on [store_reconcile] moves [s2] (2 sat) to
    the balance and leaves [s3] (4 sat) pending. *)
Lemma syncProofsStateWithMint_balances_witness :
  secrets_unique store_reconcile /\
  checkProofsStates mint_reconcile (pending_of store_reconcile 1) = Ok mixed_states /\
  exists s' c,
    syncProofsStateWithMint mint_reconcile 1 store_reconcile = (s', Ok c) /\
    balance s' 1 = 2%Z /\ pending_balance s' 1 = 4%Z.
Proof.
  split; [exact store_reconcile_unique|]; split; [reflexivity|].
  destruct (syncProofsStateWithMint_balances mint_reconcile 1 store_reconcile mixed_states
              store_reconcile_unique eq_refl) as (s' & c & Hrun & Hb & Hp & _).
  exists s', c; split; [exact Hrun|].
  rewrite Hb, Hp; split; vm_compute; reflexivity.
Defined.
